(** * image-uploader: Shopware product-image synchronisation

    A shallow embedding of [src/shopware.ts], [src/openai.ts] and [main]
    of [src/index.ts], and the properties of the pagination, the upload
    protocol, the prompt builder and the interactive/batch decision
    logic.

    Conventions of the embedding.
    - A JavaScript string is a [string]; every [ascii] stands for one code
      unit below 256, so the white space of [\s] and of [trim] is the set
      TAB, LF, VT, FF, CR, SPACE and NBSP.
    - [T | null] is [option T]; JavaScript truthiness of such a value is
      written out ([truthy]): [null] and the empty string are both falsy.
    - Everything the program does to the outside (HTTP requests, the
      image API, the operator's answers, random uuids, files of the preview
      directory) goes through one state record [St] that logs it, and is
      answered by an environment [Env] of oracles.  Console output is not
      part of the model. *)

From Stdlib Require Import String Ascii List ZArith Lia Bool.
From Stdlib Require Import DecimalString.
From stdpp Require Import gmap strings.
Import ListNotations.

Local Open Scope string_scope.
Local Open Scope list_scope.
Local Open Scope nat_scope.

(* ===================================================================== *)
(** ** JavaScript string primitives used by the sources                  *)
(* ===================================================================== *)

Module Js.

(** [!v] is false exactly for a non-empty string. *)
Definition truthy (v : option string) : bool :=
  match v with
  | Some (String _ _) => true
  | _ => false
  end.

(** [a || b] on [string | null] operands. *)
Definition or_else (a b : option string) : option string :=
  if truthy a then a else b.

(** The characters matched by [\s] (and removed by [trim]). *)
Definition is_space (c : ascii) : bool :=
  let n := nat_of_ascii c in
  ((9 <=? n) && (n <=? 13)) || (n =? 32) || (n =? 160).

Definition is_lt (c : ascii) : bool := Ascii.eqb c "<"%char.
Definition is_gt (c : ascii) : bool := Ascii.eqb c ">"%char.

Fixpoint has_gt (s : string) : bool :=
  match s with
  | EmptyString => false
  | String c r => is_gt c || has_gt r
  end.

(** [s.replace(/<[^>]*>/g, " ")].  The scan runs left to right; at a
    ['<'] that has a ['>'] somewhere after it, the match extends to the
    first such ['>'] (the class [[^>]] cannot step over one) and the
    whole match becomes one space; a ['<'] with no ['>'] after it does
    not match and is kept.  [inside] is true while the scan is inside a
    match. *)
Fixpoint replace_tags_from (inside : bool) (s : string) : string :=
  match s with
  | EmptyString => EmptyString
  | String c r =>
      if inside then
        if is_gt c then String " " (replace_tags_from false r)
        else replace_tags_from true r
      else if is_lt c && has_gt r then replace_tags_from true r
      else String c (replace_tags_from false r)
  end.

Definition replace_tags (s : string) : string := replace_tags_from false s.

(** [s.replace(/\s+/g, " ")]: every maximal run of white space becomes
    one space.  [in_run] is true when the previous character was white
    space. *)
Fixpoint collapse_ws_from (in_run : bool) (s : string) : string :=
  match s with
  | EmptyString => EmptyString
  | String c r =>
      if is_space c then
        if in_run then collapse_ws_from true r
        else String " " (collapse_ws_from true r)
      else String c (collapse_ws_from false r)
  end.

Definition collapse_ws (s : string) : string := collapse_ws_from false s.

Fixpoint trim_start (s : string) : string :=
  match s with
  | EmptyString => EmptyString
  | String c r => if is_space c then trim_start r else s
  end.

Fixpoint trim_end (s : string) : string :=
  match s with
  | EmptyString => EmptyString
  | String c r =>
      match trim_end r with
      | EmptyString => if is_space c then EmptyString else String c EmptyString
      | r' => String c r'
      end
  end.

(** [s.trim()] *)
Definition trim (s : string) : string := trim_end (trim_start s).

(** [s.toLowerCase()] on code units below 256: A-Z and the Latin-1
    capitals (0xC0-0xDE without the multiplication sign 0xD7) move up by
    32. *)
Definition lower_char (c : ascii) : ascii :=
  let n := nat_of_ascii c in
  if ((65 <=? n) && (n <=? 90))
     || ((192 <=? n) && (n <=? 222) && negb (n =? 215))
  then ascii_of_nat (n + 32) else c.

Fixpoint toLowerCase (s : string) : string :=
  match s with
  | EmptyString => EmptyString
  | String c r => String (lower_char c) (toLowerCase r)
  end.

(** [s.split("/").pop()]: the part of [s] after its last ['/'] (all of
    [s] when it has none).  [split] never returns an empty array, so
    [pop] always yields a string. *)
Fixpoint last_segment_from (acc s : string) : string :=
  match s with
  | EmptyString => acc
  | String c r =>
      if Ascii.eqb c "/"%char then last_segment_from EmptyString r
      else last_segment_from (acc +:+ String c EmptyString) r
  end.

Definition last_segment (s : string) : string :=
  last_segment_from EmptyString s.

(** [`${n}`] for a non-negative integer. *)
Definition show_nat (n : nat) : string :=
  NilEmpty.string_of_uint (Nat.to_uint n).

(** Is [needle] a substring of [s]? *)
Fixpoint includes (needle s : string) : bool :=
  String.prefix needle s ||
  match s with
  | EmptyString => false
  | String _ r => includes needle r
  end.

End Js.

(* ===================================================================== *)
(** ** src/types.ts                                                      *)
(* ===================================================================== *)

Definition Buffer := list Byte.byte.

Record Config := {
  shopwareApiUrl : string;
  shopwareClientId : string;
  shopwareClientSecret : string;
  openaiApiKey : string;
  salesChannelId : string
}.

Record Translated := {
  t_name : string;
  t_description : option string
}.

(** [cover] (the media object) is carried by the server but never read by
    the program; [translated] is declared always present, and [main] reads
    it with [?.], so an absent object is covered as [None]. *)
Record ShopwareProduct := {
  id : string;
  name : string;
  description : option string;
  productNumber : string;
  coverId : option string;
  translated : option Translated
}.

Record ShopwareSearchResponse := {
  total : Z;
  data : list ShopwareProduct
}.

Inductive Status := uploaded | skipped | failed.

Record ProcessingResult := {
  productId : string;
  productName : string;
  status : Status;
  error : option string
}.

(* ===================================================================== *)
(** ** src/openai.ts: the prompt                                         *)
(* ===================================================================== *)

Definition nl : string := String (ascii_of_nat 10) EmptyString.

(** [d.replace(/<[^>]*>/g, " ").replace(/\s+/g, " ").trim()] *)
Definition clean_markup (s : string) : string :=
  Js.trim (Js.collapse_ws (Js.replace_tags s)).

Definition buildPrompt (template productName : string)
    (productDescription : option string) : string :=
  let prompt := template +:+ nl +:+ nl +:+ "Product name: " +:+ productName in
  if Js.truthy productDescription then
    match productDescription with
    | Some d => prompt +:+ nl +:+ "Product description: " +:+ clean_markup d
    | None => prompt
    end
  else prompt.

(* ===================================================================== *)
(** ** The outside world                                                 *)
(* ===================================================================== *)

(** A thrown value.  The sources throw [new Error(message)]; a rejected
    promise of a library may carry any value, for which the catch clause
    of [main] takes [String(err)]. *)
Inductive exn :=
| JsError (message : string)
| JsValue (shown : string).

(** [err instanceof Error ? err.message : String(err)] *)
Definition message_of (e : exn) : string :=
  match e with
  | JsError m => m
  | JsValue s => s
  end.

(** The HTTP requests the catalog client issues, by endpoint:
    - [PostOauthToken]    POST  /api/oauth/token
    - [PostSearchProduct] POST  /api/search/product   (body: limit, page,
      the sales-channel filter; [withMedia] tells whether the [media]
      association is requested next to [cover])
    - [PostMedia]         POST  /api/media            (body: the new id)
    - [PostMediaUpload]   POST  /api/_action/media/<mediaId>/upload
      ?extension=png&fileName=<fileName>   (body: the raw bytes)
    - [PostProductMedia]  POST  /api/product-media
    - [PatchProduct]      PATCH /api/product/<productId>  (body: coverId)
    [authorization] is the value of the Authorization header. *)
Inductive Request :=
| PostOauthToken (client_id client_secret : string)
| PostSearchProduct (authorization : string) (limit page : nat)
    (channel : string) (withMedia : bool)
| PostMedia (authorization mediaId : string)
| PostMediaUpload (authorization mediaId fileName : string) (body : Buffer)
| PostProductMedia (authorization productId mediaId : string)
| PatchProduct (authorization productId cover : string).

(** What the program reads of a response.  [res.json()] is rejected when
    the body is not JSON: [json_rejects] is then the value it is rejected
    with.  The parsed body is cast by the sources to the type declared in
    [types.ts] without a check; the model takes a body that parses to have
    that type ([json_token] for the token endpoint, [json_search] for the
    search endpoint). *)
Record Response := {
  ok : bool;
  http_status : nat;
  text : string;
  location : option string;
  json_rejects : option exn;
  json_token : string;
  json_search : ShopwareSearchResponse
}.

Inductive FetchOutcome :=
| Rejected (e : exn)
| Resolved (r : Response).

(** [client.images.generate]: rejected, or resolved with
    [response.data?.[0]?.b64_json]. *)
Inductive ImagesOutcome :=
| ImagesRejected (e : exn)
| ImagesResolved (b64_json : option string).

(** The environment: the [k]-th HTTP request, image request, operator
    answer and random uuid of a run, and the library functions whose
    result the program only passes on. *)
Record Env := {
  http : nat -> Request -> FetchOutcome;
  images_generate : nat -> string -> ImagesOutcome;
  operator : nat -> string;
  randomUUID : nat -> string;
  base64_decode : string -> Buffer;
  encodeURIComponent : string -> string;
  path_join : string -> string -> string;
  tempDir : string;
  TEMPLATE_PATH : string;
  template_file : option string
}.

(** The state of a run: the client's token, the result log of [main], the
    files of the preview directory, and the log of every interaction. *)
Record St := {
  accessToken : option string;
  results : list ProcessingResult;
  files : gmap string Buffer;
  requests : list Request;
  prompts : list string;
  questions : list string;
  uuids : nat
}.

Definition set_accessToken (t : option string) (st : St) : St :=
  {| accessToken := t; results := results st; files := files st;
     requests := requests st; prompts := prompts st;
     questions := questions st; uuids := uuids st |}.

Definition push_result (r : ProcessingResult) (st : St) : St :=
  {| accessToken := accessToken st; results := results st ++ [r];
     files := files st; requests := requests st; prompts := prompts st;
     questions := questions st; uuids := uuids st |}.

Definition write_file (path : string) (b : Buffer) (st : St) : St :=
  {| accessToken := accessToken st; results := results st;
     files := <[path := b]> (files st); requests := requests st;
     prompts := prompts st; questions := questions st; uuids := uuids st |}.

Definition log_request (r : Request) (st : St) : St :=
  {| accessToken := accessToken st; results := results st; files := files st;
     requests := requests st ++ [r]; prompts := prompts st;
     questions := questions st; uuids := uuids st |}.

Definition log_prompt (p : string) (st : St) : St :=
  {| accessToken := accessToken st; results := results st; files := files st;
     requests := requests st; prompts := prompts st ++ [p];
     questions := questions st; uuids := uuids st |}.

Definition log_question (q : string) (st : St) : St :=
  {| accessToken := accessToken st; results := results st; files := files st;
     requests := requests st; prompts := prompts st;
     questions := questions st ++ [q]; uuids := uuids st |}.

Definition next_uuid (st : St) : St :=
  {| accessToken := accessToken st; results := results st; files := files st;
     requests := requests st; prompts := prompts st;
     questions := questions st; uuids := S (uuids st) |}.

(** *** The monad of the program: state, exceptions, and fuel for the
    two [while (true)] loops. *)

Inductive Outcome (A : Type) :=
| Val (a : A)
| Thrown (e : exn)
| OutOfFuel.
Arguments Val {A} a.
Arguments Thrown {A} e.
Arguments OutOfFuel {A}.

Definition M (A : Type) : Type := St -> Outcome A * St.

Definition ret {A} (a : A) : M A := fun st => (Val a, st).

Definition throw {A} (e : exn) : M A := fun st => (Thrown e, st).

Definition out_of_fuel {A} : M A := fun st => (OutOfFuel, st).

Definition bind {A B} (m : M A) (k : A -> M B) : M B :=
  fun st =>
    match m st with
    | (Val a, st') => k a st'
    | (Thrown e, st') => (Thrown e, st')
    | (OutOfFuel, st') => (OutOfFuel, st')
    end.

(** [try { m } catch (err) { h err }] *)
Definition try_catch {A} (m : M A) (h : exn -> M A) : M A :=
  fun st =>
    match m st with
    | (Thrown e, st') => h e st'
    | r => r
    end.

Definition modify (f : St -> St) : M unit := fun st => (Val tt, f st).

Declare Scope prog_scope.
Delimit Scope prog_scope with prog.
Notation "x <- c ;; k" := (bind c (fun x => k))
  (at level 100, c at next level, right associativity) : prog_scope.
Notation "c ;;; k" := (bind c (fun _ => k))
  (at level 100, right associativity) : prog_scope.
Local Open Scope prog_scope.

Section Program.

Variable env : Env.

(** [await fetch(...)]: the request is logged and answered by the
    environment; a rejected promise is a thrown value. *)
Definition fetch (req : Request) : M Response :=
  fun st =>
    match http env (length (requests st)) req with
    | Rejected e => (Thrown e, log_request req st)
    | Resolved r => (Val r, log_request req st)
    end.

(** [(await res.json()) as T], read through the field [body] of the
    model. *)
Definition json {A} (body : Response -> A) (res : Response) : M A :=
  match json_rejects res with
  | Some e => throw e
  | None => ret (body res)
  end.

(** The message [`${what} (${res.status}): ${body}`] of a failed request. *)
Definition http_failure (what : string) (res : Response) : exn :=
  JsError (what +:+ " (" +:+ Js.show_nat (http_status res) +:+ "): " +:+ text res).

(* ===================================================================== *)
(** ** src/shopware.ts                                                   *)
(* ===================================================================== *)

Fixpoint remove_dashes (s : string) : string :=
  match s with
  | EmptyString => EmptyString
  | String c r =>
      if Ascii.eqb c "-"%char then remove_dashes r
      else String c (remove_dashes r)
  end.

(** [crypto.randomUUID().replace(/-/g, "")] *)
Definition uuid : M string :=
  fun st => (Val (remove_dashes (randomUUID env (uuids st))), next_uuid st).

Definition authenticate (config : Config) : M unit :=
  res <- fetch (PostOauthToken (shopwareClientId config)
                               (shopwareClientSecret config)) ;;
  if negb (ok res) then throw (http_failure "Shopware auth failed" res)
  else
    access_token <- json json_token res ;;
    modify (set_accessToken (Some access_token)).

(** [`Bearer ${this.accessToken}`]; a [null] token prints as [null]. *)
Definition bearer (t : option string) : string :=
  "Bearer " +:+ match t with Some s => s | None => "null" end.

(** [getHeaders()]; the result is the Authorization header, the other two
    headers are constants. *)
Definition getHeaders : M string :=
  fun st =>
    if negb (Js.truthy (accessToken st))
    then (Thrown (JsError "Not authenticated. Call authenticate() first."), st)
    else (Val (bearer (accessToken st)), st).

Definition limit : nat := 25.

(** [(p) => !p.coverId] *)
Definition lacks_cover (p : ShopwareProduct) : bool :=
  negb (Js.truthy (coverId p)).

(** The [while (true)] loop of [fetchProductsWithoutImages]; one unit of
    [fuel] per iteration. *)
Fixpoint fetchProductsWithoutImages_loop (fuel : nat) (channel : string)
    (page : nat) (allProducts : list ShopwareProduct)
    : M (list ShopwareProduct) :=
  match fuel with
  | O => out_of_fuel
  | S fuel' =>
      headers <- getHeaders ;;
      res <- fetch (PostSearchProduct headers limit page channel true) ;;
      if negb (ok res) then throw (http_failure "Failed to fetch products" res)
      else
        data_ <- json json_search res ;;
        let allProducts := allProducts ++ data data_ in
        if (Z.of_nat (length allProducts) >=? total data_)%Z
           || (length (data data_) <? limit)
        then ret allProducts
        else fetchProductsWithoutImages_loop fuel' channel (page + 1) allProducts
  end.

Definition fetchProductsWithoutImages (fuel : nat) (channel : string)
    : M (list ShopwareProduct) :=
  allProducts <- fetchProductsWithoutImages_loop fuel channel 1 [] ;;
  ret (List.filter lacks_cover allProducts).

(** The [while (true)] loop of [fetchAllProducts]. *)
Fixpoint fetchAllProducts_loop (fuel : nat) (channel : string)
    (page : nat) (allProducts : list ShopwareProduct)
    : M (list ShopwareProduct) :=
  match fuel with
  | O => out_of_fuel
  | S fuel' =>
      headers <- getHeaders ;;
      res <- fetch (PostSearchProduct headers limit page channel false) ;;
      if negb (ok res) then throw (http_failure "Failed to fetch products" res)
      else
        data_ <- json json_search res ;;
        let allProducts := allProducts ++ data data_ in
        if (Z.of_nat (length allProducts) >=? total data_)%Z
           || (length (data data_) <? limit)
        then ret allProducts
        else fetchAllProducts_loop fuel' channel (page + 1) allProducts
  end.

(** The result [{ total, withoutImages }] as a pair. *)
Definition fetchAllProducts (fuel : nat) (channel : string)
    : M (nat * list ShopwareProduct) :=
  allProducts <- fetchAllProducts_loop fuel channel 1 [] ;;
  let withoutImages := List.filter lacks_cover allProducts in
  ret (length allProducts, withoutImages).

Definition uploadMedia (imageBuffer : Buffer) (fileName : string) : M string :=
  (* Step 1: create the media entity with an explicit id *)
  mediaId <- uuid ;;
  headers <- getHeaders ;;
  createRes <- fetch (PostMedia headers mediaId) ;;
  if negb (ok createRes)
  then throw (http_failure "Failed to create media entity" createRes)
  else
    (* Step 2: upload the image file *)
    token <- (fun st => (Val (accessToken st), st)) ;;
    uploadRes <- fetch (PostMediaUpload (bearer token) mediaId
                          (encodeURIComponent env fileName) imageBuffer) ;;
    if negb (ok uploadRes)
    then throw (http_failure "Failed to upload media file" uploadRes)
    else ret mediaId.

Definition assignMediaToProduct (productId mediaId : string) : M unit :=
  (* Step 1: create the product-media association *)
  headers <- getHeaders ;;
  assocRes <- fetch (PostProductMedia headers productId mediaId) ;;
  if negb (ok assocRes)
  then throw (http_failure "Failed to create product-media association" assocRes)
  else
    let productMediaId := option_map Js.last_segment (location assocRes) in
    match productMediaId with
    | Some (String c r) =>
        (* Step 2: set as cover image *)
        headers <- getHeaders ;;
        coverRes <- fetch (PatchProduct headers productId (String c r)) ;;
        if negb (ok coverRes)
        then throw (http_failure "Failed to set cover image" coverRes)
        else ret tt
    | _ => throw (JsError "Failed to get product-media ID from response")
    end.

(* ===================================================================== *)
(** ** src/openai.ts: the generator                                      *)
(* ===================================================================== *)

Record ImageGenerator := { template : string }.

(** The constructor: the template file is read once and trimmed. *)
Definition new_ImageGenerator : M ImageGenerator :=
  match template_file env with
  | None => throw (JsError ("Prompt template not found at " +:+ TEMPLATE_PATH env))
  | Some t => ret {| template := Js.trim t |}
  end.

Definition generate (g : ImageGenerator) (productName : string)
    (productDescription : option string) : M Buffer :=
  let prompt := buildPrompt (template g) productName productDescription in
  b64 <- (fun st =>
            match images_generate env (length (prompts st)) prompt with
            | ImagesRejected e => (Thrown e, log_prompt prompt st)
            | ImagesResolved b => (Val b, log_prompt prompt st)
            end) ;;
  match b64 with
  | Some (String c r) => ret (base64_decode env (String c r))
  | _ => throw (JsError "No image data returned from OpenAI")
  end.

(* ===================================================================== *)
(** ** src/index.ts                                                      *)
(* ===================================================================== *)

(** [ask]: the operator's line, trimmed and lower-cased.  The operator
    answers every question: a run whose input ends while a question is
    pending (the promise of [ask] is then never resolved) is not a run of
    this model. *)
Definition ask (question : string) : M string :=
  fun st =>
    (Val (Js.toLowerCase (Js.trim (operator env (length (questions st))))),
     log_question question st).

(** The preview directory.  Reading a missing file throws, as in Node;
    writes to the directory succeed. *)
Definition existsSync (path : string) : M bool :=
  fun st =>
    (Val match files st !! path with Some _ => true | None => false end, st).

Definition readFileSync (path : string) : M Buffer :=
  fun st =>
    match files st !! path with
    | Some b => (Val b, st)
    | None =>
        (Thrown (JsError ("ENOENT: no such file or directory, open '"
                          +:+ path +:+ "'")), st)
    end.

Definition writeFileSync (path : string) (b : Buffer) : M unit :=
  modify (write_file path b).

(** [product.translated?.name || product.name] *)
Definition product_name (p : ShopwareProduct) : string :=
  match translated p with
  | Some t => if Js.truthy (Some (t_name t)) then t_name t else name p
  | None => name p
  end.

(** [product.translated?.description || product.description] *)
Definition product_description (p : ShopwareProduct) : option string :=
  Js.or_else (match translated p with
              | Some t => t_description t
              | None => None
              end)
             (description p).

Definition mk_result (p : ShopwareProduct) (name : string) (s : Status)
    (err : option string) : ProcessingResult :=
  {| productId := id p; productName := name; status := s; error := err |}.

(** How one pass through the body of the [for] loop ends: [Continue] for
    the [continue] statement and for the end of the body, [Break] for
    [break]. *)
Inductive LoopCtl := Continue | Break.

(** [results.push({..., status: "skipped"}); continue;] *)
Definition push_skipped (p : ShopwareProduct) (name : string) : M LoopCtl :=
  modify (push_result (mk_result p name skipped None)) ;;;
  ret Continue.

(** Lines 185-191: the upload, after the mode-specific part. *)
Definition upload_step (p : ShopwareProduct) (name : string)
    (imageBuffer : Buffer) : M LoopCtl :=
  mediaId <- uploadMedia imageBuffer ("ai-product-" +:+ id p) ;;
  assignMediaToProduct (id p) mediaId ;;;
  modify (push_result (mk_result p name uploaded None)) ;;;
  ret Continue.

Definition q_image_exists : string :=
  nl +:+ "  Image exists. Upload to Shopware? (y/n/r=regenerate/q=quit): ".
Definition q_generate : string := nl +:+ "  Generate image? (y/n/q=quit): ".
Definition q_upload_regen : string :=
  "  Upload this image to Shopware? (y/n/r=regenerate): ".
Definition q_upload : string := "  Upload this image to Shopware? (y/n): ".

(** The [try] block of the loop body (lines 102-191). *)
Definition try_block (batch : bool) (imageGen : ImageGenerator)
    (p : ShopwareProduct) (name : string) (description : option string)
    (previewPath : string) (hasExistingImage : bool) : M LoopCtl :=
  if batch then
    (* Batch mode: use the existing image or generate, then upload *)
    imageBuffer <-
      (if hasExistingImage then readFileSync previewPath
       else
         b <- generate imageGen name description ;;
         writeFileSync previewPath b ;;;
         ret b) ;;
    upload_step p name imageBuffer
  else
    (* Interactive mode *)
    if hasExistingImage then
      uploadAnswer <- ask q_image_exists ;;
      if String.eqb uploadAnswer "q" then ret Break
      else if String.eqb uploadAnswer "r" then
        imageBuffer <- generate imageGen name description ;;
        writeFileSync previewPath imageBuffer ;;;
        confirm <- ask q_upload ;;
        if negb (String.eqb confirm "y") then push_skipped p name
        else upload_step p name imageBuffer
      else if String.eqb uploadAnswer "y" then
        imageBuffer <- readFileSync previewPath ;;
        upload_step p name imageBuffer
      else push_skipped p name
    else
      generateAnswer <- ask q_generate ;;
      if String.eqb generateAnswer "q" then ret Break
      else if negb (String.eqb generateAnswer "y") then push_skipped p name
      else
        imageBuffer <- generate imageGen name description ;;
        writeFileSync previewPath imageBuffer ;;;
        uploadAnswer <- ask q_upload_regen ;;
        if String.eqb uploadAnswer "r" then
          imageBuffer <- generate imageGen name description ;;
          writeFileSync previewPath imageBuffer ;;;
          confirm <- ask q_upload ;;
          if negb (String.eqb confirm "y") then push_skipped p name
          else upload_step p name imageBuffer
        else if negb (String.eqb uploadAnswer "y") then push_skipped p name
        else upload_step p name imageBuffer.

(** The [catch] clause (lines 192-196). *)
Definition catch_clause (p : ShopwareProduct) (name : string) (err : exn)
    : M LoopCtl :=
  let message := message_of err in
  modify (push_result (mk_result p name failed (Some message))) ;;;
  ret Continue.

(** One pass through the body of the [for] loop (lines 89-196). *)
Definition loop_body (batch : bool) (imageGen : ImageGenerator)
    (p : ShopwareProduct) : M LoopCtl :=
  let name := product_name p in
  let description := product_description p in
  let previewPath := path_join env (tempDir env) (id p +:+ ".png") in
  hasExistingImage <- existsSync previewPath ;;
  try_catch
    (try_block batch imageGen p name description previewPath hasExistingImage)
    (catch_clause p name).

(** The [for] loop over [withoutImages] (lines 88-197). *)
Fixpoint for_products (batch : bool) (imageGen : ImageGenerator)
    (products : list ShopwareProduct) : M unit :=
  match products with
  | [] => ret tt
  | p :: rest =>
      c <- loop_body batch imageGen p ;;
      match c with
      | Break => ret tt
      | Continue => for_products batch imageGen rest
      end
  end.

Definition has_status (s : Status) (r : ProcessingResult) : bool :=
  match s, status r with
  | uploaded, uploaded | skipped, skipped | failed, failed => true
  | _, _ => false
  end.

(** What [main] reports. *)
Inductive Report :=
| NothingToDo
| DryRunListing (withoutImages : list ShopwareProduct)
| Summary (n_uploaded n_skipped n_failed : nat)
          (failures : list ProcessingResult).

Definition clear_results (st : St) : St :=
  {| accessToken := accessToken st; results := []; files := files st;
     requests := requests st; prompts := prompts st;
     questions := questions st; uuids := uuids st |}.

(** [main], with the configuration already loaded. *)
Definition main (fuel : nat) (dryRun batch : bool) (config : Config) : M Report :=
  authenticate config ;;;
  listing <- fetchAllProducts fuel (salesChannelId config) ;;
  let withoutImages := snd listing in
  if length withoutImages =? 0 then ret NothingToDo
  else if dryRun then ret (DryRunListing withoutImages)
  else
    imageGen <- new_ImageGenerator ;;
    modify clear_results ;;;
    for_products batch imageGen withoutImages ;;;
    rs <- (fun st => (Val (results st), st)) ;;
    ret (Summary (length (List.filter (has_status uploaded) rs))
                 (length (List.filter (has_status skipped) rs))
                 (length (List.filter (has_status failed) rs))
                 (List.filter (has_status failed) rs)).

End Program.

(* ===================================================================== *)
(** ** Predicates used in the statements                                 *)
(* ===================================================================== *)

(** Does [/<[^>]*>/] match somewhere in [s]: a ['<'] with a ['>'] after
    it. *)
Fixpoint has_tag (s : string) : bool :=
  match s with
  | EmptyString => false
  | String c r => (Js.is_lt c && Js.has_gt r) || has_tag r
  end.

Definition starts_with_space (s : string) : bool :=
  match s with
  | String c _ => Js.is_space c
  | EmptyString => false
  end.

Fixpoint ends_with_space (s : string) : bool :=
  match s with
  | EmptyString => false
  | String c EmptyString => Js.is_space c
  | String _ r => ends_with_space r
  end.

(** Every white-space character of [s] is a plain space, and no two of
    them are adjacent. *)
Fixpoint spaces_single (s : string) : bool :=
  match s with
  | EmptyString => true
  | String c r =>
      (negb (Js.is_space c)
       || (Ascii.eqb c " "%char && negb (starts_with_space r)))
      && spaces_single r
  end.

(** ** The clean-up of a description, said without the scan *)

Fixpoint has_lt (s : string) : bool :=
  match s with
  | EmptyString => false
  | String c r => Js.is_lt c || has_lt r
  end.

(** Is [s] empty, or does it start with white space? *)
Definition at_word_end (s : string) : bool :=
  match s with
  | EmptyString => true
  | String c _ => Js.is_space c
  end.

(** The words of [s]: its maximal runs of characters that are not white
    space, in order. *)
Fixpoint words (s : string) : list string :=
  match s with
  | EmptyString => []
  | String c r =>
      if Js.is_space c then words r
      else if at_word_end r then String c EmptyString :: words r
      else match words r with
           | w :: ws => String c w :: ws
           | [] => [String c EmptyString]
           end
  end.

(** The words [ws] with one space between neighbours. *)
Fixpoint unwords (ws : list string) : string :=
  match ws with
  | [] => EmptyString
  | w :: rest =>
      match rest with
      | [] => w
      | _ :: _ => w +:+ " " +:+ unwords rest
      end
  end.

Definition authenticated (st : St) : Prop := Js.truthy (accessToken st) = true.

(** Logging several requests in order. *)
Definition log_requests (rs : list Request) (st : St) : St :=
  fold_left (fun s r => log_request r s) rs st.

(** [ceil(a / b)] *)
Definition ceil_div (a b : nat) : nat := (a + (b - 1)) / b.

(** Page [page] (counted from 1) of [items], [lim] items a page. *)
Definition page_of (items : list ShopwareProduct) (lim page : nat)
    : list ShopwareProduct :=
  firstn lim (skipn ((page - 1) * lim) items).

(** The catalog holds exactly [items]: every search succeeds with a body
    that parses, reports [length items] as the total and returns the
    requested page. *)
Definition serves_catalog (env : Env) (items : list ShopwareProduct) : Prop :=
  forall k auth lim page channel wm,
  exists r,
    http env k (PostSearchProduct auth lim page channel wm) = Resolved r
    /\ ok r = true
    /\ json_rejects r = None
    /\ total (json_search r) = Z.of_nat (length items)
    /\ data (json_search r) = page_of items lim page.

(** The search requests for pages [first], [first + 1], ... ([n] of them)
    as [fetchAllProducts] sends them. *)
Definition search_requests (auth channel : string) (first n : nat)
    : list Request :=
  map (fun pg => PostSearchProduct auth limit pg channel false) (seq first n).

(** [o] with its value mapped by [f]. *)
Definition outcome_map {A B} (f : A -> B) (o : Outcome A) : Outcome B :=
  match o with
  | Val a => Val (f a)
  | Thrown e => Thrown e
  | OutOfFuel => OutOfFuel
  end.

(** The search request with the [media] association switched on. *)
Definition with_media (r : Request) : Request :=
  match r with
  | PostSearchProduct auth lim page channel _ =>
      PostSearchProduct auth lim page channel true
  | _ => r
  end.

(** Everything the server returned for the requests [reqs], the first of
    which was request number [k] of the run. *)
Fixpoint fetched_data (env : Env) (k : nat) (reqs : list Request)
    : list ShopwareProduct :=
  match reqs with
  | [] => []
  | req :: rest =>
      match http env k req with
      | Resolved r => data (json_search r)
      | Rejected _ => []
      end ++ fetched_data env (S k) rest
  end.

(** The preview file of a product. *)
Definition previewPath (env : Env) (p : ShopwareProduct) : string :=
  path_join env (tempDir env) (id p +:+ ".png").

(** The operator's [k]-th answer as [ask] returns it. *)
Definition answer (env : Env) (k : nat) : string :=
  Js.toLowerCase (Js.trim (operator env k)).

(** The requests of the upload protocol as issued from state [st]. *)
Definition media_id (env : Env) (st : St) : string :=
  remove_dashes (randomUUID env (uuids st)).

Definition create_media_request (env : Env) (st : St) : Request :=
  PostMedia (bearer (accessToken st)) (media_id env st).

Definition upload_request (env : Env) (st : St) (fileName : string)
    (imageBuffer : Buffer) : Request :=
  PostMediaUpload (bearer (accessToken st)) (media_id env st)
    (encodeURIComponent env fileName) imageBuffer.

Definition association_request (st : St) (productId mediaId : string) : Request :=
  PostProductMedia (bearer (accessToken st)) productId mediaId.

Definition cover_request (st : St) (productId cover : string) : Request :=
  PatchProduct (bearer (accessToken st)) productId cover.

(** The file name [main] uploads the image of [p] under. *)
Definition upload_name (p : ShopwareProduct) : string := "ai-product-" +:+ id p.

(** The record pushed by the catch clause for the thrown value [e]. *)
Definition failed_result (p : ShopwareProduct) (e : exn) : ProcessingResult :=
  mk_result p (product_name p) failed (Some (message_of e)).

(** Is [r] a request of step 3 of the protocol (association or cover)? *)
Definition is_step3 (r : Request) : bool :=
  match r with
  | PostProductMedia _ _ _ | PatchProduct _ _ _ => true
  | _ => false
  end.

(** Is there a preview file for [p]? ([hasExistingImage]) *)
Definition has_preview (env : Env) (st : St) (p : ShopwareProduct) : bool :=
  match files st !! previewPath env p with
  | Some _ => true
  | None => false
  end.

(** The [try] block of the loop body for [p] as [loop_body] runs it from
    [st]. *)
Definition item_try (env : Env) (batch : bool) (g : ImageGenerator)
    (p : ShopwareProduct) (st : St) : Outcome LoopCtl * St :=
  try_block env batch g p (product_name p) (product_description p)
    (previewPath env p) (has_preview env st p) st.

(** [m] leaves the result log and the token alone and is not one of the
    fuelled loops. *)
Definition quiet {A} (m : M A) : Prop :=
  forall st,
    results (snd (m st)) = results st
    /\ accessToken (snd (m st)) = accessToken st
    /\ fst (m st) <> OutOfFuel.

(** What a run of (a part of) the [try] block for [p] from [st] may end
    in: [continue] with one record for [p] pushed, status [uploaded] or
    [skipped]; [break] or a thrown value with nothing pushed. *)
Definition item_post (p : ShopwareProduct) (st : St)
    (r : Outcome LoopCtl * St) : Prop :=
  accessToken (snd r) = accessToken st
  /\ match fst r with
     | Val Continue =>
         exists s, (s = uploaded \/ s = skipped)
           /\ results (snd r)
              = results st ++ [mk_result p (product_name p) s None]
     | Val Break => results (snd r) = results st
     | Thrown _ => results (snd r) = results st
     | OutOfFuel => False
     end.

Definition item_ok (p : ShopwareProduct) (m : M LoopCtl) : Prop :=
  forall st, item_post p st (m st).

(** The first question of the interactive mode for [p]. *)
Definition first_question (env : Env) (st : St) (p : ShopwareProduct) : string :=
  if has_preview env st p then q_image_exists else q_generate.

(** The prompt sent to the image API for [p]. *)
Definition prompt_for (g : ImageGenerator) (p : ShopwareProduct) : string :=
  buildPrompt (template g) (product_name p) (product_description p).

(** The record of a successful upload for [p]. *)
Definition uploaded_result (p : ShopwareProduct) : ProcessingResult :=
  mk_result p (product_name p) uploaded None.

Definition skipped_result (p : ShopwareProduct) : ProcessingResult :=
  mk_result p (product_name p) skipped None.

(** A run in which nothing fails: every request is answered with success
    and a location whose last segment is not empty, and every image
    request returns image data. *)
Definition http_succeeds (env : Env) : Prop :=
  forall k req,
  exists r loc c s,
    http env k req = Resolved r /\ ok r = true
    /\ location r = Some loc /\ Js.last_segment loc = String c s.

Definition images_succeed (env : Env) : Prop :=
  forall k prompt,
  exists c s, images_generate env k prompt = ImagesResolved (Some (String c s)).

Definition is_create_media (r : Request) : bool :=
  match r with
  | PostMedia _ _ => true
  | _ => false
  end.

(** The server answers a search the same way with and without the
    [media] association in the request. *)
Definition media_flag_ignored (env : Env) : Prop :=
  forall k auth lim page channel,
    http env k (PostSearchProduct auth lim page channel true)
    = http env k (PostSearchProduct auth lim page channel false).

(** [m] talks to the catalog only: it asks no question, calls no image
    API, writes no file and draws no uuid. *)
Definition catalog_only {A} (m : M A) : Prop :=
  forall st,
    prompts (snd (m st)) = prompts st
    /\ files (snd (m st)) = files st
    /\ questions (snd (m st)) = questions st
    /\ uuids (snd (m st)) = uuids st.

(** [m] never ends in [break]. *)
Definition never_breaks (m : M LoopCtl) : Prop :=
  forall st, fst (m st) <> Val Break.

(* ===================================================================== *)
(** ** Sample worlds, for the concrete instances                         *)
(* ===================================================================== *)

Module Sample.

Definition response (is_ok : bool) (code : nat) (body : string)
    (loc : option string) (page : list ShopwareProduct) (tot : Z) : Response :=
  {| ok := is_ok; http_status := code; text := body; location := loc;
     json_rejects := None; json_token := "token-1";
     json_search := {| total := tot; data := page |} |}.

Definition world (h : nat -> Request -> FetchOutcome)
    (img : nat -> string -> ImagesOutcome) (ans : nat -> string) : Env :=
  {| http := h; images_generate := img; operator := ans;
     randomUUID := fun k => "0a1b-" +:+ Js.show_nat k;
     base64_decode := fun s => list_byte_of_string s;
     encodeURIComponent := fun s => s;
     path_join := fun a b => a +:+ "/" +:+ b;
     tempDir := "/work/temp";
     TEMPLATE_PATH := "/work/prompt-template.txt";
     template_file := Some "Studio photo of the product." |}.

Definition product (i : string) (cover : option string) : ShopwareProduct :=
  {| id := i; name := "Product " +:+ i; description := None;
     productNumber := "SW-" +:+ i; coverId := cover; translated := None |}.

(** A state right after [authenticate], with the given preview files. *)
Definition start (fs : gmap string Buffer) : St :=
  {| accessToken := Some "token-1"; results := []; files := fs;
     requests := []; prompts := []; questions := []; uuids := 0 |}.

Definition img_ok : nat -> string -> ImagesOutcome :=
  fun _ _ => ImagesResolved (Some "aGVsbG8=").

Definition no_answers : nat -> string := fun _ => "".

(** A catalog server holding [items]; every other endpoint succeeds and
    names a new association in its location header. *)
Definition shop (items : list ShopwareProduct) : nat -> Request -> FetchOutcome :=
  fun _ req =>
    match req with
    | PostSearchProduct _ lim page _ _ =>
        Resolved (response true 200 "" None (page_of items lim page)
                    (Z.of_nat (length items)))
    | _ => Resolved (response true 204 ""
                       (Some "https://shop.test/api/product-media/pm1") [] 0%Z)
    end.

(** As [shop], but the upload of the bytes is refused. *)
Definition shop_upload_refused : nat -> Request -> FetchOutcome :=
  fun k req =>
    match req with
    | PostMediaUpload _ _ _ _ =>
        Resolved (response false 500 "disk full" None [] 0%Z)
    | _ => shop [] k req
    end.

(** As [shop], but the association answer carries the given location. *)
Definition shop_location (loc : option string) : nat -> Request -> FetchOutcome :=
  fun k req =>
    match req with
    | PostProductMedia _ _ _ => Resolved (response true 204 "" loc [] 0%Z)
    | _ => shop [] k req
    end.

Definition generator : ImageGenerator :=
  {| template := "Studio photo of the product." |}.

Definition many (n : nat) : list ShopwareProduct :=
  map (fun i => product (Js.show_nat i) None) (seq 0 n).

(** The operator types the lines of [l], then empty lines. *)
Definition answers (l : list string) : nat -> string :=
  fun k => List.nth k l "".

(** Every request succeeds and names an association. *)
Definition ok_server : nat -> Request -> FetchOutcome :=
  fun _ _ =>
    Resolved (response true 200 ""
                (Some "https://shop.test/api/product-media/pm1") [] 0%Z).

(** One product without cover, one with, one with an empty cover id. *)
Definition mixed : list ShopwareProduct :=
  [product "a" None; product "b" (Some "c0ffee"); product "c" (Some "")].

Definition png : Buffer := [Byte.x89; Byte.x50; Byte.x4e; Byte.x47].

Definition p0 : ShopwareProduct := product "0" None.
Definition p1 : ShopwareProduct := product "1" None.
Definition p2 : ShopwareProduct := product "2" None.
Definition p3 : ShopwareProduct := product "3" None.
Definition p4 : ShopwareProduct := product "4" None.

(** The preview directory with an image for product 1 only. *)
Definition one_preview : gmap string Buffer :=
  {[ "/work/temp/1.png" := png ]}.

Definition empty_shop_world : Env := world (shop []) img_ok no_answers.
Definition big_shop_world : Env := world (shop (many 26)) img_ok no_answers.
Definition mixed_shop_world : Env := world (shop mixed) img_ok no_answers.
Definition refusing_world : Env := world shop_upload_refused img_ok no_answers.
Definition ok_world : Env := world ok_server img_ok no_answers.
Definition no_location_world : Env :=
  world (shop_location (Some "https://shop.test/api/product-media/"))
    img_ok no_answers.
Definition skip_then_quit_world : Env :=
  world ok_server img_ok (answers ["n"; " Q "]).
Definition yes_then_q_world : Env :=
  world ok_server img_ok (answers ["Y"; "q"]).
Definition no_image_world : Env :=
  world ok_server (fun _ _ => ImagesResolved None) no_answers.

Definition config : Config :=
  {| shopwareApiUrl := "https://shop.test"; shopwareClientId := "client";
     shopwareClientSecret := "secret"; openaiApiKey := "key";
     salesChannelId := "channel-1" |}.

(** The state [main] starts in. *)
Definition fresh : St :=
  {| accessToken := None; results := []; files := ∅; requests := [];
     prompts := []; questions := []; uuids := 0 |}.

End Sample.

(* ===================================================================== *)
(** * More of the sources                                                *)
(* ===================================================================== *)

(** ** src/index.ts: the helpers of the console output *)

(** [s.slice(0, e)]: a negative [e] counts from the end of [s]. *)
Definition slice_to (s : string) (e : Z) : string :=
  let len := Z.of_nat (String.length s) in
  let stop := if (e <? 0)%Z then Z.max (len + e) 0 else Z.min e len in
  String.substring 0 (Z.to_nat stop) s.

Definition stripHtml (html : option string) : string :=
  if negb (Js.truthy html) then "(no description)"
  else match html with
       | Some h => clean_markup h
       | None => "(no description)"
       end.

Definition truncate (text : string) (maxLen : Z) : string :=
  if (Z.of_nat (String.length text) <=? maxLen)%Z then text
  else slice_to text (maxLen - 3) +:+ "...".

(** The description line of the console output for [p], [width] being 150
    in the dry run and 200 in the loop. *)
Definition description_line (p : ShopwareProduct) (width : Z) : string :=
  truncate (stripHtml (product_description p)) width.

(** ** config.ts *)

Definition required : list string :=
  ["SHOPWARE_API_URL"; "SHOPWARE_CLIENT_ID"; "SHOPWARE_CLIENT_SECRET";
   "OPENAI_API_KEY"; "SALES_CHANNEL_ID"].

Fixpoint all_slashes (s : string) : bool :=
  match s with
  | EmptyString => true
  | String c r => Ascii.eqb c "/"%char && all_slashes r
  end.

(** [s.replace(/\/+$/, "")]: the match is the run of slashes that ends
    the string, if there is one. *)
Fixpoint strip_trailing_slashes (s : string) : string :=
  match s with
  | EmptyString => EmptyString
  | String c r =>
      if Ascii.eqb c "/"%char && all_slashes r then EmptyString
      else String c (strip_trailing_slashes r)
  end.

(** [process.env[key]!]: read after the check that the key is set. *)
Definition env_value (process_env : gmap string string) (key : string) : string :=
  match process_env !! key with
  | Some v => v
  | None => ""
  end.

(** [loadConfig] either ends the process with exit code 1, after printing
    the missing keys, or returns the configuration. *)
Inductive Loaded :=
| Exit1 (missing : list string)
| Config_of (config : Config).

Definition loadConfig (process_env : gmap string string) : Loaded :=
  let missing :=
    List.filter (fun key => negb (Js.truthy (process_env !! key))) required in
  if 0 <? length missing then Exit1 missing
  else
    Config_of
      {| shopwareApiUrl :=
           strip_trailing_slashes (env_value process_env "SHOPWARE_API_URL");
         shopwareClientId := env_value process_env "SHOPWARE_CLIENT_ID";
         shopwareClientSecret := env_value process_env "SHOPWARE_CLIENT_SECRET";
         openaiApiKey := env_value process_env "OPENAI_API_KEY";
         salesChannelId := env_value process_env "SALES_CHANNEL_ID" |}.

(** ** Predicates used in the statements *)

Fixpoint has_dash (s : string) : bool :=
  match s with
  | EmptyString => false
  | String c r => Ascii.eqb c "-"%char || has_dash r
  end.

Fixpoint ends_with_slash (s : string) : bool :=
  match s with
  | EmptyString => false
  | String c EmptyString => Ascii.eqb c "/"%char
  | String _ r => ends_with_slash r
  end.

(** Is [c] one of A-Z? *)
Definition is_upper (c : ascii) : bool :=
  (65 <=? nat_of_ascii c) && (nat_of_ascii c <=? 90).

Fixpoint has_upper (s : string) : bool :=
  match s with
  | EmptyString => false
  | String c r => is_upper c || has_upper r
  end.

(** Was request [req], number [k] of the run, answered with success? *)
Definition answered_ok (env : Env) (k : nat) (req : Request) : bool :=
  match http env k req with
  | Resolved r => ok r
  | Rejected _ => false
  end.

Fixpoint all_answered_ok (env : Env) (k : nat) (reqs : list Request) : bool :=
  match reqs with
  | [] => true
  | req :: rest => answered_ok env k req && all_answered_ok env (S k) rest
  end.

(** The Authorization header of a request; the token request has none. *)
Definition authorization_of (r : Request) : option string :=
  match r with
  | PostOauthToken _ _ => None
  | PostSearchProduct a _ _ _ _ => Some a
  | PostMedia a _ => Some a
  | PostMediaUpload a _ _ _ => Some a
  | PostProductMedia a _ _ => Some a
  | PatchProduct a _ _ => Some a
  end.

(** [m] keeps the token, and every request it sends carries the token it
    started with. *)
Definition bearer_only {A} (m : M A) : Prop :=
  forall st,
    accessToken (snd (m st)) = accessToken st
    /\ exists new,
         requests (snd (m st)) = requests st ++ new
         /\ Forall (fun r => authorization_of r
                             = Some (bearer (accessToken st))) new.

(** [m] keeps every preview file as it is, and may add files. *)
Definition keeps_files {A} (m : M A) : Prop :=
  forall st path b,
    files st !! path = Some b -> files (snd (m st)) !! path = Some b.

(** The error of [getHeaders]. *)
Definition not_authenticated : exn :=
  JsError "Not authenticated. Call authenticate() first.".

(** The token request of [authenticate]. *)
Definition token_request (config : Config) : Request :=
  PostOauthToken (shopwareClientId config) (shopwareClientSecret config).

(** The summary [main] reports for the result log [rs]. *)
Definition summary_of (rs : list ProcessingResult) : Report :=
  Summary (length (List.filter (has_status uploaded) rs))
          (length (List.filter (has_status skipped) rs))
          (length (List.filter (has_status failed) rs))
          (List.filter (has_status failed) rs).

(** Does the request change the catalog? *)
Definition is_write_request (r : Request) : bool :=
  match r with
  | PostMedia _ _ | PostMediaUpload _ _ _ _
  | PostProductMedia _ _ _ | PatchProduct _ _ _ => true
  | _ => false
  end.

(** Nothing but catalog requests and the token happened between [st] and
    [st']: no record, no file, no image request, no question, no uuid. *)
Definition read_only_run (st st' : St) : Prop :=
  results st' = results st
  /\ files st' = files st
  /\ prompts st' = prompts st
  /\ questions st' = questions st
  /\ uuids st' = uuids st
  /\ exists new,
       requests st' = requests st ++ new
       /\ forallb (fun r => negb (is_write_request r)) new = true.

(** The error of the constructor of the generator. *)
Definition template_not_found (env : Env) : exn :=
  JsError ("Prompt template not found at " +:+ TEMPLATE_PATH env).

Definition no_image_data : exn := JsError "No image data returned from OpenAI".

(** [r] is one of the three records the loop can push for [p]. *)
Definition record_of (p : ShopwareProduct) (r : ProcessingResult) : Prop :=
  r = uploaded_result p \/ r = skipped_result p
  \/ exists e, r = failed_result p e.

(** Every run of [m] relates the state it starts from to the state it
    ends in by [R]. *)
Definition preserves (R : St -> St -> Prop) {A} (m : M A) : Prop :=
  forall st, R st (snd (m st)).

(** A request of the upload protocol carrying the token of [st]. *)
Definition protocol_request (st : St) (req : Request) : Prop :=
  authorization_of req = Some (bearer (accessToken st))
  /\ is_write_request req = true.

(** From [st] to [st'] the token stayed, and the requests sent are
    requests of the upload protocol carrying it. *)
Definition token_requests (st st' : St) : Prop :=
  accessToken st' = accessToken st
  /\ exists new,
       requests st' = requests st ++ new
       /\ Forall (protocol_request st) new.

(** [path] is the preview file of a product of [ps]. *)
Definition preview_of (env : Env) (ps : list ShopwareProduct)
    (path : string) : Prop :=
  exists p, In p ps /\ path = previewPath env p.

(** From [st] to [st'] no file went away, and only preview files of
    products of [ps] were written. *)
Definition previews_written (env : Env) (ps : list ShopwareProduct)
    (st st' : St) : Prop :=
  (forall path, ~ preview_of env ps path ->
                files st' !! path = files st !! path)
  /\ (forall path, is_Some (files st !! path) ->
                   is_Some (files st' !! path)).

(** From [st] to [st'] the image API was asked only for images of
    products of [ps], with the prompt built from the template. *)
Definition prompts_sent (g : ImageGenerator) (ps : list ShopwareProduct)
    (st st' : St) : Prop :=
  exists new,
    prompts st' = prompts st ++ new
    /\ Forall (fun s => exists p, In p ps /\ s = prompt_for g p) new.

(** ** More sample worlds *)

Module Scenario.

(** The catalog search is down; every other endpoint succeeds. *)
Definition search_down : nat -> Request -> FetchOutcome :=
  fun k req =>
    match req with
    | PostSearchProduct _ _ _ _ _ =>
        Resolved (Sample.response false 503 "maintenance" None [] 0%Z)
    | _ => Sample.ok_server k req
    end.

(** The creation of a media record is refused. *)
Definition create_refused : nat -> Request -> FetchOutcome :=
  fun k req =>
    match req with
    | PostMedia _ _ =>
        Resolved (Sample.response false 400 "bad id" None [] 0%Z)
    | _ => Sample.ok_server k req
    end.

(** The cover patch is refused. *)
Definition cover_refused : nat -> Request -> FetchOutcome :=
  fun k req =>
    match req with
    | PatchProduct _ _ _ =>
        Resolved (Sample.response false 403 "forbidden" None [] 0%Z)
    | _ => Sample.ok_server k req
    end.

(** Every answer is a success, but the body of the answers of the token
    and search endpoints is empty: [res.json()] is rejected. *)
Definition empty_body : Response :=
  {| ok := true; http_status := 200; text := ""; location := None;
     json_rejects := Some (JsError "Unexpected end of JSON input");
     json_token := ""; json_search := {| total := 0%Z; data := [] |} |}.

Definition empty_bodies : nat -> Request -> FetchOutcome :=
  fun k req =>
    match req with
    | PostOauthToken _ _ | PostSearchProduct _ _ _ _ _ => Resolved empty_body
    | _ => Sample.ok_server k req
    end.

Definition empty_bodies_world : Env :=
  Sample.world empty_bodies Sample.img_ok Sample.no_answers.
Definition search_down_world : Env :=
  Sample.world search_down Sample.img_ok Sample.no_answers.
Definition create_refused_world : Env :=
  Sample.world create_refused Sample.img_ok Sample.no_answers.
Definition cover_refused_world : Env :=
  Sample.world cover_refused Sample.img_ok Sample.no_answers.
Definition regenerate_world : Env :=
  Sample.world Sample.ok_server Sample.img_ok (Sample.answers ["r"; "n"]).
Definition yes_world : Env :=
  Sample.world Sample.ok_server Sample.img_ok (Sample.answers [" Y"]).

(** The environment variables of a complete configuration. *)
Definition variables : gmap string string :=
  list_to_map
    [("SHOPWARE_API_URL", "https://shop.test//");
     ("SHOPWARE_CLIENT_ID", "client");
     ("SHOPWARE_CLIENT_SECRET", "secret");
     ("OPENAI_API_KEY", "key");
     ("SALES_CHANNEL_ID", "channel-1")].

End Scenario.

(* ===================================================================== *)
(** * Facts                                                              *)
(* ===================================================================== *)

(** ** The string primitives *)

Module JsFacts.
Import Js.

Lemma space_not_gt c : is_space c = true -> is_gt c = false.
Proof.
  intros Hs. destruct (is_gt c) eqn:E; [|reflexivity].
  apply Ascii.eqb_eq in E. subst c. discriminate Hs.
Qed.

Lemma has_gt_replace_tags b s :
  has_gt s = false -> has_gt (replace_tags_from b s) = false.
Proof.
  revert b. induction s as [|c r IH]; intros b H; simpl in *.
  - reflexivity.
  - apply orb_false_iff in H as [Hc Hr].
    destruct b.
    + rewrite Hc. apply IH, Hr.
    + rewrite Hr, andb_false_r. simpl. rewrite Hc. apply IH, Hr.
Qed.

Lemma has_tag_replace_tags b s : has_tag (replace_tags_from b s) = false.
Proof.
  revert b. induction s as [|c r IH]; intros b; simpl.
  - reflexivity.
  - destruct b.
    + destruct (is_gt c); simpl; apply IH.
    + destruct (is_lt c && has_gt r) eqn:E.
      * apply IH.
      * simpl. rewrite IH, orb_false_r.
        apply andb_false_iff in E as [E|E].
        -- rewrite E. reflexivity.
        -- rewrite (has_gt_replace_tags false r E). apply andb_false_r.
Qed.

Lemma has_gt_collapse_ws b s : has_gt (collapse_ws_from b s) = has_gt s.
Proof.
  revert b. induction s as [|c r IH]; intros b; simpl.
  - reflexivity.
  - destruct (is_space c) eqn:Hs.
    + rewrite (space_not_gt c Hs). destruct b; simpl; apply IH.
    + simpl. rewrite IH. reflexivity.
Qed.

Lemma has_tag_collapse_ws b s :
  has_tag s = false -> has_tag (collapse_ws_from b s) = false.
Proof.
  revert b. induction s as [|c r IH]; intros b H; simpl in *.
  - reflexivity.
  - apply orb_false_iff in H as [Hc Hr].
    destruct (is_space c) eqn:Hs.
    + destruct b; simpl; apply IH, Hr.
    + simpl. rewrite has_gt_collapse_ws, Hc. apply IH, Hr.
Qed.

Lemma has_tag_trim_start s : has_tag s = false -> has_tag (trim_start s) = false.
Proof.
  induction s as [|c r IH]; intros H; simpl in *.
  - reflexivity.
  - destruct (is_space c).
    + apply IH. apply orb_false_iff in H. apply H.
    + exact H.
Qed.

Lemma has_gt_trim_end s : has_gt (trim_end s) = has_gt s.
Proof.
  induction s as [|c r IH]; simpl.
  - reflexivity.
  - destruct (trim_end r) eqn:E.
    + simpl in IH. rewrite <- IH.
      destruct (is_space c) eqn:Hs; simpl.
      * rewrite (space_not_gt c Hs). reflexivity.
      * reflexivity.
    + rewrite <- IH. reflexivity.
Qed.

Lemma has_tag_trim_end s : has_tag s = false -> has_tag (trim_end s) = false.
Proof.
  induction s as [|c r IH]; intros H; simpl in *.
  - reflexivity.
  - apply orb_false_iff in H as [Hc Hr].
    specialize (IH Hr).
    pose proof (has_gt_trim_end r) as G.
    destruct (trim_end r) eqn:E.
    + destruct (is_space c); simpl; [reflexivity|].
      rewrite andb_false_r. reflexivity.
    + change (has_tag (String c (String a s))) with
        ((is_lt c && has_gt (String a s)) || has_tag (String a s)).
      rewrite G, Hc, IH. reflexivity.
Qed.

(** After the clean-up no tag is left. *)
Lemma clean_markup_no_tag d : has_tag (clean_markup d) = false.
Proof.
  unfold clean_markup, trim, collapse_ws, replace_tags.
  apply has_tag_trim_end, has_tag_trim_start, has_tag_collapse_ws,
    has_tag_replace_tags.
Qed.

Lemma collapse_ws_in_run_start s :
  starts_with_space (collapse_ws_from true s) = false.
Proof.
  induction s as [|c r IH]; simpl; [reflexivity|].
  destruct (is_space c) eqn:Hs; [exact IH|]. simpl. exact Hs.
Qed.

Lemma spaces_single_collapse_ws b s :
  spaces_single (collapse_ws_from b s) = true.
Proof.
  revert b. induction s as [|c r IH]; intros b; simpl; [reflexivity|].
  destruct (is_space c) eqn:Hs.
  - destruct b; [apply IH|]. simpl.
    rewrite collapse_ws_in_run_start, IH. reflexivity.
  - simpl. rewrite Hs, IH. reflexivity.
Qed.

Lemma spaces_single_tail c r :
  spaces_single (String c r) = true -> spaces_single r = true.
Proof. simpl. intros H. apply andb_true_iff in H. apply H. Qed.

Lemma spaces_single_trim_start s :
  spaces_single s = true -> spaces_single (trim_start s) = true.
Proof.
  induction s as [|c r IH]; intros H; [reflexivity|]. simpl.
  destruct (is_space c); [|exact H].
  apply IH, (spaces_single_tail c), H.
Qed.

Lemma trim_end_head r a s :
  trim_end r = String a s -> exists s', r = String a s'.
Proof.
  destruct r as [|c r]; simpl; [discriminate|].
  destruct (trim_end r).
  - destruct (is_space c); [discriminate|].
    intros [= <- <-]. eauto.
  - intros [= <- <-]. eauto.
Qed.

Lemma spaces_single_trim_end s :
  spaces_single s = true -> spaces_single (trim_end s) = true.
Proof.
  induction s as [|c r IH]; intros H; [reflexivity|].
  pose proof (spaces_single_tail _ _ H) as Hr. specialize (IH Hr).
  simpl in H. apply andb_true_iff in H as [Hc _].
  simpl. destruct (trim_end r) as [|a s'] eqn:E.
  - destruct (is_space c) eqn:Hs; [reflexivity|].
    simpl. rewrite Hs. reflexivity.
  - destruct (trim_end_head _ _ _ E) as [s'' ->].
    change (spaces_single (String c (String a s')))
      with ((negb (is_space c) || (Ascii.eqb c " " && negb (is_space a)))
            && spaces_single (String a s')).
    rewrite IH, andb_true_r. exact Hc.
Qed.

Lemma trim_start_start s : starts_with_space (trim_start s) = false.
Proof.
  induction s as [|c r IH]; simpl; [reflexivity|].
  destruct (is_space c) eqn:Hs; [exact IH|]. simpl. exact Hs.
Qed.

Lemma trim_end_start s :
  starts_with_space s = false -> starts_with_space (trim_end s) = false.
Proof.
  destruct s as [|c r]; simpl; [reflexivity|]. intros Hs.
  destruct (trim_end r); [rewrite Hs|]; simpl; [exact Hs|exact Hs].
Qed.

Lemma trim_end_end s : ends_with_space (trim_end s) = false.
Proof.
  induction s as [|c r IH]; simpl; [reflexivity|].
  destruct (trim_end r) as [|a s'] eqn:E.
  - destruct (is_space c) eqn:Hs; simpl; [reflexivity|exact Hs].
  - exact IH.
Qed.

(** After the clean-up white space is single spaces between words. *)
Lemma clean_markup_spaces d :
  spaces_single (clean_markup d) = true
  /\ starts_with_space (clean_markup d) = false
  /\ ends_with_space (clean_markup d) = false.
Proof.
  unfold clean_markup, trim, collapse_ws. split; [|split].
  - apply spaces_single_trim_end, spaces_single_trim_start,
      spaces_single_collapse_ws.
  - apply trim_end_start, trim_start_start.
  - apply trim_end_end.
Qed.

Lemma includes_append needle a b :
  includes needle b = true -> includes needle (a +:+ b) = true.
Proof.
  intros H. induction a as [|c a IH]; simpl; [exact H|].
  rewrite IH. apply orb_true_r.
Qed.

End JsFacts.

(** ** The clean-up, word by word *)

Module CleanFacts.
Import Js.

Lemma cons_append c a b : String c a +:+ b = String c (a +:+ b).
Proof. reflexivity. Qed.

Lemma replace_tags_plain s : has_tag s = false -> replace_tags s = s.
Proof.
  unfold replace_tags. induction s as [|c r IH]; [reflexivity|].
  cbn [has_tag replace_tags_from]. intros H.
  apply orb_false_iff in H as [H1 H2].
  rewrite H1, (IH H2). reflexivity.
Qed.

Lemma replace_tags_inside t b :
  has_gt t = false ->
  replace_tags_from true (t +:+ ">" +:+ b)
  = String " " (replace_tags_from false b).
Proof.
  induction t as [|c t IH]; intros H; [reflexivity|].
  cbn [has_gt] in H. apply orb_false_iff in H as [H1 H2].
  rewrite cons_append. cbn [replace_tags_from]. rewrite H1. apply IH, H2.
Qed.

Lemma has_gt_append_gt t b : has_gt (t +:+ ">" +:+ b) = true.
Proof.
  induction t as [|c t IH]; [reflexivity|].
  rewrite cons_append. cbn [has_gt]. rewrite IH. apply orb_true_r.
Qed.

Lemma replace_tags_first_tag a t b :
  has_lt a = false -> has_gt t = false ->
  replace_tags (a +:+ "<" +:+ t +:+ ">" +:+ b)
  = a +:+ " " +:+ replace_tags b.
Proof.
  unfold replace_tags. intros Ha Ht.
  induction a as [|c a IH].
  - change ("" +:+ "<" +:+ t +:+ ">" +:+ b)
      with (String "<" (t +:+ ">" +:+ b)).
    cbn [replace_tags_from]. rewrite has_gt_append_gt.
    change (is_lt "<" && true) with true. cbn iota.
    apply replace_tags_inside, Ht.
  - cbn [has_lt] in Ha. apply orb_false_iff in Ha as [H1 H2].
    rewrite !cons_append. cbn [replace_tags_from]. rewrite H1.
    cbn [andb]. f_equal. exact (IH H2).
Qed.

Lemma collapse_true_start s :
  starts_with_space (collapse_ws_from true s) = false.
Proof.
  induction s as [|c r IH]; [reflexivity|]. cbn [collapse_ws_from].
  destruct (is_space c) eqn:E; [exact IH|]. cbn. exact E.
Qed.

Lemma trim_start_id s : starts_with_space s = false -> trim_start s = s.
Proof. destruct s as [|c r]; cbn; [reflexivity|]. intros ->. reflexivity. Qed.

Lemma trim_start_collapse s :
  trim_start (collapse_ws_from false s) = collapse_ws_from true s.
Proof.
  destruct s as [|c r]; [reflexivity|]. cbn [collapse_ws_from].
  destruct (is_space c) eqn:E.
  - cbn [trim_start]. change (is_space " ") with true. cbn iota.
    apply trim_start_id, collapse_true_start.
  - cbn [trim_start]. rewrite E. reflexivity.
Qed.

Lemma words_start s : at_word_end s = false -> exists c w ws,
  words s = String c w :: ws.
Proof.
  destruct s as [|c r]; cbn [at_word_end words]; [discriminate|].
  intros ->. destruct (at_word_end r); [eauto|].
  destruct (words r) as [|w ws]; eauto.
Qed.

Lemma words_first s w ws : words s = w :: ws -> exists c w', w = String c w'.
Proof.
  revert w ws. induction s as [|c r IH]; intros w ws; cbn [words];
    [discriminate|].
  destruct (is_space c); [apply IH|].
  destruct (at_word_end r); [intros [= <- _]; eauto|].
  destruct (words r) as [|w0 ws0]; intros [= <- _]; eauto.
Qed.

Lemma unwords_cons c w ws :
  unwords (String c w :: ws) = String c (unwords (w :: ws)).
Proof. destruct ws; reflexivity. Qed.

Lemma unwords_start s w ws :
  words s = w :: ws -> exists c u, unwords (words s) = String c u.
Proof.
  intros H. destruct (words_first s w ws H) as (c & w' & ->).
  rewrite H, unwords_cons. eauto.
Qed.

(** [trim] after [collapse_ws] leaves the words, one space apart. *)
Lemma trim_end_collapse s :
  trim_end (collapse_ws_from true s) = unwords (words s).
Proof.
  induction s as [|c r IH]; [reflexivity|].
  cbn [collapse_ws_from words].
  destruct (is_space c) eqn:Ec; [exact IH|].
  destruct r as [|c' r'].
  - cbn. rewrite Ec. reflexivity.
  - cbn [at_word_end]. cbn [collapse_ws_from] in IH |- *.
    destruct (is_space c') eqn:Ec'.
    + (* the word ends here *)
      cbn [trim_end]. cbn [words] in IH. rewrite Ec' in IH. rewrite IH.
      cbn [words]. rewrite Ec'.
      destruct (words r') as [|w ws] eqn:Ew.
      * cbn. rewrite Ec. reflexivity.
      * destruct (unwords_start r' w ws Ew) as (x & u & Hu).
        rewrite Ew in Hu.
        change (unwords (String c "" :: w :: ws))
          with (String c (String " " (unwords (w :: ws)))).
        rewrite Hu. reflexivity.
    + (* the word goes on *)
      destruct (words_start (String c' r')) as (x & w & ws & Hw);
        [exact Ec'|].
      rewrite Hw in IH |- *. rewrite unwords_cons in IH.
      cbn [trim_end].
      cbn [trim_end] in IH. rewrite IH.
      rewrite unwords_cons, unwords_cons. reflexivity.
Qed.

Lemma clean_markup_words d :
  clean_markup d = unwords (words (replace_tags d)).
Proof.
  unfold clean_markup, trim, collapse_ws.
  rewrite trim_start_collapse. apply trim_end_collapse.
Qed.

Lemma at_word_end_append a y :
  at_word_end (a +:+ " " +:+ y) = at_word_end a.
Proof. destruct a; reflexivity. Qed.

Lemma words_append a y : words (a +:+ " " +:+ y) = words a ++ words y.
Proof.
  induction a as [|c a IH]; [reflexivity|].
  rewrite cons_append. cbn [words]. rewrite at_word_end_append, IH.
  destruct (is_space c); [reflexivity|].
  destruct (at_word_end a) eqn:E; [reflexivity|].
  destruct (words_start a E) as (x & w & ws & ->). reflexivity.
Qed.

Lemma collapse_id b s :
  spaces_single s = true ->
  (b = true -> starts_with_space s = false) ->
  collapse_ws_from b s = s.
Proof.
  revert b. induction s as [|c r IH]; intros b Hs Hb; [reflexivity|].
  cbn [spaces_single] in Hs. apply andb_true_iff in Hs as [Hc Hr].
  cbn [collapse_ws_from]. destruct (is_space c) eqn:Ec.
  - cbn [negb orb] in Hc. apply andb_true_iff in Hc as [H1 H2].
    apply Ascii.eqb_eq in H1. apply negb_true_iff in H2.
    destruct b.
    + specialize (Hb eq_refl). cbn in Hb. congruence.
    + rewrite (IH true Hr (fun _ => H2)). subst c. reflexivity.
  - rewrite (IH false Hr); [reflexivity|discriminate].
Qed.

Lemma trim_end_id s : ends_with_space s = false -> trim_end s = s.
Proof.
  induction s as [|c r IH]; [reflexivity|].
  destruct r as [|c' r'].
  - cbn. intros ->. reflexivity.
  - intros H. change (ends_with_space (String c (String c' r')))
      with (ends_with_space (String c' r')) in H.
    cbn [trim_end] in IH |- *. rewrite (IH H). reflexivity.
Qed.

(** A text without tags in which white space is single spaces between
    words is left as it is. *)
Lemma clean_markup_id d :
  has_tag d = false -> spaces_single d = true ->
  starts_with_space d = false -> ends_with_space d = false ->
  clean_markup d = d.
Proof.
  intros Ht Hs H1 H2. unfold clean_markup, trim, collapse_ws.
  rewrite (replace_tags_plain d Ht), (collapse_id false d Hs)
    by discriminate.
  rewrite (trim_start_id d H1). apply trim_end_id, H2.
Qed.

End CleanFacts.

(** ** Running the program step by step *)

Section Steps.
Variable env : Env.

Lemma bind_val {A B} (m : M A) (k : A -> M B) st a st' :
  m st = (Val a, st') -> bind m k st = k a st'.
Proof. intros H. unfold bind. rewrite H. reflexivity. Qed.

Lemma bind_thrown {A B} (m : M A) (k : A -> M B) st e st' :
  m st = (Thrown e, st') -> bind m k st = (Thrown e, st').
Proof. intros H. unfold bind. rewrite H. reflexivity. Qed.

Lemma getHeaders_authenticated st :
  authenticated st -> getHeaders st = (Val (bearer (accessToken st)), st).
Proof. unfold authenticated, getHeaders. intros ->. reflexivity. Qed.

Lemma fetch_resolved req r st :
  http env (length (requests st)) req = Resolved r ->
  fetch env req st = (Val r, log_request req st).
Proof. unfold fetch. intros ->. reflexivity. Qed.

Lemma requests_log_requests rs st :
  requests (log_requests rs st) = requests st ++ rs.
Proof.
  revert st. induction rs as [|r rs IH]; intros st; simpl.
  - symmetry. apply app_nil_r.
  - unfold log_requests in IH. rewrite IH. simpl.
    rewrite <- app_assoc. reflexivity.
Qed.

Lemma uuid_eq st : uuid env st = (Val (media_id env st), next_uuid st).
Proof. reflexivity. Qed.

Lemma ask_eq q st :
  ask env q st = (Val (answer env (length (questions st))), log_question q st).
Proof. reflexivity. Qed.

Lemma writeFileSync_eq path b st :
  writeFileSync path b st = (Val tt, write_file path b st).
Proof. reflexivity. Qed.

Lemma readFileSync_some path b st :
  files st !! path = Some b -> readFileSync path st = (Val b, st).
Proof. unfold readFileSync. intros ->. reflexivity. Qed.

Lemma has_preview_some st p b :
  files st !! previewPath env p = Some b -> has_preview env st p = true.
Proof. unfold has_preview. intros ->. reflexivity. Qed.

Lemma has_preview_none st p :
  files st !! previewPath env p = None -> has_preview env st p = false.
Proof. unfold has_preview. intros ->. reflexivity. Qed.

Lemma generate_state g n d st o st1 :
  generate env g n d st = (o, st1) ->
  st1 = log_prompt (buildPrompt (template g) n d) st.
Proof.
  unfold generate, bind.
  destruct (images_generate env _ _) as [e|[[|c s]|]]; cbn;
    intros [= _ <-]; reflexivity.
Qed.

Lemma generate_succeeds g n d st :
  images_succeed env ->
  exists b,
    generate env g n d st
    = (Val b, log_prompt (buildPrompt (template g) n d) st).
Proof.
  intros Himg. unfold generate, bind.
  destruct (Himg (length (prompts st)) (buildPrompt (template g) n d))
    as (c & s & ->).
  eexists. reflexivity.
Qed.

End Steps.

(** [mval H]: run the first action of the program in the goal with the
    equation [H] that gives its value; [mthrow H] when it throws. *)
Ltac mval H := rewrite (bind_val _ _ _ _ _ H).
Ltac mthrow H := rewrite (bind_thrown _ _ _ _ _ H).

(** ** Pagination against a catalog server *)

Section Pagination.
Lemma ceil_div_small r : 1 <= r -> r <= 25 -> ceil_div r 25 = 1.
Proof.
  intros H1 H2. unfold ceil_div. symmetry.
  apply (Nat.div_unique _ 25 1 (r - 1)); lia.
Qed.

Lemma ceil_div_step r : 25 < r -> ceil_div r 25 = S (ceil_div (r - 25) 25).
Proof.
  intros H. unfold ceil_div.
  replace (r + (25 - 1)) with ((r - 25 + (25 - 1)) + 1 * 25) by lia.
  rewrite Nat.div_add by lia. lia.
Qed.

Lemma ceil_div_pos r : 1 <= r -> 1 <= ceil_div r 25.
Proof.
  intros H. destruct (Nat.le_gt_cases r 25).
  - rewrite ceil_div_small by lia. lia.
  - rewrite ceil_div_step by lia. lia.
Qed.

Lemma length_search_requests auth channel first n :
  length (search_requests auth channel first n) = n.
Proof. unfold search_requests. rewrite length_map. apply length_seq. Qed.

Lemma firstn_page (items : list ShopwareProduct) a b :
  firstn a items ++ firstn b (skipn a items) = firstn (a + b) items.
Proof.
  revert items. induction a as [|a IH]; intros items; simpl.
  - reflexivity.
  - destruct items as [|x items]; simpl.
    + rewrite firstn_nil. reflexivity.
    + rewrite IH. reflexivity.
Qed.

Variable env : Env.
Variable items : list ShopwareProduct.
Hypothesis Hserve : serves_catalog env items.

Lemma fetchAllProducts_loop_serves channel fuel :
  forall page st,
    authenticated st ->
    1 <= page ->
    Nat.max 1 (ceil_div (length items - (page - 1) * limit) limit) <= fuel ->
    fetchAllProducts_loop env fuel channel page
      (firstn ((page - 1) * limit) items) st
    = (Val items,
       log_requests
         (search_requests (bearer (accessToken st)) channel page
            (Nat.max 1 (ceil_div (length items - (page - 1) * limit) limit)))
         st).
Proof.
  unfold limit.
  induction fuel as [|fuel IH]; intros page st Hauth Hpage Hfuel;
    set (rem := length items - (page - 1) * 25) in *.
  - lia.
  - cbn [fetchAllProducts_loop].
    rewrite (bind_val _ _ _ _ _ (getHeaders_authenticated st Hauth)).
    destruct (Hserve (length (requests st)) (bearer (accessToken st))
                limit page channel false)
      as (r & Hr & Hok & Hjson & Htot & Hdata).
    rewrite (bind_val _ _ _ _ _ (fetch_resolved env _ _ _ Hr)).
    rewrite Hok. cbn [negb]. unfold json. rewrite Hjson.
    unfold bind at 1. unfold ret at 1. cbn beta iota zeta.
    rewrite Hdata, Htot. unfold page_of, limit.
    rewrite firstn_page.
    replace ((page - 1) * 25 + 25) with (page * 25) by lia.
    rewrite !length_firstn, length_skipn.
    fold rem.
    destruct (Nat.le_gt_cases rem 25) as [Hle|Hgt].
    + (* the last page *)
      assert (Hstop : ((Z.of_nat (Nat.min (page * 25) (length items))
                        >=? Z.of_nat (length items))%Z
                       || (Nat.min 25 rem <? 25)) = true).
      { apply orb_true_iff. left. apply Z.geb_le. unfold rem in Hle. lia. }
      rewrite Hstop. unfold ret.
      assert (Hn : Nat.max 1 (ceil_div rem 25) = 1).
      { destruct (Nat.eq_dec rem 0) as [E|E]; [rewrite E; reflexivity|].
        rewrite ceil_div_small by lia. reflexivity. }
      rewrite Hn. simpl. f_equal. f_equal.
      apply firstn_all2. unfold rem in Hle. lia.
    + (* a full page with more to come *)
      assert (Hstop : ((Z.of_nat (Nat.min (page * 25) (length items))
                        >=? Z.of_nat (length items))%Z
                       || (Nat.min 25 rem <? 25)) = false).
      { apply orb_false_iff. split.
        - rewrite Z.geb_leb. apply Z.leb_gt. unfold rem in Hgt. lia.
        - apply Nat.ltb_ge. lia. }
      rewrite Hstop.
      assert (Hn : Nat.max 1 (ceil_div rem 25)
                   = S (Nat.max 1 (ceil_div (rem - 25) 25))).
      { rewrite (ceil_div_step rem) by lia.
        destruct (Nat.le_gt_cases (rem - 25) 25).
        - rewrite ceil_div_small by lia. reflexivity.
        - rewrite (ceil_div_step (rem - 25)) by lia. lia. }
      rewrite Hn in Hfuel |- *.
      replace (page * 25) with ((page + 1 - 1) * 25) by lia.
      rewrite IH.
      * unfold search_requests. cbn [seq map log_requests fold_left].
        replace (page + 1) with (S page) by lia.
        replace (length items - (S page - 1) * 25) with (rem - 25)
          by (unfold rem; lia).
        reflexivity.
      * exact Hauth.
      * lia.
      * replace (length items - (page + 1 - 1) * 25) with (rem - 25)
          by (unfold rem; lia).
        lia.
Qed.

End Pagination.

(** ** The listing loops, whatever the server does *)

Section Listing.
Variable env : Env.

(** One iteration of each listing loop, case by case. *)
Lemma fetchAllProducts_loop_step fuel channel page allProducts st :
  fetchAllProducts_loop env (S fuel) channel page allProducts st
  = if negb (Js.truthy (accessToken st))
    then (Thrown (JsError "Not authenticated. Call authenticate() first."), st)
    else
      let req := PostSearchProduct (bearer (accessToken st)) limit page
                   channel false in
      match http env (length (requests st)) req with
      | Rejected e => (Thrown e, log_request req st)
      | Resolved r =>
          if negb (ok r)
          then (Thrown (http_failure "Failed to fetch products" r),
                log_request req st)
          else
            match json_rejects r with
            | Some e => (Thrown e, log_request req st)
            | None =>
                let acc := allProducts ++ data (json_search r) in
                if (Z.of_nat (length acc) >=? total (json_search r))%Z
                   || (length (data (json_search r)) <? limit)
                then (Val acc, log_request req st)
                else fetchAllProducts_loop env fuel channel (page + 1) acc
                       (log_request req st)
            end
      end.
Proof.
  cbn [fetchAllProducts_loop]. unfold bind, getHeaders, fetch, json.
  destruct (negb (Js.truthy (accessToken st))); [reflexivity|].
  cbn zeta.
  destruct (http env _ _) as [e|r]; [reflexivity|].
  destruct (negb (ok r)); [reflexivity|].
  destruct (json_rejects r); [reflexivity|]. cbn.
  destruct (_ || _); reflexivity.
Qed.

Lemma fetchProductsWithoutImages_loop_step fuel channel page allProducts st :
  fetchProductsWithoutImages_loop env (S fuel) channel page allProducts st
  = if negb (Js.truthy (accessToken st))
    then (Thrown (JsError "Not authenticated. Call authenticate() first."), st)
    else
      let req := PostSearchProduct (bearer (accessToken st)) limit page
                   channel true in
      match http env (length (requests st)) req with
      | Rejected e => (Thrown e, log_request req st)
      | Resolved r =>
          if negb (ok r)
          then (Thrown (http_failure "Failed to fetch products" r),
                log_request req st)
          else
            match json_rejects r with
            | Some e => (Thrown e, log_request req st)
            | None =>
                let acc := allProducts ++ data (json_search r) in
                if (Z.of_nat (length acc) >=? total (json_search r))%Z
                   || (length (data (json_search r)) <? limit)
                then (Val acc, log_request req st)
                else fetchProductsWithoutImages_loop env fuel channel
                       (page + 1) acc (log_request req st)
            end
      end.
Proof.
  cbn [fetchProductsWithoutImages_loop]. unfold bind, getHeaders, fetch, json.
  destruct (negb (Js.truthy (accessToken st))); [reflexivity|].
  cbn zeta.
  destruct (http env _ _) as [e|r]; [reflexivity|].
  destruct (negb (ok r)); [reflexivity|].
  destruct (json_rejects r); [reflexivity|]. cbn.
  destruct (_ || _); reflexivity.
Qed.

(** What the loop returns is what it started with followed by the data
    of every page it fetched. *)
Lemma fetchAllProducts_loop_accumulates channel fuel :
  forall page allProducts st acc st',
    fetchAllProducts_loop env fuel channel page allProducts st
    = (Val acc, st') ->
    exists new,
      st' = log_requests new st
      /\ acc = allProducts ++ fetched_data env (length (requests st)) new.
Proof.
  induction fuel as [|fuel IH]; intros page allProducts st acc st'.
  - discriminate.
  - rewrite fetchAllProducts_loop_step. cbn zeta.
    destruct (negb (Js.truthy (accessToken st))); [discriminate|].
    destruct (http env (length (requests st)) _) as [e|r] eqn:Hr;
      [discriminate|].
    destruct (negb (ok r)); [discriminate|].
    destruct (json_rejects r); [discriminate|].
    destruct (_ || _).
    + intros [= <- <-].
      eexists [_]. split; [reflexivity|].
      cbn [fetched_data]. rewrite Hr, app_nil_r. reflexivity.
    + intros H. apply IH in H as (new & -> & ->).
      eexists (_ :: new). split; [reflexivity|].
      cbn [fetched_data]. rewrite Hr.
      cbn [log_request requests]. rewrite length_app, Nat.add_1_r.
      rewrite <- app_assoc. reflexivity.
Qed.

Lemma lacks_cover_iff p :
  lacks_cover p = true <-> coverId p = None \/ coverId p = Some "".
Proof.
  unfold lacks_cover, Js.truthy.
  destruct (coverId p) as [[|c s]|]; cbn; split; auto.
  - intros H. discriminate H.
  - intros [H|H]; discriminate H.
Qed.

(** The two listing loops run in lock step when the server ignores the
    [media] flag. *)
Lemma listing_loops_agree channel fuel :
  media_flag_ignored env ->
  forall page allProducts st1 st2,
    accessToken st1 = accessToken st2 ->
    length (requests st1) = length (requests st2) ->
    exists o new,
      fetchAllProducts_loop env fuel channel page allProducts st2
      = (o, log_requests new st2)
      /\ fetchProductsWithoutImages_loop env fuel channel page allProducts st1
         = (o, log_requests (map with_media new) st1).
Proof.
  intros Hflag.
  induction fuel as [|fuel IH]; intros page allProducts st1 st2 Htok Hlen.
  - exists OutOfFuel, []. split; reflexivity.
  - rewrite fetchAllProducts_loop_step, fetchProductsWithoutImages_loop_step.
    cbn zeta. rewrite Htok, Hlen, Hflag.
    destruct (negb (Js.truthy (accessToken st2))).
    { eexists _, []. split; reflexivity. }
    destruct (http env (length (requests st2)) _) as [e|r] eqn:Hr.
    { eexists _, [_]. split; reflexivity. }
    destruct (negb (ok r)).
    { eexists _, [_]. split; reflexivity. }
    destruct (json_rejects r).
    { eexists _, [_]. split; reflexivity. }
    destruct (_ || _).
    { eexists _, [_]. split; reflexivity. }
    edestruct (IH (page + 1) (allProducts ++ data (json_search r))
                 (log_request (PostSearchProduct (bearer (accessToken st2))
                                 limit page channel true) st1)
                 (log_request (PostSearchProduct (bearer (accessToken st2))
                                 limit page channel false) st2))
      as (o & new & H2 & H1).
    { exact Htok. }
    { cbn [log_request requests]. rewrite !length_app, Hlen. reflexivity. }
    exists o, (PostSearchProduct (bearer (accessToken st2)) limit page
                 channel false :: new).
    split; [exact H2|exact H1].
Qed.

End Listing.

(** ** The upload protocol *)

Section Protocol.
Variable env : Env.

Lemma In_singleton_request (a b : Request) : In a [b] -> a = b.
Proof. intros [H|[]]. symmetry. exact H. Qed.

Lemma uploadMedia_upload_refused buf fileName st r1 r2 :
  authenticated st ->
  http env (length (requests st)) (create_media_request env st) = Resolved r1 ->
  ok r1 = true ->
  http env (S (length (requests st))) (upload_request env st fileName buf)
    = Resolved r2 ->
  ok r2 = false ->
  uploadMedia env buf fileName st
  = (Thrown (http_failure "Failed to upload media file" r2),
     log_requests [create_media_request env st;
                   upload_request env st fileName buf] (next_uuid st)).
Proof.
  intros Hauth H1 Hok1 H2 Hok2.
  unfold uploadMedia.
  mval (uuid_eq env st).
  mval (getHeaders_authenticated (next_uuid st) Hauth).
  mval (fetch_resolved env _ _ (next_uuid st) H1).
  rewrite Hok1. cbn [negb].
  unfold bind at 1. cbn beta iota.
  assert (H2' : http env (length (requests (log_request (create_media_request env st) (next_uuid st))))
                 (upload_request env st fileName buf) = Resolved r2).
  { cbn [log_request requests next_uuid]. rewrite length_app, Nat.add_1_r. exact H2. }
  mval (fetch_resolved env _ _ _ H2').
  rewrite Hok2. reflexivity.
Qed.

Lemma uploadMedia_succeeds buf fileName st :
  authenticated st ->
  http_succeeds env ->
  uploadMedia env buf fileName st
  = (Val (media_id env st),
     log_requests [create_media_request env st;
                   upload_request env st fileName buf] (next_uuid st)).
Proof.
  intros Hauth Hhttp. unfold uploadMedia.
  mval (uuid_eq env st).
  mval (getHeaders_authenticated (next_uuid st) Hauth).
  destruct (Hhttp (length (requests (next_uuid st)))
              (PostMedia (bearer (accessToken (next_uuid st))) (media_id env st)))
    as (r1 & ? & ? & ? & H1 & Hok1 & _).
  mval (fetch_resolved env _ _ _ H1). rewrite Hok1. cbn [negb].
  unfold bind at 1. cbn beta iota.
  match goal with
  | |- context [bind (fetch env ?req) _ ?s] =>
      destruct (Hhttp (length (requests s)) req)
        as (r2 & ? & ? & ? & H2 & Hok2 & _);
      rewrite (bind_val _ _ _ _ _ (fetch_resolved env req r2 s H2))
  end.
  rewrite Hok2. reflexivity.
Qed.

Lemma assignMediaToProduct_succeeds productId mediaId st :
  authenticated st ->
  http_succeeds env ->
  exists cover,
    assignMediaToProduct env productId mediaId st
    = (Val tt,
       log_requests [association_request st productId mediaId;
                     cover_request st productId cover] st).
Proof.
  intros Hauth Hhttp. unfold assignMediaToProduct.
  mval (getHeaders_authenticated st Hauth).
  match goal with
  | |- context [bind (fetch env ?req) _ ?s] =>
      destruct (Hhttp (length (requests s)) req)
        as (r3 & loc & c & sg & H3 & Hok3 & Hloc & Hseg);
      rewrite (bind_val _ _ _ _ _ (fetch_resolved env req r3 s H3))
  end.
  rewrite Hok3. cbn [negb]. rewrite Hloc. cbn [option_map]. rewrite Hseg.
  match goal with
  | |- context [bind getHeaders _ ?s] =>
      rewrite (bind_val _ _ _ _ _ (getHeaders_authenticated s Hauth))
  end.
  match goal with
  | |- context [bind (fetch env ?req) _ ?s] =>
      destruct (Hhttp (length (requests s)) req)
        as (r4 & ? & ? & ? & H4 & Hok4 & _);
      rewrite (bind_val _ _ _ _ _ (fetch_resolved env req r4 s H4))
  end.
  rewrite Hok4. cbn [negb].
  exists (String c sg). reflexivity.
Qed.

Lemma upload_step_succeeds p buf st :
  authenticated st ->
  http_succeeds env ->
  exists cover,
    upload_step env p (product_name p) buf st
    = (Val Continue,
       push_result (uploaded_result p)
         (log_requests
            [create_media_request env st;
             upload_request env st (upload_name p) buf;
             association_request st (id p) (media_id env st);
             cover_request st (id p) cover]
            (next_uuid st))).
Proof.
  intros Hauth Hhttp.
  unfold upload_step. fold (upload_name p).
  mval (uploadMedia_succeeds buf (upload_name p) st Hauth Hhttp).
  match goal with
  | |- context [assignMediaToProduct env ?a ?b] =>
      match goal with
      | |- context [bind (assignMediaToProduct env a b) _ ?s] =>
          destruct (assignMediaToProduct_succeeds a b s Hauth Hhttp)
            as (cover & Ha)
      end
  end.
  mval Ha. exists cover. reflexivity.
Qed.

Lemma upload_step_uploadMedia_throws p buf st e st1 :
  uploadMedia env buf (upload_name p) st = (Thrown e, st1) ->
  upload_step env p (product_name p) buf st = (Thrown e, st1).
Proof. intros H. unfold upload_step. fold (upload_name p). mthrow H. reflexivity. Qed.

Lemma upload_step_assign_throws p buf st mediaId st1 e st2 :
  uploadMedia env buf (upload_name p) st = (Val mediaId, st1) ->
  assignMediaToProduct env (id p) mediaId st1 = (Thrown e, st2) ->
  upload_step env p (product_name p) buf st = (Thrown e, st2).
Proof.
  intros H1 H2. unfold upload_step. fold (upload_name p).
  mval H1. mthrow H2. reflexivity.
Qed.

End Protocol.

(** ** What the upload step touches *)

Section Frame.
Variable env : Env.

Lemma catalog_only_ret {A} (a : A) : catalog_only (ret a).
Proof. intros st. cbn. auto. Qed.

Lemma catalog_only_throw {A} e : catalog_only (@throw A e).
Proof. intros st. cbn. auto. Qed.

Lemma catalog_only_bind {A B} (m : M A) (k : A -> M B) :
  catalog_only m -> (forall a, catalog_only (k a)) -> catalog_only (bind m k).
Proof.
  intros Hm Hk st. unfold bind.
  destruct (Hm st) as (H1 & H2 & H3 & H4).
  destruct (m st) as [[a|e|] st1]; cbn in *; auto.
  destruct (Hk a st1) as (K1 & K2 & K3 & K4).
  rewrite K1, K2, K3, K4. auto.
Qed.

Lemma catalog_only_if {A} (b : bool) (m1 m2 : M A) :
  catalog_only m1 -> catalog_only m2 -> catalog_only (if b then m1 else m2).
Proof. destruct b; auto. Qed.

Lemma catalog_only_fetch req : catalog_only (fetch env req).
Proof. intros st. unfold fetch. destruct (http env _ req); cbn; auto. Qed.

Lemma catalog_only_getHeaders : catalog_only getHeaders.
Proof. intros st. unfold getHeaders. destruct (negb _); cbn; auto. Qed.

Lemma catalog_only_push_result {A} r (a : A) :
  catalog_only (bind (modify (push_result r)) (fun _ => ret a)).
Proof. intros st. cbn. auto. Qed.

Lemma catalog_only_assignMediaToProduct pid mid :
  catalog_only (assignMediaToProduct env pid mid).
Proof.
  unfold assignMediaToProduct.
  apply catalog_only_bind; [apply catalog_only_getHeaders|intros h].
  apply catalog_only_bind; [apply catalog_only_fetch|intros r].
  apply catalog_only_if; [apply catalog_only_throw|].
  destruct (option_map Js.last_segment (location r)) as [[|c s]|];
    try apply catalog_only_throw.
  apply catalog_only_bind; [apply catalog_only_getHeaders|intros h'].
  apply catalog_only_bind; [apply catalog_only_fetch|intros r'].
  apply catalog_only_if; [apply catalog_only_throw|apply catalog_only_ret].
Qed.

Lemma uploadMedia_frame buf fileName st :
  prompts (snd (uploadMedia env buf fileName st)) = prompts st
  /\ files (snd (uploadMedia env buf fileName st)) = files st
  /\ questions (snd (uploadMedia env buf fileName st)) = questions st
  /\ uuids (snd (uploadMedia env buf fileName st)) = S (uuids st).
Proof.
  unfold uploadMedia. rewrite (bind_val _ _ _ _ _ (uuid_eq env st)).
  match goal with
  | |- context [snd (?m (next_uuid st))] =>
      assert (Hm : catalog_only m)
  end.
  { apply catalog_only_bind; [apply catalog_only_getHeaders|intros h].
    apply catalog_only_bind; [apply catalog_only_fetch|intros r].
    apply catalog_only_if; [apply catalog_only_throw|].
    apply catalog_only_bind; [intros st'; cbn; auto|intros tok].
    apply catalog_only_bind; [apply catalog_only_fetch|intros r'].
    apply catalog_only_if; [apply catalog_only_throw|apply catalog_only_ret]. }
  exact (Hm (next_uuid st)).
Qed.

(** The upload step under the catch clause draws exactly one uuid and
    otherwise talks to the catalog only. *)
Lemma upload_step_frame p buf st :
  prompts (snd (try_catch (upload_step env p (product_name p) buf)
                  (catch_clause p (product_name p)) st)) = prompts st
  /\ files (snd (try_catch (upload_step env p (product_name p) buf)
                   (catch_clause p (product_name p)) st)) = files st
  /\ questions (snd (try_catch (upload_step env p (product_name p) buf)
                       (catch_clause p (product_name p)) st)) = questions st
  /\ uuids (snd (try_catch (upload_step env p (product_name p) buf)
                   (catch_clause p (product_name p)) st)) = S (uuids st).
Proof.
  pose proof (uploadMedia_frame buf (upload_name p) st) as Hup.
  remember (try_catch (upload_step env p (product_name p) buf)
              (catch_clause p (product_name p)) st) as r eqn:Hr.
  unfold try_catch, upload_step in Hr. fold (upload_name p) in Hr.
  unfold bind at 1 in Hr.
  destruct (uploadMedia env buf (upload_name p) st) as [[mediaId|e|] st1];
    cbn [snd] in Hup; [|subst r; exact Hup|subst r; exact Hup].
  match type of Hr with
  | context [?m st1] =>
      assert (Hm : catalog_only m);
      [|specialize (Hm st1); destruct (m st1) as [[c|e|] st2]]
  end.
  { apply catalog_only_bind;
      [apply catalog_only_assignMediaToProduct|intros _].
    apply catalog_only_push_result. }
  all: subst r; cbn in *;
    destruct Hup as (U1 & U2 & U3 & U4); destruct Hm as (M1 & M2 & M3 & M4);
    rewrite M1, M2, M3, M4; auto.
Qed.

End Frame.

(** ** What the parts of the loop body leave alone *)

Create HintDb quiet.

Section Quiet.
Variable env : Env.

Lemma quiet_ret {A} (a : A) : quiet (ret a).
Proof. intros st. cbn. repeat split; discriminate. Qed.

Lemma quiet_throw {A} e : quiet (@throw A e).
Proof. intros st. cbn. repeat split; discriminate. Qed.

Lemma quiet_bind {A B} (m : M A) (k : A -> M B) :
  quiet m -> (forall a, quiet (k a)) -> quiet (bind m k).
Proof.
  intros Hm Hk st. unfold bind.
  destruct (Hm st) as (Hr & Ht & Hf).
  destruct (m st) as [[a|e|] st1]; cbn in *.
  - destruct (Hk a st1) as (Hr' & Ht' & Hf').
    rewrite Hr', Ht'. auto.
  - repeat split; auto; discriminate.
  - contradiction.
Qed.

Lemma quiet_if {A} (b : bool) (m1 m2 : M A) :
  quiet m1 -> quiet m2 -> quiet (if b then m1 else m2).
Proof. destruct b; auto. Qed.

Lemma quiet_fetch req : quiet (fetch env req).
Proof.
  intros st. unfold fetch.
  destruct (http env _ req); cbn; repeat split; discriminate.
Qed.

Lemma quiet_getHeaders : quiet getHeaders.
Proof.
  intros st. unfold getHeaders.
  destruct (negb _); cbn; repeat split; discriminate.
Qed.

Lemma quiet_uuid : quiet (uuid env).
Proof. intros st. cbn. repeat split; discriminate. Qed.

Lemma quiet_ask q : quiet (ask env q).
Proof. intros st. cbn. repeat split; discriminate. Qed.

Lemma quiet_readFileSync path : quiet (readFileSync path).
Proof.
  intros st. unfold readFileSync.
  destruct (files st !! path); cbn; repeat split; discriminate.
Qed.

Lemma quiet_writeFileSync path b : quiet (writeFileSync path b).
Proof. intros st. cbn. repeat split; discriminate. Qed.

Hint Resolve quiet_ret quiet_throw quiet_fetch quiet_getHeaders quiet_uuid
  quiet_ask quiet_readFileSync quiet_writeFileSync : quiet.

Ltac quiet_tac :=
  repeat first
    [ apply quiet_bind; [|intros ?]
    | apply quiet_if
    | solve [auto with quiet]
    | match goal with
      | |- quiet (match ?x with _ => _ end) => destruct x
      end ].

Lemma quiet_uploadMedia buf fileName : quiet (uploadMedia env buf fileName).
Proof.
  unfold uploadMedia. quiet_tac.
  intros st. cbn. repeat split; discriminate.
Qed.

Lemma quiet_assignMediaToProduct pid mid :
  quiet (assignMediaToProduct env pid mid).
Proof. unfold assignMediaToProduct. quiet_tac. Qed.

Lemma quiet_generate g n d : quiet (generate env g n d).
Proof.
  unfold generate. quiet_tac.
  intros st. destruct (images_generate env _ _); cbn;
    repeat split; discriminate.
Qed.

Lemma item_ok_bind {A} p (m : M A) (k : A -> M LoopCtl) :
  quiet m -> (forall a, item_ok p (k a)) -> item_ok p (bind m k).
Proof.
  intros Hm Hk st. unfold bind.
  destruct (Hm st) as (Hr & Ht & Hf).
  destruct (m st) as [[a|e|] st1]; cbn in *.
  - destruct (Hk a st1) as (Ht' & Hpost). split.
    + congruence.
    + rewrite Hr in Hpost. exact Hpost.
  - split; assumption.
  - contradiction.
Qed.

Lemma item_ok_break p : item_ok p (ret Break).
Proof. intros st. split; reflexivity. Qed.

Lemma item_ok_push_skipped p : item_ok p (push_skipped p (product_name p)).
Proof. intros st. split; [reflexivity|]. cbn. exists skipped. auto. Qed.

Lemma item_ok_upload_step p buf :
  item_ok p (upload_step env p (product_name p) buf).
Proof.
  unfold upload_step.
  apply item_ok_bind; [apply quiet_uploadMedia|intros mediaId].
  apply item_ok_bind; [apply quiet_assignMediaToProduct|intros _].
  intros st. split; [reflexivity|]. cbn. exists uploaded. auto.
Qed.

Lemma item_ok_if p (b : bool) (m1 m2 : M LoopCtl) :
  item_ok p m1 -> item_ok p m2 -> item_ok p (if b then m1 else m2).
Proof. destruct b; auto. Qed.

Hint Resolve quiet_generate quiet_uploadMedia quiet_assignMediaToProduct
  : quiet.

Lemma item_ok_try_block batch g p h :
  item_ok p (try_block env batch g p (product_name p)
               (product_description p) (previewPath env p) h).
Proof.
  unfold try_block.
  repeat first
    [ apply item_ok_break
    | apply item_ok_push_skipped
    | apply item_ok_upload_step
    | apply item_ok_if
    | solve [auto with quiet]
    | apply item_ok_bind; [|intros ?]
    | apply quiet_bind; [|intros ?]
    | apply quiet_if ].
Qed.

Lemma never_breaks_bind {A} (m : M A) (k : A -> M LoopCtl) :
  (forall a, never_breaks (k a)) -> never_breaks (bind m k).
Proof.
  intros Hk st. unfold bind.
  destruct (m st) as [[a|e|] st1]; cbn; try discriminate. apply Hk.
Qed.

Lemma never_breaks_if (b : bool) (m1 m2 : M LoopCtl) :
  never_breaks m1 -> never_breaks m2 -> never_breaks (if b then m1 else m2).
Proof. destruct b; auto. Qed.

Lemma never_breaks_push_skipped p n : never_breaks (push_skipped p n).
Proof. intros st. cbn. discriminate. Qed.

Lemma never_breaks_upload_step p n buf : never_breaks (upload_step env p n buf).
Proof.
  unfold upload_step.
  apply never_breaks_bind; intros mediaId.
  apply never_breaks_bind; intros _.
  intros st. cbn. discriminate.
Qed.

End Quiet.

(** ** The loop over the products *)

Ltac never_breaks_tac :=
  repeat first
    [ apply never_breaks_push_skipped
    | apply never_breaks_upload_step
    | apply never_breaks_if
    | apply never_breaks_bind; intros ? ].

Section Loop.
Variable env : Env.

(** [loop_body] is the try block under the catch clause. *)
Lemma loop_body_eq batch g p st :
  loop_body env batch g p st
  = try_catch (fun st' => item_try env batch g p st)
      (catch_clause p (product_name p)) st.
Proof.
  unfold loop_body, item_try, bind, existsSync, try_catch, has_preview,
    previewPath.
  reflexivity.
Qed.

Lemma batch_never_breaks g p n d path h st :
  fst (try_block env true g p n d path h st) <> Val Break.
Proof.
  cbn [try_block]. unfold bind at 1.
  destruct (_ st) as [[buf|e|] st1]; cbn; try discriminate.
  unfold upload_step, bind.
  destruct (uploadMedia _ _ _ _) as [[m|e|] st2]; cbn; try discriminate.
  destruct (assignMediaToProduct _ _ _ _) as [[[]|e|] st3]; cbn;
    discriminate.
Qed.

Lemma quit_at_first_prompt g p st :
  answer env (length (questions st)) = "q" ->
  loop_body env false g p st
  = (Val Break, log_question (first_question env st p) st).
Proof.
  intros Hq. rewrite loop_body_eq. unfold try_catch, item_try, first_question.
  cbn [try_block].
  destruct (has_preview env st p).
  - mval (ask_eq env q_image_exists st). rewrite Hq. reflexivity.
  - mval (ask_eq env q_generate st). rewrite Hq. reflexivity.
Qed.

(** The loop is left only in interactive mode, on the answer [q] to the
    first question for the product. *)
Lemma break_only_on_q batch g p st st1 :
  loop_body env batch g p st = (Val Break, st1) ->
  batch = false /\ answer env (length (questions st)) = "q".
Proof.
  rewrite loop_body_eq. unfold try_catch.
  destruct (item_try env batch g p st) as [[c|e|] st'] eqn:E;
    [|discriminate|discriminate].
  intros [= -> ->].
  assert (Hbr : fst (item_try env batch g p st) = Val Break)
    by (rewrite E; reflexivity).
  clear E. unfold item_try in Hbr.
  destruct batch.
  - exfalso. revert Hbr. apply batch_never_breaks.
  - split; [reflexivity|].
    destruct (String.eqb (answer env (length (questions st))) "q") eqn:Hq.
    + apply String.eqb_eq, Hq.
    + exfalso. revert Hbr. cbn [try_block].
      destruct (has_preview env st p).
      * rewrite (bind_val _ _ _ _ _ (ask_eq env q_image_exists st)), Hq.
        generalize (log_question q_image_exists st). never_breaks_tac.
      * rewrite (bind_val _ _ _ _ _ (ask_eq env q_generate st)), Hq.
        generalize (log_question q_generate st). never_breaks_tac.
Qed.

(** One pass through the loop body: a record for [p] is pushed and the
    loop goes on, or (interactive mode only) the loop is left with
    nothing pushed. *)
Lemma loop_body_cases batch g p st :
  exists c st1,
    loop_body env batch g p st = (Val c, st1)
    /\ accessToken st1 = accessToken st
    /\ match c with
       | Continue =>
           exists r, results st1 = results st ++ [r] /\ productId r = id p
       | Break => results st1 = results st /\ batch = false
       end.
Proof.
  rewrite loop_body_eq. unfold try_catch.
  pose proof (item_ok_try_block env batch g p (has_preview env st p) st)
    as [Ht Hpost].
  fold (item_try env batch g p st) in Ht, Hpost.
  destruct (item_try env batch g p st) as [[[|]|e|] st1] eqn:E;
    cbn in Ht, Hpost.
  - destruct Hpost as (s & _ & Hr).
    exists Continue, st1. repeat split; auto. eexists; split; eauto.
  - exists Break, st1. repeat split; auto.
    destruct batch; [|reflexivity].
    exfalso. apply (batch_never_breaks g p (product_name p)
                      (product_description p) (previewPath env p)
                      (has_preview env st p) st).
    unfold item_try in E. rewrite E. reflexivity.
  - exists Continue, (push_result (failed_result p e) st1).
    repeat split; auto. cbn. rewrite Hpost. eexists; split; eauto.
  - contradiction.
Qed.

Lemma for_products_cons batch g p rest st c st1 :
  loop_body env batch g p st = (Val c, st1) ->
  for_products env batch g (p :: rest) st
  = match c with
    | Break => (Val tt, st1)
    | Continue => for_products env batch g rest st1
    end.
Proof.
  intros H. cbn [for_products]. rewrite (bind_val _ _ _ _ _ H).
  destruct c; reflexivity.
Qed.

(** The loop never throws; its records are those of a prefix of the
    products, in order, and of all of them in batch mode. *)
Lemma for_products_results batch g ps :
  forall st, exists st' rs,
    for_products env batch g ps st = (Val tt, st')
    /\ accessToken st' = accessToken st
    /\ results st' = results st ++ rs
    /\ map productId rs = map id (firstn (length rs) ps)
    /\ (batch = true -> length rs = length ps).
Proof.
  induction ps as [|p rest IH]; intros st.
  - exists st, []. cbn. rewrite app_nil_r. auto.
  - destruct (loop_body_cases batch g p st) as (c & st1 & Hb & Ht & Hc).
    rewrite (for_products_cons _ _ _ _ _ _ _ Hb).
    destruct c.
    + destruct Hc as (r & Hr & Hid).
      destruct (IH st1) as (st' & rs & Hf & Ht' & Hrs & Hids & Hlen).
      exists st', (r :: rs). rewrite Hf, Hrs, Hr, <- app_assoc.
      repeat split; auto; [congruence| |].
      * cbn. rewrite Hid, Hids. reflexivity.
      * intros Hbatch. cbn. rewrite (Hlen Hbatch). reflexivity.
    + destruct Hc as [Hr Hbatch].
      exists st1, []. rewrite app_nil_r.
      repeat split; auto. intros ->. discriminate.
Qed.

(** Batch mode, cached image: the upload starts from the state the item
    started in, with the cached bytes. *)
Lemma batch_item_cached g p st buf :
  files st !! previewPath env p = Some buf ->
  loop_body env true g p st
  = try_catch (upload_step env p (product_name p) buf)
      (catch_clause p (product_name p)) st.
Proof.
  intros Hf. rewrite loop_body_eq. unfold try_catch, item_try.
  rewrite (has_preview_some env _ _ _ Hf). cbn [try_block].
  mval (readFileSync_some _ _ _ Hf). reflexivity.
Qed.

(** Batch mode, no cached image, the generator returns [b]. *)
Lemma batch_item_generated g p st b st1 :
  files st !! previewPath env p = None ->
  generate env g (product_name p) (product_description p) st = (Val b, st1) ->
  loop_body env true g p st
  = try_catch (upload_step env p (product_name p) b)
      (catch_clause p (product_name p))
      (write_file (previewPath env p) b st1).
Proof.
  intros Hf Hg. rewrite loop_body_eq. unfold try_catch, item_try.
  rewrite (has_preview_none env _ _ Hf). cbn [try_block].
  unfold bind at 1. unfold bind at 1. rewrite Hg.
  unfold bind at 1. rewrite writeFileSync_eq. reflexivity.
Qed.

Lemma batch_item_generate_throws g p st e st1 :
  files st !! previewPath env p = None ->
  generate env g (product_name p) (product_description p) st
    = (Thrown e, st1) ->
  loop_body env true g p st
  = (Val Continue, push_result (failed_result p e) st1).
Proof.
  intros Hf Hg. rewrite loop_body_eq. unfold try_catch, item_try.
  rewrite (has_preview_none env _ _ Hf). cbn [try_block].
  unfold bind at 1. unfold bind at 1. rewrite Hg. reflexivity.
Qed.

End Loop.

(** ** A batch run in which nothing fails *)

Section BatchRun.
Variable env : Env.
Hypothesis Hhttp : http_succeeds env.
Hypothesis Himg : images_succeed env.

Lemma filter_create_log_requests new st :
  List.filter is_create_media (requests (log_requests new st))
  = List.filter is_create_media (requests st) ++ List.filter is_create_media new.
Proof. rewrite requests_log_requests. apply List.filter_app. Qed.

Lemma batch_item_succeeds g p st :
  authenticated st ->
  exists st',
    loop_body env true g p st = (Val Continue, st')
    /\ accessToken st' = accessToken st
    /\ results st' = results st ++ [uploaded_result p]
    /\ uuids st' = S (uuids st)
    /\ questions st' = questions st
    /\ prompts st'
       = prompts st ++ (if has_preview env st p then [] else [prompt_for g p])
    /\ has_preview env st' p = true
    /\ (forall q, previewPath env q <> previewPath env p ->
                  has_preview env st' q = has_preview env st q)
    /\ List.filter is_create_media (requests st')
       = List.filter is_create_media (requests st) ++ [create_media_request env st].
Proof.
  intros Hauth.
  destruct (files st !! previewPath env p) as [buf|] eqn:Hf.
  - rewrite (batch_item_cached env g p st buf Hf). unfold try_catch.
    destruct (upload_step_succeeds env p buf st Hauth Hhttp) as (cover & ->).
    eexists. split; [reflexivity|].
    rewrite (has_preview_some env st p buf Hf).
    cbn [push_result requests].
    rewrite filter_create_log_requests.
    unfold has_preview.
    cbn [push_result log_requests fold_left log_request next_uuid
           accessToken results uuids questions prompts files].
    rewrite Hf, app_nil_r. repeat split; reflexivity.
  - destruct (generate_succeeds env g (product_name p)
                (product_description p) st Himg) as (b & Hg).
    rewrite (batch_item_generated env g p st b _ Hf Hg). unfold try_catch.
    match goal with
    | |- context [upload_step env p _ b ?s] =>
        destruct (upload_step_succeeds env p b s Hauth Hhttp) as (cover & ->)
    end.
    eexists. split; [reflexivity|].
    rewrite (has_preview_none env st p Hf).
    cbn [push_result requests].
    rewrite filter_create_log_requests.
    unfold has_preview.
    cbn [push_result log_requests fold_left log_request next_uuid
           write_file log_prompt
           accessToken results uuids questions prompts files requests].
    rewrite lookup_insert_eq.
    repeat split; try reflexivity.
    intros q Hq. rewrite lookup_insert_ne by congruence. reflexivity.
Qed.

(** A batch run in which nothing fails: one [uploaded] record per
    product, one image request per product without a preview file, one
    run of the upload protocol per product. *)
Lemma batch_run_succeeds g ps :
  forall st,
    authenticated st ->
    List.NoDup (map (previewPath env) ps) ->
    exists st',
      for_products env true g ps st = (Val tt, st')
      /\ accessToken st' = accessToken st
      /\ results st' = results st ++ map uploaded_result ps
      /\ prompts st'
         = prompts st
           ++ map (prompt_for g)
                (List.filter (fun p => negb (has_preview env st p)) ps)
      /\ uuids st' = uuids st + length ps
      /\ length (List.filter is_create_media (requests st'))
         = length (List.filter is_create_media (requests st)) + length ps
      /\ questions st' = questions st.
Proof.
  induction ps as [|p rest IH]; intros st Hauth Hnd.
  - exists st. cbn. rewrite !app_nil_r, !Nat.add_0_r.
    repeat split; reflexivity.
  - destruct (batch_item_succeeds g p st Hauth)
      as (st1 & Hb & Ht & Hr & Hu & Hqs & Hp & _ & Hother & Hc).
    cbn [map] in Hnd. apply NoDup_cons_iff in Hnd as [Hnotin Hnd].
    destruct (IH st1) as (st' & Hf & Ht' & Hr' & Hp' & Hu' & Hc' & Hqs');
      [unfold authenticated in *; congruence|exact Hnd|].
    exists st'. rewrite (for_products_cons env _ _ _ _ _ _ _ Hb).
    split; [exact Hf|]. split; [congruence|].
    split; [rewrite Hr', Hr, <- app_assoc; reflexivity|].
    split; [|split; [|split]].
    + rewrite Hp', Hp, <- app_assoc. f_equal.
      assert (Hext : List.filter (fun q => negb (has_preview env st1 q)) rest
                     = List.filter (fun q => negb (has_preview env st q)) rest).
      { apply List.filter_ext_in. intros q Hq. f_equal. apply Hother.
        intros E. apply Hnotin. rewrite <- E. apply in_map, Hq. }
      rewrite Hext. cbn [List.filter].
      destruct (has_preview env st p); reflexivity.
    + rewrite Hu', Hu. cbn [length]. lia.
    + rewrite Hc', Hc, length_app. cbn [length]. lia.
    + congruence.
Qed.

End BatchRun.

(* ===================================================================== *)
(** * The claims                                                         *)
(* ===================================================================== *)

(** ** C1: pagination *)

Section PaginationClaim.
Variable env : Env.

(** C1 (amended).  Page size 25, a server that holds [T] items,
    reports [T] as the total on every page and returns the requested
    page, a client that is authenticated, fuel for the fetches.  Then
    [fetchAllProducts] returns; it has accumulated exactly the [T] items
    of the catalog (and reports [T] as total and the uncovered ones as
    [withoutImages]); and it has sent exactly [max 1 (ceil (T / 25))]
    search requests, for the pages 1, 2, ... in order, and nothing else.
    For [T >= 1] that is [ceil (T / 25)] requests, also when 25 does not
    divide [T]; for [T = 0] it is one request. *)
Theorem fetchAllProducts_pagination items channel fuel st :
  authenticated st ->
  serves_catalog env items ->
  Nat.max 1 (ceil_div (length items) limit) <= fuel ->
  fetchAllProducts_loop env fuel channel 1 [] st
  = (Val items,
     log_requests
       (search_requests (bearer (accessToken st)) channel 1
          (Nat.max 1 (ceil_div (length items) limit))) st)
  /\ fetchAllProducts env fuel channel st
     = (Val (length items, List.filter lacks_cover items),
        log_requests
          (search_requests (bearer (accessToken st)) channel 1
             (Nat.max 1 (ceil_div (length items) limit))) st)
  /\ requests
       (log_requests
          (search_requests (bearer (accessToken st)) channel 1
             (Nat.max 1 (ceil_div (length items) limit))) st)
     = requests st
       ++ search_requests (bearer (accessToken st)) channel 1
            (Nat.max 1 (ceil_div (length items) limit))
  /\ length (search_requests (bearer (accessToken st)) channel 1
               (Nat.max 1 (ceil_div (length items) limit)))
     = Nat.max 1 (ceil_div (length items) limit)
  /\ (1 <= length items ->
      Nat.max 1 (ceil_div (length items) limit)
      = ceil_div (length items) limit)
  /\ (length items = 0 ->
      Nat.max 1 (ceil_div (length items) limit) = 1).
Proof.
  intros Hauth Hserve Hfuel.
  pose proof (fetchAllProducts_loop_serves env items Hserve channel fuel 1 st
                Hauth (Nat.le_refl 1)) as Hloop.
  cbn [Nat.sub Nat.mul firstn] in Hloop.
  rewrite Nat.sub_0_r in Hloop. specialize (Hloop Hfuel).
  split; [exact Hloop|]. split.
  - unfold fetchAllProducts. mval Hloop. reflexivity.
  - split; [apply requests_log_requests|].
    split; [apply length_search_requests|]. split.
    + intros Hpos. unfold limit. pose proof (ceil_div_pos _ Hpos). lia.
    + intros ->. reflexivity.
Qed.
End PaginationClaim.

(** A catalog of 26 items is listed with two requests. *)
Lemma fetchAllProducts_pagination_witness :
  fetchAllProducts Sample.big_shop_world 2 "channel-1" (Sample.start ∅)
  = (Val (26, Sample.many 26),
     log_requests (search_requests "Bearer token-1" "channel-1" 1 2)
       (Sample.start ∅)).
Proof.
  refine (proj1 (proj2 (fetchAllProducts_pagination Sample.big_shop_world
                          (Sample.many 26) "channel-1" 2 (Sample.start ∅)
                          _ _ _))).
  - reflexivity.
  - intros k auth lim page channel wm. eexists. repeat split.
  - vm_compute. lia.
Defined.

(** The claim as stated fails for [T = 0]: an empty catalog takes one
    request, and [ceil (0 / 25)] is [0]. *)
Lemma empty_catalog_takes_one_fetch :
  fetchAllProducts Sample.empty_shop_world 1 "channel-1" (Sample.start ∅)
  = (Val (0, []),
     log_requests [PostSearchProduct "Bearer token-1" 25 1 "channel-1" false]
       (Sample.start ∅))
  /\ length (requests
               (snd (fetchAllProducts Sample.empty_shop_world 1 "channel-1"
                       (Sample.start ∅)))) = 1
  /\ length (requests
               (snd (fetchAllProducts Sample.empty_shop_world 1 "channel-1"
                       (Sample.start ∅)))) <> ceil_div 0 25.
Proof.
  split; [reflexivity|]. split; [reflexivity|]. vm_compute. discriminate.
Qed.

(** ** C2: a failed upload *)

Section UploadFailureClaim.
Variable env : Env.

(** C2.  When the media record is created (step 1 answers with
    success) and the upload of the bytes is answered with a non-success
    response, [uploadMedia] throws the error whose message names the
    upload step and carries the status and body of that response; the
    upload step of [main] throws the same error without calling
    [assignMediaToProduct], the catch clause records the product as
    failed with that message, and the only requests of the whole step are
    the creation and the upload: no association, no cover patch, and no
    request that would undo the creation.  In a batch run over a product
    with a preview file this is the whole pass through the loop body, and
    the loop goes on with the next product. *)
Theorem upload_failure_stops_protocol p buf st r1 r2 :
  authenticated st ->
  http env (length (requests st)) (create_media_request env st)
    = Resolved r1 ->
  ok r1 = true ->
  http env (S (length (requests st)))
    (upload_request env st (upload_name p) buf) = Resolved r2 ->
  ok r2 = false ->
  uploadMedia env buf (upload_name p) st
  = (Thrown (http_failure "Failed to upload media file" r2),
     log_requests [create_media_request env st;
                   upload_request env st (upload_name p) buf]
       (next_uuid st))
  /\ upload_step env p (product_name p) buf st
     = (Thrown (http_failure "Failed to upload media file" r2),
        log_requests [create_media_request env st;
                      upload_request env st (upload_name p) buf]
          (next_uuid st))
  /\ try_catch (upload_step env p (product_name p) buf)
       (catch_clause p (product_name p)) st
     = (Val Continue,
        push_result
          (failed_result p (http_failure "Failed to upload media file" r2))
          (log_requests [create_media_request env st;
                         upload_request env st (upload_name p) buf]
             (next_uuid st)))
  /\ message_of (http_failure "Failed to upload media file" r2)
     = "Failed to upload media file (" +:+ Js.show_nat (http_status r2)
       +:+ "): " +:+ text r2
  /\ forallb (fun r => negb (is_step3 r))
       [create_media_request env st;
        upload_request env st (upload_name p) buf] = true
  /\ (forall g rest,
        files st !! previewPath env p = Some buf ->
        loop_body env true g p st
        = (Val Continue,
           push_result
             (failed_result p (http_failure "Failed to upload media file" r2))
             (log_requests [create_media_request env st;
                            upload_request env st (upload_name p) buf]
                (next_uuid st)))
        /\ for_products env true g (p :: rest) st
           = for_products env true g rest
               (push_result
                  (failed_result p
                     (http_failure "Failed to upload media file" r2))
                  (log_requests [create_media_request env st;
                                 upload_request env st (upload_name p) buf]
                     (next_uuid st)))).
Proof.
  intros Hauth H1 Hok1 H2 Hok2.
  pose proof (uploadMedia_upload_refused env buf (upload_name p) st r1 r2
                Hauth H1 Hok1 H2 Hok2) as Hup.
  pose proof (upload_step_uploadMedia_throws env p buf st _ _ Hup) as Hstep.
  assert (Hcatch :
    try_catch (upload_step env p (product_name p) buf)
      (catch_clause p (product_name p)) st
    = (Val Continue,
       push_result
         (failed_result p (http_failure "Failed to upload media file" r2))
         (log_requests [create_media_request env st;
                        upload_request env st (upload_name p) buf]
            (next_uuid st)))).
  { unfold try_catch. rewrite Hstep. reflexivity. }
  split; [exact Hup|]. split; [exact Hstep|]. split; [exact Hcatch|].
  split; [reflexivity|]. split; [reflexivity|].
  intros g rest Hf.
  assert (Hbody : loop_body env true g p st
                  = (Val Continue,
                     push_result
                       (failed_result p
                          (http_failure "Failed to upload media file" r2))
                       (log_requests
                          [create_media_request env st;
                           upload_request env st (upload_name p) buf]
                          (next_uuid st)))).
  { rewrite (batch_item_cached env g p st buf Hf). exact Hcatch. }
  split; [exact Hbody|].
  apply (for_products_cons env _ _ _ _ _ _ _ Hbody).
Qed.
End UploadFailureClaim.

(** The server refuses the upload with status 500: the product is recorded
    as failed, and only the creation and the upload were requested. *)
Lemma upload_failure_stops_protocol_witness :
  loop_body Sample.refusing_world true Sample.generator Sample.p1
    (Sample.start Sample.one_preview)
  = (Val Continue,
     push_result
       {| productId := "1"; productName := "Product 1"; status := failed;
          error := Some "Failed to upload media file (500): disk full" |}
       (log_requests
          [PostMedia "Bearer token-1" "0a1b0";
           PostMediaUpload "Bearer token-1" "0a1b0" "ai-product-1" Sample.png]
          (next_uuid (Sample.start Sample.one_preview)))).
Proof.
  destruct (upload_failure_stops_protocol Sample.refusing_world Sample.p1
              Sample.png (Sample.start Sample.one_preview)
              (Sample.response true 204 ""
                 (Some "https://shop.test/api/product-media/pm1") [] 0%Z)
              (Sample.response false 500 "disk full" None [] 0%Z)
              eq_refl eq_refl eq_refl eq_refl eq_refl)
    as (_ & _ & _ & _ & _ & H).
  exact (proj1 (H Sample.generator [] eq_refl)).
Defined.

(** ** C3: errors of one product *)

Section ItemErrorClaim.
Variable env : Env.

(** C3.  For every product and every mode, whatever the servers and
    the operator do, one pass through the loop body ends in one of three
    ways.  (1) The try block threw [e] (from the generator, the upload or
    the assignment): the catch clause pushes one record for the product
    with status [failed] and the message of [e], and the loop goes on
    with the next product.  (2) The try block ended normally: one record
    for the product, [uploaded] or [skipped], was pushed, and the loop
    goes on.  (3) Interactive mode only, answer [q] to the first question:
    the loop is left and no record is pushed.  The body itself never
    throws.  An error thrown by [uploadMedia] or by
    [assignMediaToProduct] is caught and recorded as failed with its
    message, and so is an error of the generator in batch mode.  A whole
    run never throws: it returns with records for a prefix of the
    products in order, and in batch mode with exactly one record for
    every product. *)
Theorem item_errors_are_recorded batch g p st :
  match item_try env batch g p st with
  | (Thrown e, st1) =>
      loop_body env batch g p st
      = (Val Continue, push_result (failed_result p e) st1)
      /\ results st1 = results st
      /\ status (failed_result p e) = failed
      /\ error (failed_result p e) = Some (message_of e)
      /\ forall rest,
          for_products env batch g (p :: rest) st
          = for_products env batch g rest
              (push_result (failed_result p e) st1)
  | (Val Continue, st1) =>
      loop_body env batch g p st = (Val Continue, st1)
      /\ (results st1 = results st ++ [uploaded_result p]
          \/ results st1 = results st ++ [skipped_result p])
  | (Val Break, st1) =>
      loop_body env batch g p st = (Val Break, st1)
      /\ results st1 = results st
      /\ batch = false
      /\ answer env (length (questions st)) = "q"
  | (OutOfFuel, _) => False
  end
  /\ (forall buf e st0 st1,
        uploadMedia env buf (upload_name p) st0 = (Thrown e, st1) ->
        try_catch (upload_step env p (product_name p) buf)
          (catch_clause p (product_name p)) st0
        = (Val Continue, push_result (failed_result p e) st1))
  /\ (forall buf mediaId e st0 st1 st2,
        uploadMedia env buf (upload_name p) st0 = (Val mediaId, st1) ->
        assignMediaToProduct env (id p) mediaId st1 = (Thrown e, st2) ->
        try_catch (upload_step env p (product_name p) buf)
          (catch_clause p (product_name p)) st0
        = (Val Continue, push_result (failed_result p e) st2))
  /\ (forall e st1,
        files st !! previewPath env p = None ->
        generate env g (product_name p) (product_description p) st
          = (Thrown e, st1) ->
        loop_body env true g p st
        = (Val Continue, push_result (failed_result p e) st1))
  /\ (forall ps,
        exists st' rs,
          for_products env batch g ps st = (Val tt, st')
          /\ results st' = results st ++ rs
          /\ map productId rs = map id (firstn (length rs) ps)
          /\ (batch = true -> length rs = length ps)).
Proof.
  split; [|split; [|split; [|split]]].
  - pose proof (loop_body_eq env batch g p st) as Hbody.
    unfold try_catch in Hbody.
    pose proof (item_ok_try_block env batch g p (has_preview env st p) st)
      as [_ Hpost].
    fold (item_try env batch g p st) in Hpost.
    destruct (item_try env batch g p st) as [[[|]|e|] st1] eqn:E;
      cbn in Hpost.
    + split; [exact Hbody|].
      destruct Hpost as (s & [-> | ->] & Hr); [left|right]; exact Hr.
    + split; [exact Hbody|]. split; [exact Hpost|].
      apply (break_only_on_q env batch g p st st1 Hbody).
    + split; [exact Hbody|]. split; [exact Hpost|].
      split; [reflexivity|]. split; [reflexivity|].
      intros rest. apply (for_products_cons env _ _ _ _ _ _ _ Hbody).
    + exact Hpost.
  - intros buf e st0 st1 H. unfold try_catch.
    rewrite (upload_step_uploadMedia_throws env p buf st0 e st1 H).
    reflexivity.
  - intros buf mediaId e st0 st1 st2 H1 H2. unfold try_catch.
    rewrite (upload_step_assign_throws env p buf st0 mediaId st1 e st2 H1 H2).
    reflexivity.
  - intros e st1. apply batch_item_generate_throws.
  - intros ps.
    destruct (for_products_results env batch g ps st)
      as (st' & rs & H1 & _ & H2 & H3 & H4).
    exists st', rs. auto.
Qed.
End ItemErrorClaim.

(** The image API returns no image for the first of three products: it is
    recorded as failed with the generator's message, and the run goes on
    with the other two. *)
Lemma item_errors_are_recorded_witness :
  loop_body Sample.no_image_world true Sample.generator Sample.p0
    (Sample.start ∅)
  = (Val Continue,
     push_result
       {| productId := "0"; productName := "Product 0"; status := failed;
          error := Some "No image data returned from OpenAI" |}
       (log_prompt (prompt_for Sample.generator Sample.p0) (Sample.start ∅)))
  /\ for_products Sample.no_image_world true Sample.generator
       [Sample.p0; Sample.p1; Sample.p2] (Sample.start ∅)
     = for_products Sample.no_image_world true Sample.generator
         [Sample.p1; Sample.p2]
         (push_result
            (failed_result Sample.p0
               (JsError "No image data returned from OpenAI"))
            (log_prompt (prompt_for Sample.generator Sample.p0)
               (Sample.start ∅))).
Proof.
  pose proof (item_errors_are_recorded Sample.no_image_world true
                Sample.generator Sample.p0 (Sample.start ∅)) as [H1 H2].
  split.
  - exact (proj1 (proj2 (proj2 H2))
             (JsError "No image data returned from OpenAI")
             (log_prompt (prompt_for Sample.generator Sample.p0)
                (Sample.start ∅))
             eq_refl eq_refl).
  - exact (proj2 (proj2 (proj2 (proj2 H1))) [Sample.p1; Sample.p2]).
Defined.

(** ** C4: quitting *)

Section QuitClaim.
Variable env : Env.

(** C4.  Interactive mode.  When the answer to the first question
    for a product (the question about the existing image, or the question
    whether to generate) is [q], the loop ends there: the question is the
    only thing that happens, no record is pushed for the product, and the
    products after it are not looked at.  So when the first of at least
    two products was handled without quitting and the answer at the first
    question for the second is [q], the run ends with exactly the one
    record of the first product added, whatever products follow. *)
Theorem quit_stops_loop g st :
  (forall p rest,
      answer env (length (questions st)) = "q" ->
      for_products env false g (p :: rest) st
      = (Val tt, log_question (first_question env st p) st)
      /\ results (log_question (first_question env st p) st) = results st)
  /\ (forall p1 p2 rest st1,
        loop_body env false g p1 st = (Val Continue, st1) ->
        answer env (length (questions st1)) = "q" ->
        exists r1,
          productId r1 = id p1
          /\ results st1 = results st ++ [r1]
          /\ for_products env false g (p1 :: p2 :: rest) st
             = (Val tt, log_question (first_question env st1 p2) st1)
          /\ results (log_question (first_question env st1 p2) st1)
             = results st ++ [r1]).
Proof.
  split.
  - intros p rest Hq. split; [|reflexivity].
    rewrite (for_products_cons env _ _ _ _ _ _ _
               (quit_at_first_prompt env g p st Hq)).
    reflexivity.
  - intros p1 p2 rest st1 H1 Hq.
    destruct (loop_body_cases env false g p1 st)
      as (c & st1' & Hb & _ & Hc).
    rewrite H1 in Hb. injection Hb as <- <-.
    destruct Hc as (r1 & Hr & Hid).
    exists r1. split; [exact Hid|]. split; [exact Hr|]. split.
    + rewrite (for_products_cons env _ _ _ _ _ _ _ H1).
      rewrite (for_products_cons env _ _ _ _ _ _ _
                 (quit_at_first_prompt env g p2 st1 Hq)).
      reflexivity.
    + exact Hr.
Qed.
End QuitClaim.

(** Five products; the operator declines the first and types [Q] at the
    second: the run ends with the one record of the first product. *)
Lemma quit_stops_loop_witness :
  exists st',
    for_products Sample.skip_then_quit_world false Sample.generator
      [Sample.p0; Sample.p1; Sample.p2; Sample.p3; Sample.p4]
      (Sample.start ∅)
    = (Val tt, st')
    /\ results st' = [skipped_result Sample.p0].
Proof.
  assert (H1 : loop_body Sample.skip_then_quit_world false Sample.generator
                 Sample.p0 (Sample.start ∅)
               = (Val Continue,
                  snd (loop_body Sample.skip_then_quit_world false
                         Sample.generator Sample.p0 (Sample.start ∅)))).
  { vm_compute. reflexivity. }
  assert (H2 : answer Sample.skip_then_quit_world
                 (length (questions
                    (snd (loop_body Sample.skip_then_quit_world false
                            Sample.generator Sample.p0 (Sample.start ∅)))))
               = "q").
  { vm_compute. reflexivity. }
  destruct (proj2 (quit_stops_loop Sample.skip_then_quit_world
                     Sample.generator (Sample.start ∅))
              Sample.p0 Sample.p1 [Sample.p2; Sample.p3; Sample.p4] _ H1 H2)
    as (r1 & _ & _ & Hrun & _).
  eexists. split; [exact Hrun|]. vm_compute. reflexivity.
Defined.

(** ** C5: the filter *)

Section FilterClaim.
Variable env : Env.

(** C5 (amended).  Whatever pages the server returns, when
    [fetchAllProducts] returns, the total is the number of items
    accumulated from the fetched pages, and [withoutImages] is exactly the
    accumulated items, in order, whose cover reference is [null] or the
    empty string; it never contains an item with a non-empty cover
    reference.  Against a server that holds the catalog [items], with
    fuel for the fetches, [fetchAllProducts] does return, and
    [withoutImages] is exactly the items of the catalog whose cover
    reference is [null] or the empty string. *)
Theorem withoutImages_are_the_uncovered channel fuel st :
  (forall n withoutImages st',
      fetchAllProducts env fuel channel st = (Val (n, withoutImages), st') ->
      exists new,
        st' = log_requests new st
        /\ n = length (fetched_data env (length (requests st)) new)
        /\ withoutImages
           = List.filter lacks_cover
               (fetched_data env (length (requests st)) new)
        /\ (forall p,
              In p withoutImages <->
              In p (fetched_data env (length (requests st)) new)
              /\ (coverId p = None \/ coverId p = Some ""))
        /\ (forall p c s,
              In p withoutImages -> coverId p <> Some (String c s)))
  /\ (forall items,
        authenticated st ->
        serves_catalog env items ->
        Nat.max 1 (ceil_div (length items) limit) <= fuel ->
        exists st',
          fetchAllProducts env fuel channel st
          = (Val (length items, List.filter lacks_cover items), st')
          /\ (forall p,
                In p (List.filter lacks_cover items) <->
                In p items /\ (coverId p = None \/ coverId p = Some ""))
          /\ (forall p c s,
                In p (List.filter lacks_cover items) ->
                coverId p <> Some (String c s))).
Proof.
  split.
  - intros n withoutImages st'.
    unfold fetchAllProducts, bind.
    destruct (fetchAllProducts_loop env fuel channel 1 [] st)
      as [[acc|e|] st1] eqn:Hloop; try discriminate.
    intros [= <- <- <-].
    apply fetchAllProducts_loop_accumulates in Hloop as (new & -> & ->).
    exists new. cbn [app]. split; [reflexivity|]. split; [reflexivity|].
    split; [reflexivity|]. split.
    + intros p. rewrite filter_In, lacks_cover_iff. reflexivity.
    + intros p c s H Hc. apply filter_In in H as [_ H].
      apply lacks_cover_iff in H as [H|H]; congruence.
  - intros items Hauth Hserve Hfuel.
    pose proof (fetchAllProducts_loop_serves env items Hserve channel fuel 1
                  st Hauth (Nat.le_refl 1)) as Hloop.
    cbn [Nat.sub Nat.mul firstn] in Hloop.
    rewrite Nat.sub_0_r in Hloop. specialize (Hloop Hfuel).
    eexists. split; [|split].
    + unfold fetchAllProducts. mval Hloop. reflexivity.
    + intros p. rewrite filter_In, lacks_cover_iff. reflexivity.
    + intros p c s H Hc. apply filter_In in H as [_ H].
      apply lacks_cover_iff in H as [H|H]; congruence.
Qed.
End FilterClaim.

(** A catalog with one product without cover, one with a cover and one
    with an empty cover id: the first and the third are returned. *)
Lemma withoutImages_are_the_uncovered_witness :
  exists st',
    fetchAllProducts Sample.mixed_shop_world 1 "channel-1" (Sample.start ∅)
    = (Val (3, [Sample.product "a" None; Sample.product "c" (Some "")]), st').
Proof.
  destruct (proj2 (withoutImages_are_the_uncovered Sample.mixed_shop_world
                     "channel-1" 1 (Sample.start ∅)) Sample.mixed)
    as (st' & H & _).
  - reflexivity.
  - intros k auth lim page channel wm. eexists. repeat split.
  - vm_compute. lia.
  - exists st'. exact H.
Defined.

(** The claim as stated fails for an empty cover id: the product is in
    [withoutImages] although its cover reference is not [null]. *)
Lemma empty_cover_id_counts_as_missing :
  fst (fetchAllProducts Sample.mixed_shop_world 1 "channel-1" (Sample.start ∅))
  = Val (3, [Sample.product "a" None; Sample.product "c" (Some "")])
  /\ In (Sample.product "c" (Some ""))
       [Sample.product "a" None; Sample.product "c" (Some "")]
  /\ coverId (Sample.product "c" (Some "")) <> None.
Proof.
  split; [reflexivity|]. split; [right; left; reflexivity|discriminate].
Qed.

(** ** C6: batch mode *)

Section BatchClaim.
Variable env : Env.

End BatchClaim.


(** ** C7: the prompt *)

(** C7.  [buildPrompt] is a function of the template, the name and the
    description alone.  Without a description ([null]) the prompt is the
    template, an empty line and the name line, and nothing else.  With a
    non-empty description one line is added, holding the description after
    the clean-up; the cleaned text has no tag left, its white space is
    single spaces, and it neither starts nor ends with white space.  For
    the description [<b>Desc</b>  x] the added line reads
    [Product description: Desc x].  (An empty description is falsy and
    adds no line either.)

    The cleaned text is the text of the description itself: it consists
    of the words of the description after each tag has been replaced by a
    space, in their order, one space apart.  Replacing the tags leaves a
    text without tags as it is, and in [a<t>b], where [a] has no [<] and
    [t] no [>], puts one space for [<t>], keeps [a] and goes on with [b];
    so the words before a tag and the words after it are all kept and the
    tag is dropped.  A text without tags whose words are one space apart
    is interpolated unchanged. *)
Theorem buildPrompt_spec (template name : string) :
  buildPrompt template name None
  = template +:+ nl +:+ nl +:+ "Product name: " +:+ name
  /\ (forall c d,
        buildPrompt template name (Some (String c d))
        = buildPrompt template name None
          +:+ nl +:+ "Product description: " +:+ clean_markup (String c d))
  /\ (forall d,
        has_tag (clean_markup d) = false
        /\ spaces_single (clean_markup d) = true
        /\ starts_with_space (clean_markup d) = false
        /\ ends_with_space (clean_markup d) = false)
  /\ clean_markup "<b>Desc</b>  x" = "Desc x"
  /\ buildPrompt template name (Some "<b>Desc</b>  x")
     = buildPrompt template name None
       +:+ nl +:+ "Product description: Desc x"
  /\ buildPrompt template name (Some "") = buildPrompt template name None
  /\ Js.includes "Desc x" (buildPrompt template name (Some "<b>Desc</b>  x"))
     = true
  /\ (forall d, clean_markup d = unwords (words (Js.replace_tags d)))
  /\ (forall s, has_tag s = false -> Js.replace_tags s = s)
  /\ (forall a t b,
        has_lt a = false -> Js.has_gt t = false ->
        Js.replace_tags (a +:+ "<" +:+ t +:+ ">" +:+ b)
        = a +:+ " " +:+ Js.replace_tags b)
  /\ (forall a t b,
        has_lt a = false -> Js.has_gt t = false ->
        clean_markup (a +:+ "<" +:+ t +:+ ">" +:+ b)
        = unwords (words a ++ words (Js.replace_tags b)))
  /\ (forall d,
        has_tag d = false -> spaces_single d = true ->
        starts_with_space d = false -> ends_with_space d = false ->
        clean_markup d = d).
Proof.
  split; [reflexivity|]. split; [reflexivity|]. split.
  { intros d. split; [apply JsFacts.clean_markup_no_tag|].
    apply JsFacts.clean_markup_spaces. }
  split; [reflexivity|]. split; [reflexivity|]. split; [reflexivity|].
  split.
  { change (buildPrompt template name (Some "<b>Desc</b>  x"))
      with (buildPrompt template name None
            +:+ nl +:+ "Product description: Desc x").
    apply JsFacts.includes_append. apply JsFacts.includes_append.
    reflexivity. }
  split; [exact CleanFacts.clean_markup_words|].
  split; [exact CleanFacts.replace_tags_plain|].
  split; [exact CleanFacts.replace_tags_first_tag|].
  split; [|exact CleanFacts.clean_markup_id].
  intros a t b Ha Ht.
  rewrite CleanFacts.clean_markup_words,
    (CleanFacts.replace_tags_first_tag a t b Ha Ht).
  rewrite CleanFacts.words_append. reflexivity.
Qed.

(** A line break between two words: the tag goes, the words stay. *)
Lemma buildPrompt_spec_witness :
  clean_markup ("Mug " +:+ "<" +:+ "br/" +:+ ">" +:+ "blue")
  = unwords (words "Mug " ++ words (Js.replace_tags "blue"))
  /\ unwords (words "Mug " ++ words (Js.replace_tags "blue")) = "Mug blue".
Proof.
  destruct (buildPrompt_spec "" "")
    as (_ & _ & _ & _ & _ & _ & _ & _ & _ & _ & H & _).
  split; [apply H; reflexivity|reflexivity].
Defined.

(** ** C8: the question after a fresh generation *)

Section UploadPromptClaim.
Variable env : Env.

(** C8.  Interactive mode, a product without a preview file, the
    operator answers [y] to the question whether to generate and the
    generator returns an image.  If the answer to the following question
    "Upload this image to Shopware? (y/n/r=regenerate)" is neither [y]
    nor [r], then the product is recorded as skipped, nothing is sent to
    the catalog, and the loop goes on with the next product.  The answer
    [q] is such an answer: it does not end the loop here.  The loop is
    left only on the answer [q] to the first question for a product. *)
Theorem upload_prompt_other_answers_skip g p st b st1 a :
  has_preview env st p = false ->
  answer env (length (questions st)) = "y" ->
  generate env g (product_name p) (product_description p)
    (log_question q_generate st) = (Val b, st1) ->
  answer env (S (length (questions st))) = a ->
  a = "q" \/ (a <> "y" /\ a <> "r") ->
  loop_body env false g p st
  = (Val Continue,
     push_result (skipped_result p)
       (log_question q_upload_regen
          (write_file (previewPath env p) b st1)))
  /\ requests (push_result (skipped_result p)
                 (log_question q_upload_regen
                    (write_file (previewPath env p) b st1)))
     = requests st
  /\ (forall rest,
        for_products env false g (p :: rest) st
        = for_products env false g rest
            (push_result (skipped_result p)
               (log_question q_upload_regen
                  (write_file (previewPath env p) b st1))))
  /\ (forall batch g' p' st0 st2,
        loop_body env batch g' p' st0 = (Val Break, st2) ->
        batch = false /\ answer env (length (questions st0)) = "q").
Proof.
  intros Hprev Hy Hgen Ha Hother.
  assert (Hny : String.eqb a "y" = false /\ String.eqb a "r" = false).
  { destruct Hother as [-> | [H1 H2]]; [split; reflexivity|].
    split; apply String.eqb_neq; assumption. }
  destruct Hny as [Hny Hnr].
  pose proof (generate_state env _ _ _ _ _ _ Hgen) as Hst1.
  assert (Hbody : loop_body env false g p st
                  = (Val Continue,
                     push_result (skipped_result p)
                       (log_question q_upload_regen
                          (write_file (previewPath env p) b st1)))).
  { rewrite loop_body_eq. unfold try_catch, item_try.
    rewrite Hprev. cbn [try_block].
    mval (ask_eq env q_generate st). rewrite Hy.
    cbn [String.eqb Ascii.eqb Bool.eqb negb].
    mval Hgen.
    mval (writeFileSync_eq (previewPath env p) b st1).
    mval (ask_eq env q_upload_regen (write_file (previewPath env p) b st1)).
    assert (Hlen : length (questions (write_file (previewPath env p) b st1))
                   = S (length (questions st))).
    { rewrite Hst1. cbn [write_file log_prompt log_question questions].
      rewrite length_app. cbn [length]. lia. }
    rewrite Hlen, Ha, Hnr, Hny. reflexivity. }
  split; [exact Hbody|]. split; [|split].
  - rewrite Hst1. reflexivity.
  - intros rest. rewrite (for_products_cons env _ _ _ _ _ _ _ Hbody).
    reflexivity.
  - intros batch g' p' st0 st2. apply break_only_on_q.
Qed.
End UploadPromptClaim.

(** The operator answers [Y] and then [q]: the product is recorded as
    skipped and the loop goes on. *)
Lemma upload_prompt_other_answers_skip_witness :
  fst (loop_body Sample.yes_then_q_world false Sample.generator Sample.p0
         (Sample.start ∅)) = Val Continue
  /\ results (snd (loop_body Sample.yes_then_q_world false Sample.generator
                     Sample.p0 (Sample.start ∅)))
     = [skipped_result Sample.p0]
  /\ requests (snd (loop_body Sample.yes_then_q_world false Sample.generator
                      Sample.p0 (Sample.start ∅))) = [].
Proof.
  assert (Hprev : has_preview Sample.yes_then_q_world (Sample.start ∅)
                    Sample.p0 = false).
  { vm_compute. reflexivity. }
  assert (Hgen : generate Sample.yes_then_q_world Sample.generator
                   (product_name Sample.p0) (product_description Sample.p0)
                   (log_question q_generate (Sample.start ∅))
                 = (Val (base64_decode Sample.yes_then_q_world "aGVsbG8="),
                    log_prompt (prompt_for Sample.generator Sample.p0)
                      (log_question q_generate (Sample.start ∅)))).
  { vm_compute. reflexivity. }
  destruct (upload_prompt_other_answers_skip Sample.yes_then_q_world
              Sample.generator Sample.p0 (Sample.start ∅) _ _ "q"
              Hprev eq_refl Hgen eq_refl (or_introl eq_refl))
    as (Hbody & _).
  rewrite Hbody. repeat split.
Defined.

(** ** C9: the cover patch *)

Section CoverClaim.
Variable env : Env.

(** C9.  In [assignMediaToProduct], when the association request
    succeeded but its answer has no location header, or one whose last
    path segment is empty, the call throws with the association request
    as its only request: no cover patch is sent.  And in every run of
    [assignMediaToProduct], whatever the server does, a cover patch that
    is sent is for the product of the call and carries the non-empty
    last segment of the location of the successful answer to the
    association request of this call. *)
Theorem assignMediaToProduct_cover_from_location productId mediaId st :
  (forall r,
      authenticated st ->
      http env (length (requests st))
        (association_request st productId mediaId) = Resolved r ->
      ok r = true ->
      (location r = None
       \/ exists loc, location r = Some loc /\ Js.last_segment loc = "") ->
      assignMediaToProduct env productId mediaId st
      = (Thrown (JsError "Failed to get product-media ID from response"),
         log_requests [association_request st productId mediaId] st))
  /\ (exists new,
        snd (assignMediaToProduct env productId mediaId st)
        = log_requests new st
        /\ forall auth pid cover,
            In (PatchProduct auth pid cover) new ->
            pid = productId /\ cover <> ""
            /\ exists r loc,
                http env (length (requests st))
                  (association_request st productId mediaId) = Resolved r
                /\ ok r = true
                /\ location r = Some loc
                /\ cover = Js.last_segment loc).
Proof.
  split.
  - intros r Hauth Hr Hok Hloc.
    unfold assignMediaToProduct.
    mval (getHeaders_authenticated st Hauth).
    mval (fetch_resolved env _ _ st Hr).
    rewrite Hok. cbn [negb].
    destruct Hloc as [-> | (loc & -> & Hseg)]; cbn [option_map].
    + reflexivity.
    + rewrite Hseg. reflexivity.
  - unfold assignMediaToProduct, association_request.
    unfold bind at 1. unfold getHeaders at 1.
    destruct (Js.truthy (accessToken st)) eqn:Hauth; cbn [negb].
    2:{ exists []. split; [reflexivity|]. intros ? ? ? []. }
    unfold bind at 1. unfold fetch at 1.
    destruct (http env (length (requests st))
                (PostProductMedia (bearer (accessToken st)) productId mediaId))
      as [e|r] eqn:Hr.
    { eexists [_]. split; [reflexivity|].
      intros ? ? ? H. apply In_singleton_request in H. discriminate H. }
    destruct (ok r) eqn:Hok; cbn [negb].
    2:{ eexists [_]. split; [reflexivity|].
        intros ? ? ? H. apply In_singleton_request in H. discriminate H. }
    destruct (location r) as [loc|] eqn:Hloc; cbn [option_map].
    2:{ eexists [_]. split; [reflexivity|].
        intros ? ? ? H. apply In_singleton_request in H. discriminate H. }
    destruct (Js.last_segment loc) as [|c s] eqn:Hseg.
    { eexists [_]. split; [reflexivity|].
      intros ? ? ? H. apply In_singleton_request in H. discriminate H. }
    exists [PostProductMedia (bearer (accessToken st)) productId mediaId;
            PatchProduct (bearer (accessToken st)) productId (String c s)].
    split.
    { unfold bind, getHeaders, fetch. cbn [log_request accessToken].
      rewrite Hauth. cbn [negb].
      destruct (http env _ (PatchProduct _ _ _)) as [e|r2]; [reflexivity|].
      destruct (ok r2); reflexivity. }
    intros auth pid cover [H|H]; [discriminate H|].
    apply In_singleton_request in H. injection H as -> -> ->.
    split; [reflexivity|]. split; [discriminate|].
    exists r, loc. rewrite Hseg. auto.
Qed.
End CoverClaim.

(** The association answer names a location that ends in a slash: the
    call throws, and the association request is the only request. *)
Lemma assignMediaToProduct_cover_from_location_witness :
  assignMediaToProduct Sample.no_location_world "1" "0a1b0" (Sample.start ∅)
  = (Thrown (JsError "Failed to get product-media ID from response"),
     log_requests [PostProductMedia "Bearer token-1" "1" "0a1b0"]
       (Sample.start ∅)).
Proof.
  apply (proj1 (assignMediaToProduct_cover_from_location
                  Sample.no_location_world "1" "0a1b0" (Sample.start ∅))
           (Sample.response true 204 ""
              (Some "https://shop.test/api/product-media/") [] 0%Z)).
  - reflexivity.
  - reflexivity.
  - reflexivity.
  - right. eexists. split; reflexivity.
Defined.

(** ** C10: the two listing functions *)

Section ListingClaim.
Variable env : Env.

(** C10.  When the server answers the search requests of the two
    functions alike (it does not look at the extra [media] association
    that [fetchProductsWithoutImages] asks for), then from the same state
    and with the same fuel both functions send the same number of
    requests, for the same pages, and end alike: both return, and then
    [fetchProductsWithoutImages] returns exactly the [withoutImages] list
    of [fetchAllProducts]; or both throw the same error; or both are
    still running when the fuel is used up. *)
Theorem fetchProductsWithoutImages_agrees channel fuel st :
  media_flag_ignored env ->
  exists o new,
    fetchAllProducts env fuel channel st = (o, log_requests new st)
    /\ fetchProductsWithoutImages env fuel channel st
       = (outcome_map snd o, log_requests (map with_media new) st)
    /\ length (map with_media new) = length new.
Proof.
  intros Hflag.
  destruct (listing_loops_agree env channel fuel Hflag 1 [] st st
              eq_refl eq_refl) as (o & new & H2 & H1).
  unfold fetchAllProducts, fetchProductsWithoutImages, bind.
  rewrite H1, H2.
  destruct o as [acc|e|].
  - eexists (Val (_, _)), new. cbn. repeat split. apply length_map.
  - exists (Thrown e), new. cbn. repeat split. apply length_map.
  - exists OutOfFuel, new. cbn. repeat split. apply length_map.
Qed.
End ListingClaim.

(** Against the catalog of 26 items both functions return the same 26
    products after two requests. *)
Lemma fetchProductsWithoutImages_agrees_witness :
  fst (fetchProductsWithoutImages Sample.big_shop_world 2 "channel-1"
         (Sample.start ∅))
  = outcome_map snd
      (fst (fetchAllProducts Sample.big_shop_world 2 "channel-1"
              (Sample.start ∅))).
Proof.
  destruct (fetchProductsWithoutImages_agrees Sample.big_shop_world
              "channel-1" 2 (Sample.start ∅))
    as (o & new & H1 & H2 & _).
  - intros k auth lim page channel. reflexivity.
  - rewrite H1, H2. reflexivity.
Defined.

(* ===================================================================== *)
(** * Running the model                                                  *)
(* ===================================================================== *)

Example replace_tags_nested :
  Js.replace_tags "<<>> a<b x > y < z > w" = " > a  y   w".
Proof. reflexivity. Qed.

Example clean_markup_paragraph :
  clean_markup ("  <p>Hello,   <b>world</b></p>" +:+ nl +:+ " ok ")
  = "Hello, world ok".
Proof. reflexivity. Qed.

Example last_segment_cases :
  Js.last_segment "https://shop.test/api/product-media/pm1" = "pm1"
  /\ Js.last_segment "https://shop.test/api/product-media/" = ""
  /\ Js.last_segment "" = "".
Proof. repeat split. Qed.

Example answer_is_normalised : Js.toLowerCase (Js.trim "  Q ") = "q".
Proof. reflexivity. Qed.

(** The number of search requests for catalogs of 0, 1, 25, 26, 49 and 50
    items, and the totals returned. *)
Example search_requests_by_total :
  map (fun T =>
         length (requests
                   (snd (fetchAllProducts
                           (Sample.world (Sample.shop (Sample.many T))
                              Sample.img_ok Sample.no_answers)
                           3 "channel-1" (Sample.start ∅)))))
    [0; 1; 25; 26; 49; 50]
  = [1; 1; 1; 2; 2; 2]
  /\ map (fun T =>
            outcome_map fst
              (fst (fetchAllProducts
                      (Sample.world (Sample.shop (Sample.many T))
                         Sample.img_ok Sample.no_answers)
                      3 "channel-1" (Sample.start ∅))))
       [0; 1; 25; 26; 49; 50]
     = [Val 0; Val 1; Val 25; Val 26; Val 49; Val 50].
Proof. split; vm_compute; reflexivity. Qed.

(** [main] in batch mode over a catalog of three products without
    images. *)
Example main_batch_three :
  fst (main (Sample.world (Sample.shop (Sample.many 3)) Sample.img_ok
               Sample.no_answers)
         5 false true Sample.config Sample.fresh)
  = Val (Summary 3 0 0 []).
Proof. vm_compute. reflexivity. Qed.

(** [main] in interactive mode: generate and upload the first product,
    decline the second, quit at the third. *)
Example main_interactive_quit :
  fst (main (Sample.world (Sample.shop (Sample.many 3)) Sample.img_ok
               (Sample.answers ["y"; "y"; "n"; "q"]))
         5 false false Sample.config Sample.fresh)
  = Val (Summary 1 1 0 []).
Proof. vm_compute. reflexivity. Qed.

(** [main] with the dry-run flag lists the products and stops. *)
Example main_dry_run :
  fst (main (Sample.world (Sample.shop Sample.mixed) Sample.img_ok
               Sample.no_answers)
         5 true false Sample.config Sample.fresh)
  = Val (DryRunListing [Sample.product "a" None; Sample.product "c" (Some "")]).
Proof. vm_compute. reflexivity. Qed.
(* ===================================================================== *)
(** * More facts                                                         *)
(* ===================================================================== *)

(** ** Strings *)

Module StringFacts.

Lemma append_cons c a b : String c a +:+ b = String c (a +:+ b).
Proof. reflexivity. Qed.

Lemma append_nil b : "" +:+ b = b.
Proof. reflexivity. Qed.

Lemma length_append a b :
  String.length (a +:+ b) = String.length a + String.length b.
Proof.
  induction a as [|c a IH]; [reflexivity|].
  rewrite append_cons. cbn [String.length]. rewrite IH. reflexivity.
Qed.

Lemma length_prefix n s :
  String.length (String.substring 0 n s) = Nat.min n (String.length s).
Proof.
  revert n. induction s as [|c r IH]; intros [|n]; cbn; try reflexivity.
  rewrite IH. reflexivity.
Qed.

Lemma prefix_split n s :
  exists rest, s = String.substring 0 n s +:+ rest.
Proof.
  revert n. induction s as [|c r IH]; intros [|n]; simpl.
  - exists "". reflexivity.
  - exists "". reflexivity.
  - exists (String c r). reflexivity.
  - destruct (IH n) as (rest & H). exists rest.
    rewrite append_cons. f_equal. exact H.
Qed.

Lemma has_gt_append a b :
  Js.has_gt (a +:+ b) = Js.has_gt a || Js.has_gt b.
Proof.
  induction a as [|c a IH]; [reflexivity|].
  rewrite append_cons. cbn [Js.has_gt]. rewrite IH. apply orb_assoc.
Qed.

Lemma has_tag_append_l a b : has_tag (a +:+ b) = false -> has_tag a = false.
Proof.
  induction a as [|c a IH]; [reflexivity|].
  rewrite append_cons. cbn [has_tag].
  intros H. apply orb_false_iff in H as [H1 H2].
  rewrite (IH H2), orb_false_r.
  rewrite has_gt_append in H1.
  destruct (Js.is_lt c); [|reflexivity].
  cbn [andb] in *. apply orb_false_iff in H1. apply H1.
Qed.

Lemma has_tag_append_dots a : has_tag (a +:+ "...") = has_tag a.
Proof.
  induction a as [|c a IH]; [reflexivity|].
  rewrite append_cons. cbn [has_tag].
  rewrite IH, has_gt_append.
  change (Js.has_gt "...") with false. rewrite orb_false_r. reflexivity.
Qed.

Lemma has_tag_prefix n s :
  has_tag s = false -> has_tag (String.substring 0 n s) = false.
Proof.
  intros H. destruct (prefix_split n s) as (rest & Hs).
  rewrite Hs in H. apply (has_tag_append_l _ _ H).
Qed.

Lemma has_dash_remove_dashes s : has_dash (remove_dashes s) = false.
Proof.
  induction s as [|c r IH]; cbn; [reflexivity|].
  destruct (Ascii.eqb c "-") eqn:E; [exact IH|].
  cbn. rewrite E, IH. reflexivity.
Qed.

Lemma remove_dashes_id s : has_dash s = false -> remove_dashes s = s.
Proof.
  induction s as [|c r IH]; cbn; [reflexivity|].
  intros H. apply orb_false_iff in H as [H1 H2].
  rewrite H1, (IH H2). reflexivity.
Qed.

Lemma lower_char_space c : Js.is_space (Js.lower_char c) = Js.is_space c.
Proof. destruct c as [[] [] [] [] [] [] [] []]; reflexivity. Qed.

Lemma lower_char_not_upper c : is_upper (Js.lower_char c) = false.
Proof. destruct c as [[] [] [] [] [] [] [] []]; reflexivity. Qed.

Lemma toLowerCase_start s :
  starts_with_space (Js.toLowerCase s) = starts_with_space s.
Proof. destruct s; cbn; [reflexivity|apply lower_char_space]. Qed.

Lemma toLowerCase_end s :
  ends_with_space (Js.toLowerCase s) = ends_with_space s.
Proof.
  induction s as [|c r IH]; [reflexivity|].
  destruct r as [|c' r']; cbn in *; [apply lower_char_space|exact IH].
Qed.

Lemma toLowerCase_no_upper s : has_upper (Js.toLowerCase s) = false.
Proof.
  induction s as [|c r IH]; cbn; [reflexivity|].
  rewrite lower_char_not_upper, IH. reflexivity.
Qed.

Lemma strip_split s :
  exists slashes,
    all_slashes slashes = true
    /\ s = strip_trailing_slashes s +:+ slashes.
Proof.
  induction s as [|c r IH]; cbn.
  - exists "". auto.
  - destruct (Ascii.eqb c "/" && all_slashes r) eqn:E.
    + exists (String c r). cbn. auto.
    + destruct IH as (sl & H1 & H2). exists sl. split; [exact H1|].
      rewrite append_cons. f_equal. exact H2.
Qed.

Lemma ends_with_slash_all s :
  ends_with_slash s = true ->
  exists pre sl, s = pre +:+ String "/" sl /\ all_slashes sl = true.
Proof.
  induction s as [|c r IH]; cbn; [discriminate|].
  destruct r as [|c' r'].
  - intros H. apply Ascii.eqb_eq in H. subst c. exists "", "". auto.
  - intros H. destruct (IH H) as (pre & sl & Hs & Ha).
    exists (String c pre), sl. rewrite append_cons, <- Hs. auto.
Qed.

Lemma strip_no_trailing_slash s :
  ends_with_slash (strip_trailing_slashes s) = false.
Proof.
  induction s as [|c r IH]; cbn; [reflexivity|].
  destruct (Ascii.eqb c "/" && all_slashes r) eqn:E; [reflexivity|].
  cbn. destruct (strip_trailing_slashes r) as [|c' r'] eqn:Hr.
  - destruct (Ascii.eqb c "/") eqn:Hc; [|reflexivity].
    (* the rest of the string is only slashes, since it strips to nothing *)
    destruct (strip_split r) as (sl & Hsl & Hsplit).
    rewrite Hr, append_nil in Hsplit. subst sl.
    rewrite Hsl in E. discriminate E.
  - exact IH.
Qed.

Lemma strip_fixed s :
  ends_with_slash s = false -> strip_trailing_slashes s = s.
Proof.
  induction s as [|c r IH]; cbn; [reflexivity|].
  destruct r as [|c' r'].
  - intros ->. reflexivity.
  - intros H.
    assert (Hr : all_slashes (String c' r') = false).
    { destruct (all_slashes (String c' r')) eqn:E; [|reflexivity].
      exfalso. clear IH. revert c' H E.
      induction r' as [|c2 r2 IH2]; intros c' H E; cbn in *.
      - rewrite andb_true_r in E. congruence.
      - apply andb_true_iff in E as [_ E]. apply (IH2 c2 H E). }
    rewrite Hr, andb_false_r. rewrite (IH H). reflexivity.
Qed.

End StringFacts.

(** ** The console helpers and the configuration *)

Lemma truncate_cut text maxLen :
  (3 <= maxLen)%Z ->
  (maxLen < Z.of_nat (String.length text))%Z ->
  truncate text maxLen
  = String.substring 0 (Z.to_nat (maxLen - 3)) text +:+ "..."
  /\ String.length (String.substring 0 (Z.to_nat (maxLen - 3)) text)
     = Z.to_nat (maxLen - 3).
Proof.
  intros H3 Hgt. unfold truncate, slice_to.
  destruct (Z.leb_spec (Z.of_nat (String.length text)) maxLen) as [Hle|_];
    [lia|].
  assert (Hneg : (maxLen - 3 <? 0)%Z = false) by (apply Z.ltb_ge; lia).
  rewrite Hneg.
  replace (Z.min (maxLen - 3) (Z.of_nat (String.length text)))
    with (maxLen - 3)%Z by lia.
  split; [reflexivity|]. rewrite StringFacts.length_prefix. lia.
Qed.

Lemma truncate_length text maxLen :
  (3 <= maxLen)%Z ->
  Z.of_nat (String.length (truncate text maxLen))
  = Z.min (Z.of_nat (String.length text)) maxLen.
Proof.
  intros H3.
  destruct (Z.le_gt_cases (Z.of_nat (String.length text)) maxLen) as [Hle|Hgt].
  - unfold truncate. rewrite (proj2 (Z.leb_le _ _) Hle). lia.
  - destruct (truncate_cut text maxLen H3) as [-> Hlen]; [lia|].
    rewrite StringFacts.length_append, Hlen. cbn [String.length]. lia.
Qed.

Lemma filter_nil_all {A} (f : A -> bool) l :
  List.filter f l = [] -> forall x, In x l -> f x = false.
Proof.
  induction l as [|a l IH]; cbn; [intros _ x []|].
  destruct (f a) eqn:E; [discriminate|].
  intros H x [<-|Hx]; [exact E|apply (IH H x Hx)].
Qed.

Lemma loadConfig_required_present (process_env : gmap string string) config :
  loadConfig process_env = Config_of config ->
  forall key, In key required -> Js.truthy (process_env !! key) = true.
Proof.
  unfold loadConfig.
  destruct (List.filter _ required) as [|k missing] eqn:E; [|discriminate].
  intros _ key Hkey.
  pose proof (filter_nil_all _ _ E key Hkey) as H.
  apply negb_false_iff in H. exact H.
Qed.

(* ===================================================================== *)
(** * More properties of the code                                        *)
(* ===================================================================== *)

(** ** The console helpers *)

(** X1.  [truncate] with a width of at least 3: the result is never longer
    than the width; a text that fits is returned unchanged; a longer text
    is cut to its first [maxLen - 3] characters followed by three dots, so
    the result has exactly the width. *)
Theorem truncate_fits text maxLen :
  (3 <= maxLen)%Z ->
  Z.of_nat (String.length (truncate text maxLen))
  = Z.min (Z.of_nat (String.length text)) maxLen
  /\ ((Z.of_nat (String.length text) <= maxLen)%Z ->
      truncate text maxLen = text)
  /\ ((maxLen < Z.of_nat (String.length text))%Z ->
      exists pre rest,
        text = pre +:+ rest
        /\ Z.of_nat (String.length pre) = (maxLen - 3)%Z
        /\ truncate text maxLen = pre +:+ "...").
Proof.
  intros H3. split; [apply truncate_length, H3|]. split.
  - intros Hle. unfold truncate. rewrite (proj2 (Z.leb_le _ _) Hle).
    reflexivity.
  - intros Hgt. destruct (truncate_cut text maxLen H3 Hgt) as [Hcut Hlen].
    destruct (StringFacts.prefix_split (Z.to_nat (maxLen - 3)) text)
      as (rest & Hrest).
    eexists _, rest. split; [exact Hrest|]. split; [|exact Hcut].
    rewrite Hlen. lia.
Qed.

Lemma truncate_fits_witness :
  Z.of_nat (String.length (truncate "A mug for hot drinks" 10)) = 10%Z.
Proof.
  refine (proj1 (truncate_fits "A mug for hot drinks" 10 _)). lia.
Defined.

(** X2.  The description line of the console output, for a width of at
    least 3: whatever markup the description of the product holds, the line
    shown has no tag and is not longer than the width.  A product without
    description shows the placeholder. *)
Theorem description_line_clean p width :
  (3 <= width)%Z ->
  has_tag (description_line p width) = false
  /\ (Z.of_nat (String.length (description_line p width)) <= width)%Z
  /\ (Js.truthy (product_description p) = false ->
      stripHtml (product_description p) = "(no description)").
Proof.
  intros H3.
  assert (Hstrip : has_tag (stripHtml (product_description p)) = false).
  { unfold stripHtml.
    destruct (Js.truthy (product_description p)); [|reflexivity].
    destruct (product_description p); [|reflexivity].
    apply JsFacts.clean_markup_no_tag. }
  split; [|split].
  - unfold description_line, truncate.
    destruct (Z.of_nat _ <=? width)%Z; [exact Hstrip|].
    rewrite StringFacts.has_tag_append_dots.
    unfold slice_to. apply StringFacts.has_tag_prefix, Hstrip.
  - unfold description_line.
    rewrite (truncate_length (stripHtml (product_description p)) width H3).
    lia.
  - unfold stripHtml. intros ->. reflexivity.
Qed.

Lemma description_line_clean_witness :
  has_tag (description_line
             {| id := "1"; name := "Mug"; productNumber := "SW-1";
                description := Some "<p>A <b>mug</b> for hot drinks</p>";
                coverId := None; translated := None |} 12) = false.
Proof.
  refine (proj1 (description_line_clean _ 12 _)). lia.
Defined.

(** ** config.ts *)

(** X3.  [loadConfig] returns a configuration exactly when each of the
    five required variables is set to a non-empty string; otherwise the
    process ends with exit code 1, and the keys reported are exactly the
    required keys that are unset or empty, in the order of the list. *)
Theorem loadConfig_checks_required (process_env : gmap string string) :
  match loadConfig process_env with
  | Config_of _ =>
      forall key, In key required -> Js.truthy (process_env !! key) = true
  | Exit1 missing =>
      missing <> []
      /\ missing
         = List.filter (fun key => negb (Js.truthy (process_env !! key)))
             required
      /\ forall key,
          In key missing <->
          In key required /\ Js.truthy (process_env !! key) = false
  end.
Proof.
  unfold loadConfig.
  destruct (List.filter _ required) as [|k missing] eqn:E.
  - cbn. intros key Hkey.
    pose proof (filter_nil_all _ _ E key Hkey) as H.
    apply negb_false_iff in H. exact H.
  - cbn [length Nat.ltb Nat.leb]. split; [discriminate|].
    split; [reflexivity|].
    intros key. rewrite <- E, filter_In, negb_true_iff. reflexivity.
Qed.

(** X4.  In the configuration that [loadConfig] returns, the API URL is
    the value of SHOPWARE_API_URL without the slashes at its end: it does
    not end with a slash, and the value is the URL followed by slashes
    only.  The four other fields are the values of their variables,
    unchanged. *)
Theorem loadConfig_api_url (process_env : gmap string string) config :
  loadConfig process_env = Config_of config ->
  ends_with_slash (shopwareApiUrl config) = false
  /\ (exists slashes,
        all_slashes slashes = true
        /\ process_env !! "SHOPWARE_API_URL"
           = Some (shopwareApiUrl config +:+ slashes))
  /\ process_env !! "SHOPWARE_CLIENT_ID" = Some (shopwareClientId config)
  /\ process_env !! "SHOPWARE_CLIENT_SECRET"
     = Some (shopwareClientSecret config)
  /\ process_env !! "OPENAI_API_KEY" = Some (openaiApiKey config)
  /\ process_env !! "SALES_CHANNEL_ID" = Some (salesChannelId config).
Proof.
  intros Hload.
  pose proof (loadConfig_required_present process_env config Hload) as Hreq.
  unfold loadConfig in Hload.
  destruct (0 <? length _); [discriminate|].
  injection Hload as <-. cbn [shopwareApiUrl shopwareClientId
    shopwareClientSecret openaiApiKey salesChannelId].
  assert (Hval : forall key, In key required ->
                   process_env !! key = Some (env_value process_env key)).
  { intros key Hkey. specialize (Hreq key Hkey). unfold env_value.
    destruct (process_env !! key); [reflexivity|discriminate]. }
  split; [apply StringFacts.strip_no_trailing_slash|].
  split.
  - destruct (StringFacts.strip_split
                (env_value process_env "SHOPWARE_API_URL"))
      as (sl & Hsl & Hsplit).
    exists sl. split; [exact Hsl|].
    rewrite <- Hsplit. apply Hval. cbn. auto.
  - repeat split; apply Hval; cbn; auto 10.
Qed.

Lemma loadConfig_api_url_witness :
  exists config,
    loadConfig
      (list_to_map
         [("SHOPWARE_API_URL", "https://shop.test//");
          ("SHOPWARE_CLIENT_ID", "client");
          ("SHOPWARE_CLIENT_SECRET", "secret");
          ("OPENAI_API_KEY", "key");
          ("SALES_CHANNEL_ID", "channel-1")])
    = Config_of config
    /\ shopwareApiUrl config = "https://shop.test"
    /\ ends_with_slash (shopwareApiUrl config) = false.
Proof.
  eexists. split; [vm_compute; reflexivity|]. split; [reflexivity|].
  refine (proj1 (loadConfig_api_url
                   (list_to_map
                      [("SHOPWARE_API_URL", "https://shop.test//");
                       ("SHOPWARE_CLIENT_ID", "client");
                       ("SHOPWARE_CLIENT_SECRET", "secret");
                       ("OPENAI_API_KEY", "key");
                       ("SALES_CHANNEL_ID", "channel-1")]) _ _)).
  vm_compute. reflexivity.
Defined.
Section ListingRuns.
Variable env : Env.

Lemma log_requests_snoc new r st :
  log_requests (new ++ [r]) st = log_request r (log_requests new st).
Proof. unfold log_requests. rewrite fold_left_app. reflexivity. Qed.

Lemma log_requests_fields new st :
  accessToken (log_requests new st) = accessToken st
  /\ results (log_requests new st) = results st
  /\ files (log_requests new st) = files st
  /\ prompts (log_requests new st) = prompts st
  /\ questions (log_requests new st) = questions st
  /\ uuids (log_requests new st) = uuids st.
Proof.
  revert st. induction new as [|r new IH]; intros st; [cbn; auto 10|].
  change (log_requests (r :: new) st)
    with (log_requests new (log_request r st)).
  destruct (IH (log_request r st)) as (H1 & H2 & H3 & H4 & H5 & H6).
  rewrite H1, H2, H3, H4, H5, H6. cbn. auto 10.
Qed.

Lemma all_answered_ok_app k a b :
  all_answered_ok env k (a ++ b)
  = all_answered_ok env k a && all_answered_ok env (k + length a) b.
Proof.
  revert k. induction a as [|r a IH]; intros k; cbn.
  - rewrite Nat.add_0_r. reflexivity.
  - rewrite IH, Nat.add_succ_r, andb_assoc. reflexivity.
Qed.

Lemma search_requests_cons auth channel page n :
  search_requests auth channel page (S n)
  = PostSearchProduct auth limit page channel false
    :: search_requests auth channel (page + 1) n.
Proof. unfold search_requests. cbn. rewrite Nat.add_1_r. reflexivity. Qed.

(** A run of the listing loop of [fetchAllProducts], whatever the server
    does and however it ends: the requests are those for consecutive
    pages; every answer but the last was a success with a full page and
    a total not yet reached. *)
Lemma fetchAllProducts_loop_run channel fuel :
  forall page acc0 st o st',
    fetchAllProducts_loop env fuel channel page acc0 st = (o, st') ->
    exists n,
      st' = log_requests
              (search_requests (bearer (accessToken st)) channel page n) st
      /\ n <= fuel
      /\ match o with
         | Val acc =>
             1 <= n
             /\ all_answered_ok env (length (requests st))
                  (search_requests (bearer (accessToken st)) channel page n)
                = true
             /\ length acc0 + 25 * (n - 1) <= length acc
         | Thrown e =>
             (n = 0 /\ Js.truthy (accessToken st) = false
              /\ e = not_authenticated)
             \/ (exists m,
                   n = S m
                   /\ all_answered_ok env (length (requests st))
                        (search_requests (bearer (accessToken st))
                           channel page m) = true
                   /\ match http env (length (requests st) + m)
                              (PostSearchProduct (bearer (accessToken st))
                                 limit (page + m) channel false) with
                      | Rejected e' => e = e'
                      | Resolved r =>
                          (ok r = false
                           /\ e = http_failure "Failed to fetch products" r)
                          \/ (ok r = true /\ json_rejects r = Some e)
                      end)
         | OutOfFuel =>
             n = fuel
             /\ all_answered_ok env (length (requests st))
                  (search_requests (bearer (accessToken st)) channel page n)
                = true
         end.
Proof.
  induction fuel as [|fuel IH]; intros page acc0 st o st'.
  - cbn. intros [= <- <-]. exists 0. cbn. auto.
  - rewrite fetchAllProducts_loop_step. cbn zeta.
    destruct (Js.truthy (accessToken st)) eqn:Hauth; cbn [negb].
    2:{ intros [= <- <-]. exists 0. split; [reflexivity|].
        split; [lia|]. left. auto. }
    destruct (http env (length (requests st)) _) as [e|r] eqn:Hr.
    { intros [= <- <-]. exists 1. split; [reflexivity|]. split; [lia|].
      right. exists 0. rewrite !Nat.add_0_r, Hr. auto. }
    destruct (ok r) eqn:Hok; cbn [negb].
    2:{ intros [= <- <-]. exists 1. split; [reflexivity|]. split; [lia|].
        right. exists 0. rewrite !Nat.add_0_r, Hr. auto. }
    destruct (json_rejects r) as [e'|] eqn:Hjson.
    { intros [= <- <-]. exists 1. split; [reflexivity|]. split; [lia|].
      right. exists 0. rewrite !Nat.add_0_r, Hr. auto. }
    destruct (_ || _) eqn:Hstop.
    { intros [= <- <-]. exists 1. split; [reflexivity|]. split; [lia|].
      split; [lia|]. split.
      - cbn. unfold answered_ok. rewrite Hr, Hok. reflexivity.
      - rewrite length_app. lia. }
    intros Hrec. apply IH in Hrec as (n & -> & Hn & Hpost).
    cbn [log_request accessToken requests] in *.
    exists (S n). rewrite search_requests_cons.
    split; [reflexivity|]. split; [lia|].
    assert (Hfirst : answered_ok env (length (requests st))
              (PostSearchProduct (bearer (accessToken st)) limit page
                 channel false) = true).
    { unfold answered_ok. rewrite Hr. exact Hok. }
    assert (Hfull : 25 <= length (data (json_search r))).
    { apply orb_false_iff in Hstop as [_ H]. apply Nat.ltb_ge in H.
      exact H. }
    rewrite length_app, Nat.add_1_r in Hpost.
    destruct o as [acc|e|].
    + destruct Hpost as (H1 & H2 & H3). split; [lia|]. split.
      * cbn [all_answered_ok]. rewrite Hfirst, H2. reflexivity.
      * rewrite length_app in H3. lia.
    + destruct Hpost as [(_ & H & _)|(m & -> & H1 & H2)]; [congruence|].
      right. exists (S m). split; [reflexivity|]. split.
      * rewrite search_requests_cons. cbn [all_answered_ok].
        rewrite Hfirst, H1. reflexivity.
      * replace (length (requests st) + S m)
          with (S (length (requests st)) + m) by lia.
        replace (page + S m) with (page + 1 + m) by lia.
        exact H2.
    + destruct Hpost as (-> & H). split; [reflexivity|].
      cbn [all_answered_ok]. rewrite Hfirst, H. reflexivity.
Qed.
End ListingRuns.
Section ListingTermination.
Variable env : Env.
Variable T : Z.
Hypothesis Htotal :
  forall k req r,
    http env k req = Resolved r -> ok r = true -> json_rejects r = None ->
    (total (json_search r) <= T)%Z.

(** After a full page that did not reach the total, [25] more items are
    accumulated and still fewer than [T]: with [T <= length acc + 25 * fuel]
    the loop cannot use up its fuel. *)
Lemma fetchAllProducts_loop_terminates channel fuel :
  forall page acc st,
    1 <= fuel ->
    (T <= Z.of_nat (length acc) + 25 * Z.of_nat fuel)%Z ->
    fst (fetchAllProducts_loop env fuel channel page acc st) <> OutOfFuel.
Proof.
  induction fuel as [|fuel IH]; intros page acc st Hfuel Hbound; [lia|].
  rewrite fetchAllProducts_loop_step. cbn zeta.
  destruct (negb (Js.truthy (accessToken st))); [discriminate|].
  destruct (http env (length (requests st)) _) as [e|r] eqn:Hr;
    [discriminate|].
  destruct (ok r) eqn:Hok; cbn [negb]; [|discriminate].
  destruct (json_rejects r) eqn:Hjson; [discriminate|].
  destruct (_ || _) eqn:Hstop; [discriminate|].
  apply orb_false_iff in Hstop as [H1 H2].
  rewrite Z.geb_leb in H1. apply Z.leb_gt in H1. apply Nat.ltb_ge in H2.
  pose proof (Htotal _ _ _ Hr Hok Hjson) as Ht.
  rewrite length_app in H1. unfold limit in H2.
  destruct fuel as [|fuel']; [lia|].
  apply IH.
  - lia.
  - rewrite length_app. lia.
Qed.
End ListingTermination.

Section ListingClaims.
Variable env : Env.

(** X5.  [fetchAllProducts], whatever the server does: when it returns
    after [n] requests, these were the requests for the pages 1 to [n]
    in this order, each was answered with success, [n] is at least 1,
    and the total returned is at least [25 * (n - 1)]: no page is
    requested twice or skipped, and every page before the last was
    full. *)
Theorem fetchAllProducts_pages_in_order channel fuel st total_ withoutImages st' :
  fetchAllProducts env fuel channel st = (Val (total_, withoutImages), st') ->
  exists n,
    1 <= n <= fuel
    /\ st' = log_requests
               (search_requests (bearer (accessToken st)) channel 1 n) st
    /\ all_answered_ok env (length (requests st))
         (search_requests (bearer (accessToken st)) channel 1 n) = true
    /\ 25 * (n - 1) <= total_
    /\ length withoutImages <= total_.
Proof.
  unfold fetchAllProducts, bind.
  destruct (fetchAllProducts_loop env fuel channel 1 [] st)
    as [[acc|e|] st1] eqn:Hloop; try discriminate.
  intros [= <- <- <-].
  apply fetchAllProducts_loop_run in Hloop as (n & -> & Hn & H1 & H2 & H3).
  exists n. cbn [length] in H3.
  split; [lia|]. split; [reflexivity|]. split; [exact H2|].
  split; [lia|]. apply List.filter_length_le.
Qed.

(** X6.  [fetchAllProducts] gives all or nothing.  When it throws, then
    either the client is not authenticated and no request was sent, or
    the last request it sent failed and the error thrown is that failure:
    the promise was rejected; or the answer was not a success, and the
    error carries its status and body; or the answer was a success whose
    body is not JSON, and the error is the one [res.json()] is rejected
    with.  Every request before was answered with success, and the pages
    fetched so far are dropped with the error. *)
Theorem fetchAllProducts_failure_is_fatal channel fuel st e st' :
  fetchAllProducts env fuel channel st = (Thrown e, st') ->
  (st' = st /\ Js.truthy (accessToken st) = false /\ e = not_authenticated)
  \/ (exists m,
        st' = log_requests
                (search_requests (bearer (accessToken st)) channel 1 (S m))
                st
        /\ all_answered_ok env (length (requests st))
             (search_requests (bearer (accessToken st)) channel 1 m) = true
        /\ match http env (length (requests st) + m)
                   (PostSearchProduct (bearer (accessToken st)) limit
                      (1 + m) channel false) with
           | Rejected e' => e = e'
           | Resolved r =>
               (ok r = false
                /\ e = JsError ("Failed to fetch products ("
                                +:+ Js.show_nat (http_status r) +:+ "): "
                                +:+ text r))
               \/ (ok r = true /\ json_rejects r = Some e)
           end).
Proof.
  unfold fetchAllProducts, bind.
  destruct (fetchAllProducts_loop env fuel channel 1 [] st)
    as [[acc|e'|] st1] eqn:Hloop; try discriminate.
  intros [= <- <-].
  apply fetchAllProducts_loop_run in Hloop as (n & -> & Hn & Hpost).
  destruct Hpost as [(-> & H1 & H2)|(m & -> & H1 & H2)].
  - left. auto.
  - right. exists m. auto.
Qed.

(** X7.  The listing loop cannot be kept running by a server whose
    totals are bounded.  When every successful answer whose body parses
    reports a total of at most [T], then with [fuel >= 1] rounds such that
    [T <= 25 * fuel] the loop of [fetchAllProducts] ends (it returns or
    throws) before the fuel is used up, so after at most [fuel] requests,
    whatever the pages hold.  [T / 25 + 1] rounds are enough: the call
    ends within [T / 25 + 1] requests. *)
Theorem fetchAllProducts_terminates (T : Z) channel st :
  (forall k req r,
      http env k req = Resolved r -> ok r = true -> json_rejects r = None ->
      (total (json_search r) <= T)%Z) ->
  (forall fuel,
      1 <= fuel ->
      (T <= 25 * Z.of_nat fuel)%Z ->
      fst (fetchAllProducts env fuel channel st) <> OutOfFuel
      /\ length (requests (snd (fetchAllProducts env fuel channel st)))
         <= length (requests st) + fuel)
  /\ fst (fetchAllProducts env (Z.to_nat (T / 25) + 1) channel st)
     <> OutOfFuel
  /\ length (requests
               (snd (fetchAllProducts env (Z.to_nat (T / 25) + 1) channel
                       st)))
     <= length (requests st) + (Z.to_nat (T / 25) + 1).
Proof.
  intros Htotal.
  assert (Hgen : forall fuel,
             1 <= fuel ->
             (T <= 25 * Z.of_nat fuel)%Z ->
             fst (fetchAllProducts env fuel channel st) <> OutOfFuel
             /\ length (requests (snd (fetchAllProducts env fuel channel st)))
                <= length (requests st) + fuel).
  { intros fuel Hfuel Hbound.
    pose proof (fetchAllProducts_loop_terminates env T Htotal channel fuel
                  1 [] st Hfuel) as Hloop.
    cbn [length] in Hloop. specialize (Hloop ltac:(lia)).
    unfold fetchAllProducts, bind.
    destruct (fetchAllProducts_loop env fuel channel 1 [] st)
      as [o st1] eqn:Hrun.
    apply fetchAllProducts_loop_run in Hrun as (n & -> & Hn & _).
    assert (Hlen : length (requests
                             (log_requests
                                (search_requests (bearer (accessToken st))
                                   channel 1 n) st))
                   <= length (requests st) + fuel).
    { rewrite requests_log_requests, length_app, length_search_requests.
      lia. }
    destruct o as [acc|e|]; cbn in *;
      (split; [discriminate || congruence|exact Hlen]). }
  split; [exact Hgen|].
  apply Hgen; [lia|].
  destruct (Z.le_gt_cases 0 T) as [Hpos|Hneg].
  - pose proof (Z.mul_succ_div_gt T 25 ltac:(lia)) as Hdiv.
    pose proof (Z.div_pos T 25 Hpos ltac:(lia)) as Hq.
    rewrite Nat2Z.inj_add, Z2Nat.id by exact Hq. lia.
  - lia.
Qed.
End ListingClaims.
Section ProtocolRuns.
Variable env : Env.

Lemma getHeaders_unauthenticated st :
  Js.truthy (accessToken st) = false ->
  getHeaders st = (Thrown not_authenticated, st).
Proof. unfold getHeaders. intros ->. reflexivity. Qed.

Lemma fetch_rejected req e st :
  http env (length (requests st)) req = Rejected e ->
  fetch env req st = (Thrown e, log_request req st).
Proof. unfold fetch. intros ->. reflexivity. Qed.

(** [uploadMedia] from an authenticated state, case by case. *)
Lemma uploadMedia_run buf fileName st :
  authenticated st ->
  uploadMedia env buf fileName st
  = match http env (length (requests st)) (create_media_request env st) with
    | Rejected e =>
        (Thrown e, log_requests [create_media_request env st] (next_uuid st))
    | Resolved r1 =>
        if ok r1 then
          match http env (S (length (requests st)))
                  (upload_request env st fileName buf) with
          | Rejected e =>
              (Thrown e,
               log_requests [create_media_request env st;
                             upload_request env st fileName buf]
                 (next_uuid st))
          | Resolved r2 =>
              (if ok r2 then Val (media_id env st)
               else Thrown (http_failure "Failed to upload media file" r2),
               log_requests [create_media_request env st;
                             upload_request env st fileName buf]
                 (next_uuid st))
          end
        else
          (Thrown (http_failure "Failed to create media entity" r1),
           log_requests [create_media_request env st] (next_uuid st))
    end.
Proof.
  intros Hauth. unfold uploadMedia.
  mval (uuid_eq env st).
  mval (getHeaders_authenticated (next_uuid st) Hauth).
  change (PostMedia (bearer (accessToken (next_uuid st))) (media_id env st))
    with (create_media_request env st).
  change (length (requests st))
    with (length (requests (next_uuid st))) at 1.
  destruct (http env (length (requests (next_uuid st)))
              (create_media_request env st)) as [e|r1] eqn:H1.
  { mthrow (fetch_rejected _ _ _ H1). reflexivity. }
  mval (fetch_resolved env _ _ _ H1).
  destruct (ok r1); cbn [negb]; [|reflexivity].
  unfold bind at 1. cbn beta iota.
  change (PostMediaUpload _ _ _ _) with (upload_request env st fileName buf).
  assert (Hlen : length (requests (log_request (create_media_request env st)
                                     (next_uuid st)))
                 = S (length (requests st))).
  { cbn [log_request requests next_uuid]. rewrite length_app. cbn. lia. }
  destruct (http env (S (length (requests st)))
              (upload_request env st fileName buf)) as [e|r2] eqn:H2;
    rewrite <- Hlen in H2.
  { mthrow (fetch_rejected _ _ _ H2). reflexivity. }
  mval (fetch_resolved env _ _ _ H2).
  destruct (ok r2); reflexivity.
Qed.

Lemma uploadMedia_unauthenticated buf fileName st :
  Js.truthy (accessToken st) = false ->
  uploadMedia env buf fileName st = (Thrown not_authenticated, next_uuid st).
Proof.
  intros H. unfold uploadMedia. mval (uuid_eq env st).
  mthrow (getHeaders_unauthenticated (next_uuid st) H). reflexivity.
Qed.

(** When [uploadMedia] returns, both requests were sent and answered
    with success, and the value is the id drawn for this call. *)
Lemma uploadMedia_val buf fileName st mediaId st1 :
  uploadMedia env buf fileName st = (Val mediaId, st1) ->
  authenticated st
  /\ mediaId = media_id env st
  /\ st1 = log_requests [create_media_request env st;
                         upload_request env st fileName buf] (next_uuid st)
  /\ all_answered_ok env (length (requests st))
       [create_media_request env st; upload_request env st fileName buf]
     = true.
Proof.
  destruct (Js.truthy (accessToken st)) eqn:Hauth.
  2:{ rewrite (uploadMedia_unauthenticated _ _ _ Hauth). discriminate. }
  rewrite (uploadMedia_run buf fileName st Hauth).
  cbn [all_answered_ok]. unfold answered_ok.
  destruct (http env (length (requests st)) _) as [e|r1]; [discriminate|].
  destruct (ok r1); [|discriminate].
  destruct (http env (S (length (requests st))) _) as [e|r2];
    [discriminate|].
  destruct (ok r2); [|discriminate].
  intros [= <- <-]. auto.
Qed.

(** [assignMediaToProduct] from an authenticated state, case by case. *)
Lemma assignMediaToProduct_run productId mediaId st :
  authenticated st ->
  assignMediaToProduct env productId mediaId st
  = match http env (length (requests st))
            (association_request st productId mediaId) with
    | Rejected e =>
        (Thrown e, log_requests [association_request st productId mediaId] st)
    | Resolved r =>
        if ok r then
          match option_map Js.last_segment (location r) with
          | Some (String c s) =>
              (match http env (S (length (requests st)))
                       (cover_request st productId (String c s)) with
               | Rejected e => Thrown e
               | Resolved r2 =>
                   if ok r2 then Val tt
                   else Thrown (http_failure "Failed to set cover image" r2)
               end,
               log_requests [association_request st productId mediaId;
                             cover_request st productId (String c s)] st)
          | _ =>
              (Thrown (JsError "Failed to get product-media ID from response"),
               log_requests [association_request st productId mediaId] st)
          end
        else
          (Thrown (http_failure "Failed to create product-media association" r),
           log_requests [association_request st productId mediaId] st)
    end.
Proof.
  intros Hauth. unfold assignMediaToProduct.
  mval (getHeaders_authenticated st Hauth).
  change (PostProductMedia _ _ _)
    with (association_request st productId mediaId).
  destruct (http env (length (requests st))
              (association_request st productId mediaId)) as [e|r] eqn:H1.
  { mthrow (fetch_rejected _ _ _ H1). reflexivity. }
  mval (fetch_resolved env _ _ _ H1).
  destruct (ok r); cbn [negb]; [|reflexivity].
  destruct (option_map Js.last_segment (location r)) as [[|c s]|];
    [reflexivity| |reflexivity].
  match goal with
  | |- context [bind getHeaders _ ?s] =>
      rewrite (bind_val _ _ _ _ _ (getHeaders_authenticated s Hauth))
  end.
  change (PatchProduct _ _ _) with (cover_request st productId (String c s)).
  assert (Hlen : length (requests (log_request
                                     (association_request st productId mediaId)
                                     st))
                 = S (length (requests st))).
  { cbn [log_request requests]. rewrite length_app. cbn. lia. }
  destruct (http env (S (length (requests st)))
              (cover_request st productId (String c s))) as [e|r2] eqn:H2;
    rewrite <- Hlen in H2.
  { mthrow (fetch_rejected _ _ _ H2). reflexivity. }
  mval (fetch_resolved env _ _ _ H2).
  destruct (ok r2); reflexivity.
Qed.

Lemma assignMediaToProduct_unauthenticated productId mediaId st :
  Js.truthy (accessToken st) = false ->
  assignMediaToProduct env productId mediaId st
  = (Thrown not_authenticated, st).
Proof.
  intros H. unfold assignMediaToProduct.
  mthrow (getHeaders_unauthenticated st H). reflexivity.
Qed.

Lemma assignMediaToProduct_val productId mediaId st u st2 :
  assignMediaToProduct env productId mediaId st = (Val u, st2) ->
  authenticated st
  /\ exists r loc,
       http env (length (requests st))
         (association_request st productId mediaId) = Resolved r
       /\ location r = Some loc
       /\ Js.last_segment loc <> ""
       /\ st2 = log_requests
                  [association_request st productId mediaId;
                   cover_request st productId (Js.last_segment loc)] st
       /\ all_answered_ok env (length (requests st))
            [association_request st productId mediaId;
             cover_request st productId (Js.last_segment loc)] = true.
Proof.
  destruct (Js.truthy (accessToken st)) eqn:Hauth.
  2:{ rewrite (assignMediaToProduct_unauthenticated _ _ _ Hauth).
      discriminate. }
  rewrite (assignMediaToProduct_run productId mediaId st Hauth).
  cbn [all_answered_ok]. unfold answered_ok.
  destruct (http env (length (requests st)) _) as [e|r] eqn:Hr;
    [discriminate|].
  destruct (ok r) eqn:Hok; [|discriminate].
  destruct (location r) as [loc|] eqn:Hloc; cbn [option_map];
    [|discriminate].
  destruct (Js.last_segment loc) as [|c s] eqn:Hseg; [discriminate|].
  destruct (http env (S (length (requests st))) _) as [e|r2] eqn:Hr2;
    [discriminate|].
  destruct (ok r2) eqn:Hok2; [|discriminate].
  intros [= <- <-]. split; [exact Hauth|].
  exists r, loc. rewrite Hseg, Hr2, Hok2.
  split; [reflexivity|]. split; [exact Hloc|]. split; [discriminate|].
  split; reflexivity.
Qed.
End ProtocolRuns.
Section ProtocolExtras.
Variable env : Env.

(** When the upload step ends normally, all four requests of the
    protocol were sent and answered with success. *)
Lemma upload_step_val p buf st c st' :
  upload_step env p (product_name p) buf st = (Val c, st') ->
  c = Continue
  /\ authenticated st
  /\ exists loc,
       Js.last_segment loc <> ""
       /\ st' = push_result (uploaded_result p)
                  (log_requests
                     [create_media_request env st;
                      upload_request env st (upload_name p) buf;
                      association_request st (id p) (media_id env st);
                      cover_request st (id p) (Js.last_segment loc)]
                     (next_uuid st))
       /\ all_answered_ok env (length (requests st))
            [create_media_request env st;
             upload_request env st (upload_name p) buf;
             association_request st (id p) (media_id env st);
             cover_request st (id p) (Js.last_segment loc)] = true.
Proof.
  unfold upload_step. fold (upload_name p). unfold bind at 1.
  destruct (uploadMedia env buf (upload_name p) st)
    as [[mediaId|e|] st1] eqn:Hup; [|discriminate|discriminate].
  apply uploadMedia_val in Hup as (Hauth & -> & -> & Hok12).
  unfold bind at 1.
  destruct (assignMediaToProduct env (id p) (media_id env st) _)
    as [[u|e|] st2] eqn:Has; [|discriminate|discriminate].
  apply assignMediaToProduct_val in Has
    as (_ & r & loc & Hr & Hloc & Hseg & -> & Hok34).
  intros [= <- <-]. split; [reflexivity|]. split; [exact Hauth|].
  exists loc. split; [exact Hseg|]. split; [reflexivity|].
  cbn [log_requests fold_left log_request requests next_uuid] in Hok34.
  rewrite !length_app in Hok34. cbn [length] in Hok34.
  replace (length (requests st) + 1 + 1)
    with (S (S (length (requests st)))) in Hok34 by lia.
  cbn [all_answered_ok] in *.
  apply andb_true_iff in Hok12 as [H1 H2].
  apply andb_true_iff in H2 as [H2 _].
  rewrite H1, H2. exact Hok34.
Qed.

(** X8.  Without a token (none, or an empty one) no catalog operation
    sends a request: each throws the "Not authenticated" error of
    [getHeaders] before its first request.  In a batch run the product is
    recorded as failed with that message. *)
Theorem unauthenticated_sends_nothing st :
  Js.truthy (accessToken st) = false ->
  (forall fuel channel,
      fetchAllProducts env (S fuel) channel st
      = (Thrown not_authenticated, st))
  /\ (forall fuel channel,
        fetchProductsWithoutImages env (S fuel) channel st
        = (Thrown not_authenticated, st))
  /\ (forall productId mediaId,
        assignMediaToProduct env productId mediaId st
        = (Thrown not_authenticated, st))
  /\ (forall buf fileName,
        uploadMedia env buf fileName st
        = (Thrown not_authenticated, next_uuid st))
  /\ (forall g p buf,
        files st !! previewPath env p = Some buf ->
        loop_body env true g p st
        = (Val Continue,
           push_result (failed_result p not_authenticated) (next_uuid st))
        /\ requests (push_result (failed_result p not_authenticated)
                       (next_uuid st)) = requests st).
Proof.
  intros Hno. split; [|split; [|split; [|split]]].
  - intros fuel channel. unfold fetchAllProducts, bind.
    rewrite fetchAllProducts_loop_step, Hno. reflexivity.
  - intros fuel channel. unfold fetchProductsWithoutImages, bind.
    rewrite fetchProductsWithoutImages_loop_step, Hno. reflexivity.
  - intros. apply assignMediaToProduct_unauthenticated, Hno.
  - intros. apply uploadMedia_unauthenticated, Hno.
  - intros g p buf Hf. split; [|reflexivity].
    rewrite (batch_item_cached env g p st buf Hf). unfold try_catch.
    rewrite (upload_step_uploadMedia_throws env p buf st _ _
               (uploadMedia_unauthenticated env buf (upload_name p) st Hno)).
    reflexivity.
Qed.

(** X9.  [authenticate] sends the client id and secret of the
    configuration in one request.  On a successful answer whose body
    parses, the token of the client becomes the access token of the
    answer, and the client counts as authenticated exactly when that token
    is not empty.  In every other case the call throws and the token the
    client had is kept: on a successful answer whose body is not JSON it
    throws what [res.json()] is rejected with, on an answer that is not a
    success "Shopware auth failed" with its status and body, on a rejected
    request the rejection. *)
Theorem authenticate_sets_token config st :
  requests (snd (authenticate env config st))
  = requests st ++ [token_request config]
  /\ match http env (length (requests st)) (token_request config) with
     | Resolved r =>
         if ok r then
           match json_rejects r with
           | None =>
               fst (authenticate env config st) = Val tt
               /\ accessToken (snd (authenticate env config st))
                  = Some (json_token r)
               /\ (authenticated (snd (authenticate env config st))
                   <-> json_token r <> "")
           | Some e =>
               fst (authenticate env config st) = Thrown e
               /\ accessToken (snd (authenticate env config st))
                  = accessToken st
           end
         else
           fst (authenticate env config st)
           = Thrown (JsError ("Shopware auth failed ("
                              +:+ Js.show_nat (http_status r) +:+ "): "
                              +:+ text r))
           /\ accessToken (snd (authenticate env config st))
              = accessToken st
     | Rejected e =>
         fst (authenticate env config st) = Thrown e
         /\ accessToken (snd (authenticate env config st)) = accessToken st
     end.
Proof.
  unfold authenticate, bind, fetch, json. fold (token_request config).
  destruct (http env (length (requests st)) (token_request config))
    as [e|r]; [cbn; auto|].
  destruct (ok r); cbn; [|auto].
  destruct (json_rejects r) as [e|]; cbn; [auto|].
  split; [reflexivity|]. split; [reflexivity|]. split; [reflexivity|].
  unfold authenticated. cbn.
  destruct (json_token r); split; intros H;
    [discriminate H|congruence|discriminate|reflexivity].
Qed.

(** X10.  When the creation of the media record is answered with a
    non-success response, [uploadMedia] throws "Failed to create media
    entity" with the status and body of the answer, and the creation is
    its only request: no bytes are uploaded.  The upload step of [main]
    records the product as failed with that message. *)
Theorem create_failure_stops_upload p buf st r1 :
  authenticated st ->
  http env (length (requests st)) (create_media_request env st)
    = Resolved r1 ->
  ok r1 = false ->
  uploadMedia env buf (upload_name p) st
  = (Thrown (JsError ("Failed to create media entity ("
                      +:+ Js.show_nat (http_status r1) +:+ "): "
                      +:+ text r1)),
     log_requests [create_media_request env st] (next_uuid st))
  /\ try_catch (upload_step env p (product_name p) buf)
       (catch_clause p (product_name p)) st
     = (Val Continue,
        push_result
          (failed_result p (http_failure "Failed to create media entity" r1))
          (log_requests [create_media_request env st] (next_uuid st))).
Proof.
  intros Hauth H1 Hok.
  assert (Hup : uploadMedia env buf (upload_name p) st
                = (Thrown (http_failure "Failed to create media entity" r1),
                   log_requests [create_media_request env st] (next_uuid st))).
  { rewrite (uploadMedia_run env buf (upload_name p) st Hauth), H1, Hok.
    reflexivity. }
  split; [exact Hup|].
  unfold try_catch.
  rewrite (upload_step_uploadMedia_throws env p buf st _ _ Hup).
  reflexivity.
Qed.

(** X11.  When [uploadMedia] returns, the value is the id drawn for this
    call, a uuid with its dashes removed; the same id is in the creation
    request and in the upload request; these two requests, in this order,
    are all it sent, both were answered with success, and the upload
    carries the bytes given and the encoded file name. *)
Theorem uploadMedia_returns_its_id buf fileName st mediaId st1 :
  uploadMedia env buf fileName st = (Val mediaId, st1) ->
  mediaId = remove_dashes (randomUUID env (uuids st))
  /\ has_dash mediaId = false
  /\ requests st1
     = requests st
       ++ [PostMedia (bearer (accessToken st)) mediaId;
           PostMediaUpload (bearer (accessToken st)) mediaId
             (encodeURIComponent env fileName) buf]
  /\ all_answered_ok env (length (requests st))
       [PostMedia (bearer (accessToken st)) mediaId;
        PostMediaUpload (bearer (accessToken st)) mediaId
          (encodeURIComponent env fileName) buf] = true
  /\ uuids st1 = S (uuids st).
Proof.
  intros H. apply uploadMedia_val in H as (_ & -> & -> & Hok).
  split; [reflexivity|]. split; [apply StringFacts.has_dash_remove_dashes|].
  split; [|split; [exact Hok|reflexivity]].
  cbn. rewrite <- app_assoc. reflexivity.
Qed.

(** X12.  The association was created and named in the location header,
    and the cover patch is answered with a non-success response: then
    [assignMediaToProduct] throws "Failed to set cover image" with the
    status and body of that answer; the association request and the patch
    are its only requests, so the association is left in place and is
    not undone. *)
Theorem cover_failure_keeps_association productId mediaId st r loc r2 :
  authenticated st ->
  http env (length (requests st))
    (association_request st productId mediaId) = Resolved r ->
  ok r = true ->
  location r = Some loc ->
  Js.last_segment loc <> "" ->
  http env (S (length (requests st)))
    (cover_request st productId (Js.last_segment loc)) = Resolved r2 ->
  ok r2 = false ->
  assignMediaToProduct env productId mediaId st
  = (Thrown (JsError ("Failed to set cover image ("
                      +:+ Js.show_nat (http_status r2) +:+ "): "
                      +:+ text r2)),
     log_requests [association_request st productId mediaId;
                   cover_request st productId (Js.last_segment loc)] st).
Proof.
  intros Hauth Hr Hok Hloc Hseg Hr2 Hok2.
  rewrite (assignMediaToProduct_run env productId mediaId st Hauth).
  rewrite Hr, Hok, Hloc. cbn [option_map].
  destruct (Js.last_segment loc) as [|c s]; [congruence|].
  rewrite Hr2, Hok2. reflexivity.
Qed.

(** X13.  A product is recorded as uploaded only when the whole protocol
    went through: when the upload step ends normally, it has sent exactly
    the four requests (create, upload of the given bytes, association,
    cover patch) in this order, each was answered with success, the cover
    id patched is the non-empty last segment of a location, and exactly
    one record, [uploaded], was pushed. *)
Theorem uploaded_means_cover_set p buf st c st' :
  upload_step env p (product_name p) buf st = (Val c, st') ->
  c = Continue
  /\ results st' = results st ++ [uploaded_result p]
  /\ exists cover,
       cover <> ""
       /\ requests st'
          = requests st
            ++ [create_media_request env st;
                upload_request env st (upload_name p) buf;
                association_request st (id p) (media_id env st);
                cover_request st (id p) cover]
       /\ all_answered_ok env (length (requests st))
            [create_media_request env st;
             upload_request env st (upload_name p) buf;
             association_request st (id p) (media_id env st);
             cover_request st (id p) cover] = true.
Proof.
  intros H. apply upload_step_val in H as (-> & _ & loc & Hseg & -> & Hok).
  split; [reflexivity|]. split.
  - cbn [push_result results].
    rewrite (proj1 (proj2 (log_requests_fields _ _))). reflexivity.
  - exists (Js.last_segment loc). split; [exact Hseg|].
    split; [|exact Hok].
    cbn [push_result requests]. rewrite requests_log_requests. reflexivity.
Qed.
End ProtocolExtras.
Section MainRuns.
Variable env : Env.

Lemma authenticate_run config st :
  authenticate env config st
  = match http env (length (requests st)) (token_request config) with
    | Rejected e => (Thrown e, log_request (token_request config) st)
    | Resolved r =>
        if ok r
        then match json_rejects r with
             | Some e => (Thrown e, log_request (token_request config) st)
             | None =>
                 (Val tt,
                  set_accessToken (Some (json_token r))
                    (log_request (token_request config) st))
             end
        else (Thrown (http_failure "Shopware auth failed" r),
              log_request (token_request config) st)
    end.
Proof.
  unfold authenticate, bind, fetch, json. fold (token_request config).
  destruct (http env _ _) as [e|r]; [reflexivity|].
  destruct (ok r); [|reflexivity].
  destruct (json_rejects r); reflexivity.
Qed.

(** [main], step by step. *)
Lemma main_run fuel dryRun batch config st :
  main env fuel dryRun batch config st
  = match authenticate env config st with
    | (Val _, st1) =>
        match fetchAllProducts env fuel (salesChannelId config) st1 with
        | (Val listing, st2) =>
            if length (snd listing) =? 0 then (Val NothingToDo, st2)
            else if dryRun then (Val (DryRunListing (snd listing)), st2)
            else
              match template_file env with
              | None => (Thrown (template_not_found env), st2)
              | Some t =>
                  match for_products env batch {| template := Js.trim t |}
                          (snd listing) (clear_results st2) with
                  | (Val _, st3) => (Val (summary_of (results st3)), st3)
                  | (Thrown e, st3) => (Thrown e, st3)
                  | (OutOfFuel, st3) => (OutOfFuel, st3)
                  end
              end
        | (Thrown e, st2) => (Thrown e, st2)
        | (OutOfFuel, st2) => (OutOfFuel, st2)
        end
    | (Thrown e, st1) => (Thrown e, st1)
    | (OutOfFuel, st1) => (OutOfFuel, st1)
    end.
Proof.
  unfold main. unfold bind at 1.
  destruct (authenticate env config st) as [[u|e|] st1];
    [|reflexivity|reflexivity].
  unfold bind at 1.
  destruct (fetchAllProducts env fuel (salesChannelId config) st1)
    as [[listing|e|] st2]; [|reflexivity|reflexivity].
  destruct (length (snd listing) =? 0); [reflexivity|].
  destruct dryRun; [reflexivity|].
  unfold new_ImageGenerator, template_not_found.
  destruct (template_file env) as [t|]; [|reflexivity].
  unfold bind at 1. unfold ret at 1. unfold bind at 1. unfold modify at 1.
  unfold bind at 1.
  destruct (for_products env batch _ (snd listing) (clear_results st2))
    as [[u'|e|] st3]; reflexivity.
Qed.

Lemma forallb_not_write_search auth channel first n :
  forallb (fun r => negb (is_write_request r))
    (search_requests auth channel first n) = true.
Proof.
  unfold search_requests. revert first.
  induction n as [|n IH]; intros first; cbn; [reflexivity|]. apply IH.
Qed.

(** What [authenticate] followed by [fetchAllProducts] leaves alone. *)
Lemma listing_read_only fuel config st o st1 o2 st2 :
  authenticate env config st = (o, st1) ->
  fetchAllProducts env fuel (salesChannelId config) st1 = (o2, st2) ->
  read_only_run st st1 /\ read_only_run st st2.
Proof.
  intros Hauth Hlist.
  assert (H1 : read_only_run st st1).
  { rewrite authenticate_run in Hauth.
    destruct (http env _ _) as [e|r];
      [|destruct (ok r); [destruct (json_rejects r)|]];
      injection Hauth as <- <-;
      repeat (split; [reflexivity|]);
      exists [token_request config]; split; reflexivity. }
  split; [exact H1|].
  unfold fetchAllProducts, bind in Hlist.
  destruct (fetchAllProducts_loop env fuel (salesChannelId config) 1 [] st1)
    as [o' st'] eqn:Hloop.
  assert (Hst : st2 = st').
  { destruct o'; injection Hlist as _ <-; reflexivity. }
  subst st'.
  apply fetchAllProducts_loop_run in Hloop as (n & -> & _ & _).
  destruct H1 as (R1 & R2 & R3 & R4 & R5 & new & R6 & R7).
  destruct (log_requests_fields
              (search_requests (bearer (accessToken st1))
                 (salesChannelId config) 1 n) st1)
    as (_ & F2 & F3 & F4 & F5 & F6).
  unfold read_only_run. rewrite F2, F3, F4, F5, F6.
  repeat (split; [assumption|]).
  exists (new ++ search_requests (bearer (accessToken st1))
                   (salesChannelId config) 1 n).
  rewrite requests_log_requests, R6, <- app_assoc. split; [reflexivity|].
  rewrite forallb_app, R7. apply forallb_not_write_search.
Qed.
End MainRuns.
Section MainExtras.
Variable env : Env.

Lemma for_products_val batch g ps st :
  exists st', for_products env batch g ps st = (Val tt, st').
Proof.
  destruct (for_products_results env batch g ps st) as (st' & rs & H & _).
  exists st'. exact H.
Qed.

(** X14.  When [main] returns without a summary, or throws, the run has
    only read from the catalog: apart from the token request and search
    requests it sent nothing, it pushed no record, wrote no preview file,
    called no image API and asked no question.  With the dry-run flag no
    run returns a summary, whether or not the prompt template exists.
    (The statement is about runs that return or throw: here the operator
    answers every question, and a run whose input ends while a question
    is pending does neither.) *)
Theorem main_without_summary_is_read_only fuel dryRun batch config st :
  (forall rep st',
      main env fuel dryRun batch config st = (Val rep, st') ->
      match rep with
      | Summary _ _ _ _ => dryRun = false
      | _ => read_only_run st st'
      end)
  /\ (forall e st',
        main env fuel dryRun batch config st = (Thrown e, st') ->
        read_only_run st st').
Proof.
  rewrite main_run.
  destruct (authenticate env config st) as [o1 st1] eqn:Hauth.
  destruct (fetchAllProducts env fuel (salesChannelId config) st1)
    as [o2 st2] eqn:Hlist.
  destruct (listing_read_only env fuel config st o1 st1 o2 st2 Hauth Hlist)
    as [R1 R2].
  destruct o1 as [u|e|];
    [|split; [discriminate|intros e0 st' [= <- <-]; exact R1]
     |split; discriminate].
  destruct o2 as [listing|e|];
    [|split; [discriminate|intros e0 st' [= <- <-]; exact R2]
     |split; discriminate].
  destruct (length (snd listing) =? 0).
  { split; [intros rep st' [= <- <-]; exact R2|discriminate]. }
  destruct dryRun.
  { split; [intros rep st' [= <- <-]; exact R2|discriminate]. }
  destruct (template_file env) as [t|].
  2:{ split; [discriminate|intros e0 st' [= <- <-]; exact R2]. }
  destruct (for_products_val batch {| template := Js.trim t |}
              (snd listing) (clear_results st2)) as (st3 & ->).
  split; [intros rep st' [= <- <-]; reflexivity|discriminate].
Qed.

(** X15.  Errors before the loop end the run.  An error thrown by
    [authenticate] is thrown by [main], with the token request as the only
    request.  After a successful authentication, an error thrown by
    [fetchAllProducts] is thrown by [main].  And when products without
    image were found, the dry-run flag is off and the prompt template
    file does not exist, [main] throws "Prompt template not found at
    <path>".  In each case the run has only read from the catalog. *)
Theorem main_fatal_errors fuel dryRun batch config st :
  (forall e st1,
      authenticate env config st = (Thrown e, st1) ->
      main env fuel dryRun batch config st
      = (Thrown e, log_request (token_request config) st))
  /\ (forall u st1 e st2,
        authenticate env config st = (Val u, st1) ->
        fetchAllProducts env fuel (salesChannelId config) st1
          = (Thrown e, st2) ->
        main env fuel dryRun batch config st = (Thrown e, st2)
        /\ read_only_run st st2)
  /\ (forall u st1 n withoutImages st2,
        authenticate env config st = (Val u, st1) ->
        fetchAllProducts env fuel (salesChannelId config) st1
          = (Val (n, withoutImages), st2) ->
        withoutImages <> [] ->
        dryRun = false ->
        template_file env = None ->
        main env fuel dryRun batch config st
        = (Thrown (JsError ("Prompt template not found at "
                            +:+ TEMPLATE_PATH env)), st2)
        /\ read_only_run st st2).
Proof.
  split; [|split].
  - intros e st1 Hauth. rewrite main_run, Hauth.
    rewrite authenticate_run in Hauth.
    destruct (http env _ _) as [e'|r];
      [|destruct (ok r); [destruct (json_rejects r)|]];
      try discriminate Hauth;
      injection Hauth as H1 H2; subst; reflexivity.
  - intros u st1 e st2 Hauth Hlist. rewrite main_run, Hauth, Hlist.
    split; [reflexivity|].
    apply (listing_read_only env fuel config st _ _ _ _ Hauth Hlist).
  - intros u st1 n wi st2 Hauth Hlist Hne -> Htpl.
    rewrite main_run, Hauth, Hlist, Htpl. cbn [snd].
    destruct wi as [|p wi]; [congruence|]. cbn [length Nat.eqb].
    split; [reflexivity|].
    apply (listing_read_only env fuel config st _ _ _ _ Hauth Hlist).
Qed.
End MainExtras.
Section Records.
Variable env : Env.

Lemma status_counts (rs : list ProcessingResult) :
  length (List.filter (has_status uploaded) rs)
  + length (List.filter (has_status skipped) rs)
  + length (List.filter (has_status failed) rs)
  = length rs.
Proof.
  induction rs as [|r rs IH]; [reflexivity|].
  cbn [List.filter].
  destruct r as [pid pn [] err]; cbn; cbn in IH; lia.
Qed.

(** The upload step under the catch clause pushes exactly one record,
    [uploaded] or [failed]. *)
Lemma upload_catch_result p buf st :
  exists st1 r,
    try_catch (upload_step env p (product_name p) buf)
      (catch_clause p (product_name p)) st = (Val Continue, st1)
    /\ results st1 = results st ++ [r]
    /\ (r = uploaded_result p \/ exists e, r = failed_result p e).
Proof.
  unfold try_catch.
  pose proof (item_ok_upload_step env p buf st) as [_ Hpost].
  destruct (upload_step env p (product_name p) buf st)
    as [[c|e|] st1] eqn:Hup; cbn in Hpost.
  - apply upload_step_val in Hup as (-> & _ & loc & _ & -> & _).
    eexists _, _. split; [reflexivity|]. split; [|left; reflexivity].
    cbn [push_result results].
    rewrite (proj1 (proj2 (log_requests_fields _ _))). reflexivity.
  - eexists _, _. split; [reflexivity|].
    cbn. rewrite Hpost. split; [reflexivity|]. right. eauto.
  - contradiction.
Qed.

Lemma batch_item_result g p st :
  exists st1 r,
    loop_body env true g p st = (Val Continue, st1)
    /\ results st1 = results st ++ [r]
    /\ (r = uploaded_result p \/ exists e, r = failed_result p e).
Proof.
  destruct (files st !! previewPath env p) as [buf|] eqn:Hf.
  - rewrite (batch_item_cached env g p st buf Hf).
    apply upload_catch_result.
  - destruct (generate env g (product_name p) (product_description p) st)
      as [[b|e|] st1] eqn:Hg.
    + rewrite (batch_item_generated env g p st b st1 Hf Hg).
      destruct (upload_catch_result p b
                  (write_file (previewPath env p) b st1))
        as (st2 & r & H1 & H2 & H3).
      exists st2, r. split; [exact H1|]. split; [|exact H3].
      rewrite H2, (generate_state env _ _ _ _ _ _ Hg). reflexivity.
    + rewrite (batch_item_generate_throws env g p st e st1 Hf Hg).
      eexists _, _. split; [reflexivity|].
      rewrite (generate_state env _ _ _ _ _ _ Hg).
      split; [reflexivity|]. right. eauto.
    + destruct (quiet_generate env g (product_name p)
                  (product_description p) st) as (_ & _ & H).
      rewrite Hg in H. contradiction.
Qed.

Lemma loop_body_record batch g p st :
  exists c st1,
    loop_body env batch g p st = (Val c, st1)
    /\ match c with
       | Continue =>
           exists r, results st1 = results st ++ [r] /\ record_of p r
       | Break => results st1 = results st /\ batch = false
       end.
Proof.
  pose proof (loop_body_eq env batch g p st) as Hbody.
  unfold try_catch in Hbody.
  pose proof (item_ok_try_block env batch g p (has_preview env st p) st)
    as [_ Hpost].
  fold (item_try env batch g p st) in Hpost.
  destruct (item_try env batch g p st) as [[[|]|e|] st1] eqn:E;
    cbn in Hpost.
  - exists Continue, st1. split; [exact Hbody|].
    destruct Hpost as (s & [-> | ->] & Hr); eexists; split; try exact Hr.
    + left. reflexivity.
    + right. left. reflexivity.
  - exists Break, st1. split; [exact Hbody|]. split; [exact Hpost|].
    apply (break_only_on_q env batch g p st st1 Hbody).
  - eexists Continue, _. split; [exact Hbody|].
    eexists. cbn. rewrite Hpost. split; [reflexivity|].
    right. right. eauto.
  - contradiction.
Qed.

(** The records of a run, one by one. *)
Lemma for_products_records batch g ps :
  forall st, exists st' rs,
    for_products env batch g ps st = (Val tt, st')
    /\ results st' = results st ++ rs
    /\ Forall2 record_of (firstn (length rs) ps) rs.
Proof.
  induction ps as [|p rest IH]; intros st.
  - exists st, []. cbn. rewrite app_nil_r. auto.
  - destruct (loop_body_record batch g p st) as (c & st1 & Hb & Hc).
    rewrite (for_products_cons env _ _ _ _ _ _ _ Hb).
    destruct c.
    + destruct Hc as (r & Hr & Hrec).
      destruct (IH st1) as (st' & rs & Hf & Hrs & Hall).
      exists st', (r :: rs). rewrite Hf, Hrs, Hr, <- app_assoc.
      split; [reflexivity|]. split; [reflexivity|].
      cbn. constructor; assumption.
    + destruct Hc as [Hr _].
      exists st1, []. rewrite app_nil_r. cbn. auto.
Qed.

Lemma batch_products_records g ps :
  forall st, exists st' rs,
    for_products env true g ps st = (Val tt, st')
    /\ results st' = results st ++ rs
    /\ Forall2 (fun p r => r = uploaded_result p
                           \/ exists e, r = failed_result p e) ps rs.
Proof.
  induction ps as [|p rest IH]; intros st.
  - exists st, []. cbn. rewrite app_nil_r. auto.
  - destruct (batch_item_result g p st) as (st1 & r & Hb & Hr & Hrec).
    rewrite (for_products_cons env _ _ _ _ _ _ _ Hb).
    destruct (IH st1) as (st' & rs & Hf & Hrs & Hall).
    exists st', (r :: rs). rewrite Hf, Hrs, Hr, <- app_assoc.
    split; [reflexivity|]. split; [reflexivity|].
    constructor; assumption.
Qed.
End Records.
(** ** An invariant principle for the loop

    A relation between states that is reflexive and transitive and holds
    across each elementary effect of the loop holds across the loop. *)
Section LoopInvariant.
Variable env : Env.
Variable g : ImageGenerator.
Variable mine : ShopwareProduct -> Prop.
Variable R : St -> St -> Prop.
Hypothesis R_refl : forall st, R st st.
Hypothesis R_trans : forall a b c, R a b -> R b c -> R a c.
Hypothesis R_question : forall q st, R st (log_question q st).
Hypothesis R_uuid : forall st, R st (next_uuid st).
Hypothesis R_request : forall req st,
  protocol_request st req -> R st (log_request req st).
Hypothesis R_prompt : forall p st,
  mine p -> R st (log_prompt (prompt_for g p) st).
Hypothesis R_write : forall p b st,
  mine p -> R st (write_file (previewPath env p) b st).
Hypothesis R_push : forall p r st,
  mine p -> record_of p r -> R st (push_result r st).

Lemma preserves_ret {A} (a : A) : preserves R (ret a).
Proof. intros st. apply R_refl. Qed.

Lemma preserves_bind {A B} (m : M A) (k : A -> M B) :
  preserves R m -> (forall a, preserves R (k a)) -> preserves R (bind m k).
Proof.
  intros Hm Hk st. unfold bind. specialize (Hm st).
  destruct (m st) as [[a|e|] st1]; cbn in *; [|exact Hm|exact Hm].
  apply (R_trans _ _ _ Hm). apply Hk.
Qed.

Lemma preserves_try_catch {A} (m : M A) (h : exn -> M A) :
  preserves R m -> (forall e, preserves R (h e)) ->
  preserves R (try_catch m h).
Proof.
  intros Hm Hh st. unfold try_catch. specialize (Hm st).
  destruct (m st) as [[a|e|] st1]; cbn in *; [exact Hm| |exact Hm].
  apply (R_trans _ _ _ Hm). apply Hh.
Qed.

Lemma preserves_if {A} (b : bool) (m1 m2 : M A) :
  preserves R m1 -> preserves R m2 -> preserves R (if b then m1 else m2).
Proof. destruct b; auto. Qed.

Lemma preserves_ask q : preserves R (ask env q).
Proof. intros st. apply R_question. Qed.

Lemma preserves_readFileSync path : preserves R (readFileSync path).
Proof.
  intros st. unfold readFileSync.
  destruct (files st !! path); apply R_refl.
Qed.

Lemma preserves_requests reqs :
  forall st0 st,
    accessToken st = accessToken st0 ->
    Forall (protocol_request st0) reqs ->
    R st (log_requests reqs st).
Proof.
  induction reqs as [|r reqs IH]; intros st0 st Htok Hall.
  - apply R_refl.
  - inversion Hall as [|? ? Hr Hrest]; subst.
    change (log_requests (r :: reqs) st)
      with (log_requests reqs (log_request r st)).
    apply R_trans with (log_request r st).
    + apply R_request. unfold protocol_request in *.
      rewrite Htok. exact Hr.
    + apply (IH st0); [exact Htok|exact Hrest].
Qed.

Lemma preserves_uploadMedia buf fileName :
  preserves R (uploadMedia env buf fileName).
Proof.
  intros st.
  destruct (Js.truthy (accessToken st)) eqn:Hauth.
  2:{ rewrite (uploadMedia_unauthenticated env _ _ _ Hauth).
      apply R_uuid. }
  rewrite (uploadMedia_run env buf fileName st Hauth).
  assert (H1 : protocol_request st (create_media_request env st))
    by (split; reflexivity).
  assert (H2 : protocol_request st (upload_request env st fileName buf))
    by (split; reflexivity).
  assert (Hone : R st (log_requests [create_media_request env st]
                         (next_uuid st))).
  { apply R_trans with (next_uuid st); [apply R_uuid|].
    apply (preserves_requests _ st); [reflexivity|]. auto. }
  assert (Htwo : R st (log_requests [create_media_request env st;
                                     upload_request env st fileName buf]
                         (next_uuid st))).
  { apply R_trans with (next_uuid st); [apply R_uuid|].
    apply (preserves_requests _ st); [reflexivity|]. auto. }
  destruct (http env (length (requests st)) _) as [e|r1]; [exact Hone|].
  destruct (ok r1); [|exact Hone].
  destruct (http env (S (length (requests st))) _) as [e|r2]; exact Htwo.
Qed.

Lemma preserves_assignMediaToProduct pid mid :
  preserves R (assignMediaToProduct env pid mid).
Proof.
  intros st.
  destruct (Js.truthy (accessToken st)) eqn:Hauth.
  2:{ rewrite (assignMediaToProduct_unauthenticated env _ _ _ Hauth).
      apply R_refl. }
  rewrite (assignMediaToProduct_run env pid mid st Hauth).
  assert (H1 : protocol_request st (association_request st pid mid))
    by (split; reflexivity).
  assert (Hone : R st (log_requests [association_request st pid mid] st)).
  { apply (preserves_requests _ st); [reflexivity|]. auto. }
  destruct (http env (length (requests st)) _) as [e|r1]; [exact Hone|].
  destruct (ok r1); [|exact Hone].
  destruct (option_map Js.last_segment (location r1)) as [[|c s]|];
    [exact Hone| |exact Hone].
  cbn [snd].
  apply (preserves_requests _ st); [reflexivity|].
  constructor; [exact H1|]. constructor; [split; reflexivity|constructor].
Qed.

Section Item.
Variable p : ShopwareProduct.
Hypothesis Hp : mine p.

Lemma preserves_generate :
  preserves R (generate env g (product_name p) (product_description p)).
Proof.
  intros st.
  destruct (generate env g (product_name p) (product_description p) st)
    as [o st1] eqn:Hg.
  rewrite (generate_state env _ _ _ _ _ _ Hg). cbn [snd].
  apply (R_prompt p st Hp).
Qed.

Lemma preserves_writeFileSync b :
  preserves R (writeFileSync (previewPath env p) b).
Proof. intros st. apply (R_write p b st Hp). Qed.

Lemma preserves_push_skipped :
  preserves R (push_skipped p (product_name p)).
Proof.
  intros st. cbn. apply (R_push p); [exact Hp|]. right. left. reflexivity.
Qed.

Lemma preserves_catch_clause e :
  preserves R (catch_clause p (product_name p) e).
Proof.
  intros st. cbn. apply (R_push p); [exact Hp|]. right. right.
  exists e. reflexivity.
Qed.

Lemma preserves_upload_step buf :
  preserves R (upload_step env p (product_name p) buf).
Proof.
  unfold upload_step.
  apply preserves_bind; [apply preserves_uploadMedia|intros mediaId].
  apply preserves_bind; [apply preserves_assignMediaToProduct|intros _].
  intros st. cbn. apply (R_push p); [exact Hp|]. left. reflexivity.
Qed.

Lemma preserves_try_block batch h :
  preserves R (try_block env batch g p (product_name p)
                 (product_description p) (previewPath env p) h).
Proof.
  unfold try_block.
  repeat first
    [ apply preserves_ret
    | apply preserves_push_skipped
    | apply preserves_upload_step
    | apply preserves_generate
    | apply preserves_writeFileSync
    | apply preserves_ask
    | apply preserves_readFileSync
    | apply preserves_if
    | apply preserves_bind; [|intros ?] ].
Qed.

Lemma preserves_loop_body batch : preserves R (loop_body env batch g p).
Proof.
  intros st.
  change (loop_body env batch g p st)
    with (try_catch
            (try_block env batch g p (product_name p)
               (product_description p) (previewPath env p)
               (has_preview env st p))
            (catch_clause p (product_name p)) st).
  apply preserves_try_catch;
    [apply preserves_try_block|apply preserves_catch_clause].
Qed.
End Item.

Lemma preserves_for_products batch ps :
  Forall mine ps -> preserves R (for_products env batch g ps).
Proof.
  induction ps as [|p rest IH]; intros Hall.
  - apply preserves_ret.
  - inversion Hall as [|? ? Hp Hrest]; subst.
    cbn [for_products].
    apply preserves_bind; [apply preserves_loop_body; exact Hp|].
    intros [|]; [apply IH; exact Hrest|apply preserves_ret].
Qed.
End LoopInvariant.
Section LoopFrames.
Variable env : Env.

Lemma token_requests_refl st : token_requests st st.
Proof. split; [reflexivity|]. exists []. rewrite app_nil_r. auto. Qed.

Lemma token_requests_trans a b c :
  token_requests a b -> token_requests b c -> token_requests a c.
Proof.
  intros (T1 & n1 & R1 & F1) (T2 & n2 & R2 & F2).
  split; [congruence|]. exists (n1 ++ n2).
  rewrite R2, R1, <- app_assoc. split; [reflexivity|].
  apply Forall_app. split; [exact F1|].
  unfold protocol_request in *. rewrite T1 in F2. exact F2.
Qed.

Lemma token_requests_same st st' :
  accessToken st' = accessToken st -> requests st' = requests st ->
  token_requests st st'.
Proof.
  intros H1 H2. split; [exact H1|]. exists [].
  rewrite app_nil_r. auto.
Qed.

Lemma for_products_token_requests batch g ps st :
  token_requests st (snd (for_products env batch g ps st)).
Proof.
  apply (preserves_for_products env g (fun _ => True) token_requests);
    try (intros; apply token_requests_same; reflexivity).
  - apply token_requests_trans.
  - intros req st0 Hreq. split; [reflexivity|]. exists [req]. auto.
  - apply List.Forall_forall. auto.
Qed.

Lemma previews_written_refl ps st : previews_written env ps st st.
Proof. split; auto. Qed.

Lemma previews_written_trans ps a b c :
  previews_written env ps a b -> previews_written env ps b c ->
  previews_written env ps a c.
Proof.
  intros (A1 & A2) (B1 & B2). split.
  - intros path H. rewrite (B1 path H). apply A1, H.
  - intros path H. apply B2, A2, H.
Qed.

Lemma previews_written_same ps st st' :
  files st' = files st -> previews_written env ps st st'.
Proof. intros H. unfold previews_written. rewrite H. auto. Qed.

Lemma for_products_previews_written batch g ps st :
  previews_written env ps st (snd (for_products env batch g ps st)).
Proof.
  apply (preserves_for_products env g (fun p => In p ps)
           (previews_written env ps));
    try (intros; apply previews_written_same; reflexivity).
  - apply previews_written_trans.
  - intros p b st0 Hp. split; intros path H; cbn [files write_file].
    + apply lookup_insert_ne. intros <-. apply H. exists p. auto.
    + apply lookup_insert_is_Some'. right. exact H.
  - apply List.Forall_forall. auto.
Qed.

Lemma prompts_sent_refl g ps st : prompts_sent g ps st st.
Proof. exists []. rewrite app_nil_r. auto. Qed.

Lemma prompts_sent_trans g ps a b c :
  prompts_sent g ps a b -> prompts_sent g ps b c -> prompts_sent g ps a c.
Proof.
  intros (n1 & P1 & F1) (n2 & P2 & F2). exists (n1 ++ n2).
  rewrite P2, P1, <- app_assoc. split; [reflexivity|].
  apply Forall_app. auto.
Qed.

Lemma prompts_sent_same g ps st st' :
  prompts st' = prompts st -> prompts_sent g ps st st'.
Proof. intros H. exists []. rewrite app_nil_r. auto. Qed.

Lemma for_products_prompts_sent batch g ps st :
  prompts_sent g ps st (snd (for_products env batch g ps st)).
Proof.
  apply (preserves_for_products env g (fun p => In p ps)
           (prompts_sent g ps));
    try (intros; apply prompts_sent_same; reflexivity).
  - apply prompts_sent_trans.
  - intros p st0 Hp. exists [prompt_for g p]. split; [reflexivity|].
    constructor; [|constructor]. exists p. auto.
  - apply List.Forall_forall. auto.
Qed.
End LoopFrames.
Section SummaryRuns.
Variable env : Env.

(** A run of [main] that ends with a summary went through every stage. *)
Lemma main_summary_inv fuel dryRun batch config st rep st' :
  main env fuel dryRun batch config st = (Val rep, st') ->
  (forall a b c d, rep <> Summary a b c d) \/
  (dryRun = false
   /\ exists st1 listing st2 t,
        authenticate env config st = (Val tt, st1)
        /\ fetchAllProducts env fuel (salesChannelId config) st1
           = (Val listing, st2)
        /\ snd listing <> []
        /\ template_file env = Some t
        /\ for_products env batch {| template := Js.trim t |}
             (snd listing) (clear_results st2) = (Val tt, st')
        /\ rep = summary_of (results st')).
Proof.
  rewrite main_run.
  destruct (authenticate env config st) as [[[]|e|] st1] eqn:Hauth;
    [|discriminate|discriminate].
  destruct (fetchAllProducts env fuel (salesChannelId config) st1)
    as [[listing|e|] st2] eqn:Hlist; [|discriminate|discriminate].
  destruct (length (snd listing) =? 0) eqn:Hlen.
  { intros [= <- <-]. left. discriminate. }
  destruct dryRun.
  { intros [= <- <-]. left. discriminate. }
  destruct (template_file env) as [t|] eqn:Ht; [|discriminate].
  destruct (for_products_val env batch {| template := Js.trim t |}
              (snd listing) (clear_results st2)) as (st3 & Hloop).
  rewrite Hloop. intros [= <- <-]. right. split; [reflexivity|].
  exists st1, listing, st2, t.
  split; [reflexivity|]. split; [exact Hlist|].
  split; [intros E; rewrite E in Hlen; discriminate|].
  repeat split; auto.
Qed.

Lemma filter_failed_records ps rs :
  Forall2 record_of ps rs ->
  Forall (fun r => status r = failed /\ exists msg, error r = Some msg)
    (List.filter (has_status failed) rs)
  /\ (forall r, In r rs -> status r <> failed -> error r = None).
Proof.
  induction 1 as [|p r ps rs Hr Hall [IH1 IH2]]; [split; [constructor|]|].
  { intros r []. }
  cbn [List.filter]. split.
  - destruct Hr as [-> | [-> | [e ->]]]; cbn; try exact IH1.
    constructor; [|exact IH1]. split; [reflexivity|]. eauto.
  - intros r' [<- | Hin] Hs; [|exact (IH2 r' Hin Hs)].
    destruct Hr as [-> | [-> | [e ->]]]; try reflexivity.
    exfalso. apply Hs. reflexivity.
Qed.

Lemma filter_skipped_none ps rs :
  Forall2 (fun p r => r = uploaded_result p
                      \/ exists e, r = failed_result p e) ps rs ->
  List.filter (has_status skipped) rs = []
  /\ map productId rs = map id ps.
Proof.
  induction 1 as [|p r ps rs Hr Hall [IH1 IH2]]; [split; reflexivity|].
  cbn [List.filter map]. rewrite IH2.
  destruct Hr as [-> | [e ->]]; cbn; auto.
Qed.
End SummaryRuns.

Section SummaryExtras.
Variable env : Env.

(** X16.  The summary [main] prints accounts for every record: the three
    counts add up to the number of records, the list of failures has as
    many entries as the failed count, every entry of it has status
    [failed] and an error message, and no other record has an error
    message. *)
Theorem main_summary_counts fuel dryRun batch config st u s f fl st' :
  main env fuel dryRun batch config st = (Val (Summary u s f fl), st') ->
  u + s + f = length (results st')
  /\ length fl = f
  /\ Forall (fun r => status r = failed /\ exists msg, error r = Some msg)
       fl
  /\ (forall r, In r (results st') -> status r <> failed ->
                error r = None).
Proof.
  intros Hmain.
  destruct (main_summary_inv env _ _ _ _ _ _ _ Hmain)
    as [Hno | (_ & st1 & listing & st2 & t & _ & _ & _ & _ & Hloop & Hrep)].
  { exfalso. exact (Hno _ _ _ _ eq_refl). }
  injection Hrep as -> -> -> ->.
  split; [apply status_counts|]. split; [reflexivity|].
  destruct (for_products_records env batch {| template := Js.trim t |}
              (snd listing) (clear_results st2))
    as (st3 & rs & Hloop' & Hrs & Hall).
  rewrite Hloop in Hloop'. injection Hloop' as <-.
  cbn in Hrs. rewrite Hrs.
  exact (filter_failed_records _ _ Hall).
Qed.

(** X17.  In batch mode the summary covers every product found without
    a cover: no record is [skipped], the uploaded and failed counts add up
    to the number of products without image, and the records are those
    of these products, in the order of the listing. *)
Theorem batch_summary_complete fuel config st u s f fl st' :
  main env fuel false true config st = (Val (Summary u s f fl), st') ->
  exists st1 listing st2,
    authenticate env config st = (Val tt, st1)
    /\ fetchAllProducts env fuel (salesChannelId config) st1
       = (Val listing, st2)
    /\ s = 0
    /\ u + f = length (snd listing)
    /\ map productId (results st') = map id (snd listing).
Proof.
  intros Hmain.
  destruct (main_summary_inv env _ _ _ _ _ _ _ Hmain)
    as [Hno | (_ & st1 & listing & st2 & t & Ha & Hl & _ & _ & Hloop & Hrep)].
  { exfalso. exact (Hno _ _ _ _ eq_refl). }
  injection Hrep as -> -> -> ->.
  exists st1, listing, st2. split; [exact Ha|]. split; [exact Hl|].
  destruct (batch_products_records env {| template := Js.trim t |}
              (snd listing) (clear_results st2))
    as (st3 & rs & Hloop' & Hrs & Hall).
  rewrite Hloop in Hloop'. injection Hloop' as <-.
  cbn in Hrs. 
  destruct (filter_skipped_none _ _ Hall) as [Hsk Hids].
  pose proof (status_counts (results st')) as Hcount.
  rewrite Hrs in *. rewrite Hsk in *. cbn [length] in *.
  split; [reflexivity|]. split; [|exact Hids].
  rewrite <- (List.length_map id (snd listing)), <- Hids, List.length_map. lia.
Qed.
End SummaryExtras.
Section FlowRuns.
Variable env : Env.

Lemma search_requests_authorized auth channel first n :
  Forall (fun r => authorization_of r = Some auth)
    (search_requests auth channel first n).
Proof.
  unfold search_requests. revert first.
  induction n as [|n IH]; intros first; cbn; constructor;
    [reflexivity|apply IH].
Qed.

(** In batch mode a pass through the loop body keeps every file that
    exists. *)
Lemma batch_item_keeps_files g p st path b :
  files st !! path = Some b ->
  files (snd (loop_body env true g p st)) !! path = Some b.
Proof.
  intros Hfile.
  destruct (files st !! previewPath env p) as [buf|] eqn:Hf.
  - rewrite (batch_item_cached env g p st buf Hf).
    rewrite (proj1 (proj2 (upload_step_frame env p buf st))). exact Hfile.
  - destruct (generate env g (product_name p) (product_description p) st)
      as [[b'|e|] st1] eqn:Hg.
    + rewrite (batch_item_generated env g p st b' st1 Hf Hg).
      rewrite (proj1 (proj2 (upload_step_frame env p b' _))).
      rewrite (generate_state env _ _ _ _ _ _ Hg). cbn [files write_file log_prompt].
      rewrite lookup_insert_ne; [exact Hfile|].
      intros E. rewrite E in Hf. congruence.
    + rewrite (batch_item_generate_throws env g p st e st1 Hf Hg).
      rewrite (generate_state env _ _ _ _ _ _ Hg). exact Hfile.
    + destruct (quiet_generate env g (product_name p)
                  (product_description p) st) as (_ & _ & H).
      rewrite Hg in H. contradiction.
Qed.
End FlowRuns.

Section FlowExtras.
Variable env : Env.

(** X18.  In batch mode the loop never overwrites or removes a file
    that exists: a preview found in the directory is still there with the
    same bytes when the loop ends, also when the upload of it failed. *)
Theorem batch_keeps_existing_previews g ps st path b :
  files st !! path = Some b ->
  files (snd (for_products env true g ps st)) !! path = Some b.
Proof.
  revert st. induction ps as [|p rest IH]; intros st Hfile; [exact Hfile|].
  pose proof (batch_item_keeps_files env g p st path b Hfile) as Hstep.
  destruct (batch_item_result env g p st) as (st1 & r & Hb & _).
  rewrite (for_products_cons env _ _ _ _ _ _ _ Hb).
  rewrite Hb in Hstep. apply IH. exact Hstep.
Qed.

(** X19.  One token serves the whole run of [main]: the first request is
    the token request, and when it is answered with success every later
    request of the run, search or upload protocol, carries
    [Bearer <access_token>] of that answer; when it is refused or
    rejected, no other request is sent. *)
Theorem main_requests_carry_token fuel dryRun batch config st :
  exists rest,
    requests (snd (main env fuel dryRun batch config st))
    = requests st ++ token_request config :: rest
    /\ match http env (length (requests st)) (token_request config) with
       | Resolved r =>
           if ok r
           then Forall (fun req => authorization_of req
                                   = Some ("Bearer " +:+ json_token r)) rest
           else rest = []
       | Rejected _ => rest = []
       end.
Proof.
  rewrite main_run, authenticate_run.
  destruct (http env (length (requests st)) (token_request config))
    as [e|r]; [exists []; split; reflexivity|].
  destruct (ok r); [|exists []; split; reflexivity].
  destruct (json_rejects r); [exists []; split; [reflexivity|constructor]|].
  set (st1 := set_accessToken _ _).
  assert (Hreq1 : requests st1 = requests st ++ [token_request config])
    by reflexivity.
  assert (Htok1 : bearer (accessToken st1) = "Bearer " +:+ json_token r)
    by reflexivity.
  unfold fetchAllProducts, bind.
  destruct (fetchAllProducts_loop env fuel (salesChannelId config) 1 [] st1)
    as [o2 st2] eqn:Hloop.
  apply fetchAllProducts_loop_run in Hloop as (n & Hst2 & _).
  assert (Hsearch :
            requests st2 = requests st ++ token_request config
              :: search_requests (bearer (accessToken st1))
                   (salesChannelId config) 1 n).
  { rewrite Hst2, requests_log_requests, Hreq1, <- app_assoc.
    reflexivity. }
  assert (Htok2 : accessToken st2 = accessToken st1).
  { rewrite Hst2. apply log_requests_fields. }
  pose proof (search_requests_authorized (bearer (accessToken st1))
                (salesChannelId config) 1 n) as Hall.
  rewrite Htok1 in Hall.
  assert (Hdone : exists rest,
             requests st2 = requests st ++ token_request config :: rest
             /\ Forall (fun req => authorization_of req
                                   = Some ("Bearer " +:+ json_token r)) rest).
  { eexists. split; [exact Hsearch|]. rewrite Htok1. exact Hall. }
  destruct o2 as [all|e|]; cbn [snd]; [|exact Hdone|exact Hdone].
  cbn [fst snd ret].
  destruct (length _ =? 0); [exact Hdone|].
  destruct dryRun; [exact Hdone|].
  destruct (template_file env) as [t|]; [|exact Hdone].
  match goal with
  | |- context [for_products env batch ?g ?ps ?s] =>
      pose proof (for_products_token_requests env batch g ps s)
        as (Htok3 & new & Hnew & Hprot);
      destruct (for_products_val env batch g ps s) as (st3 & Hfor)
  end.
  rewrite Hfor in *. cbn [snd] in *.
  exists (search_requests (bearer (accessToken st1))
            (salesChannelId config) 1 n ++ new).
  split.
  - rewrite Hnew. cbn [requests clear_results]. rewrite Hsearch.
    rewrite <- app_assoc. reflexivity.
  - apply Forall_app. split; [rewrite Htok1; exact Hall|].
    eapply Forall_impl; [exact Hprot|].
    intros req [Hreq _]. cbn in Hreq. rewrite Htok2 in Hreq.
    rewrite <- Htok1. exact Hreq.
Qed.

(** X20.  The loop writes preview files of the products it is given and
    nothing else: a file that is not the preview of one of them is the
    same after the loop (or still absent), and no file that exists goes
    away, in batch and in interactive mode. *)
Theorem loop_writes_only_previews batch g ps st :
  (forall path,
      (forall p, In p ps -> path <> previewPath env p) ->
      files (snd (for_products env batch g ps st)) !! path
      = files st !! path)
  /\ (forall path,
        is_Some (files st !! path) ->
        is_Some (files (snd (for_products env batch g ps st)) !! path)).
Proof.
  destruct (for_products_previews_written env batch g ps st) as [H1 H2].
  split; [|exact H2].
  intros path Hnot. apply H1. intros (p & Hin & ->).
  exact (Hnot p Hin eq_refl).
Qed.

(** X21.  The image API is asked only for the products of the loop:
    every prompt sent while the loop runs is the template filled in with
    the name and the description of one of its products. *)
Theorem loop_prompts_come_from_products batch g ps st :
  exists new,
    prompts (snd (for_products env batch g ps st)) = prompts st ++ new
    /\ Forall (fun s => exists p,
                 In p ps
                 /\ s = buildPrompt (template g) (product_name p)
                          (product_description p)) new.
Proof. exact (for_products_prompts_sent env batch g ps st). Qed.
End FlowExtras.
Section DialogueRuns.
Variable env : Env.

(** [generate] when the image API resolves without image data. *)
Lemma generate_no_data g n d st b64 :
  images_generate env (length (prompts st)) (buildPrompt (template g) n d)
  = ImagesResolved b64 ->
  Js.truthy b64 = false ->
  generate env g n d st
  = (Thrown no_image_data, log_prompt (buildPrompt (template g) n d) st).
Proof.
  intros Hres Hfalsy. unfold generate, bind. rewrite Hres.
  destruct b64 as [[|c s]|]; [reflexivity|discriminate|reflexivity].
Qed.

Lemma generate_rejected g n d st e :
  images_generate env (length (prompts st)) (buildPrompt (template g) n d)
  = ImagesRejected e ->
  generate env g n d st
  = (Thrown e, log_prompt (buildPrompt (template g) n d) st).
Proof. intros Hres. unfold generate, bind. rewrite Hres. reflexivity. Qed.

Lemma eqb_false_of_neq a b : a <> b -> String.eqb a b = false.
Proof. apply String.eqb_neq. Qed.
End DialogueRuns.

Section DialogueExtras.
Variable env : Env.

(** X22.  Batch mode, no preview file, and the image API answers
    without image data (no [b64_json], or an empty one): the product is
    recorded as failed with the message "No image data returned from
    OpenAI", no preview file is written, nothing is sent to the catalog,
    and the loop goes on. *)
Theorem batch_no_image_data_fails g p st b64 :
  files st !! previewPath env p = None ->
  images_generate env (length (prompts st)) (prompt_for g p)
  = ImagesResolved b64 ->
  Js.truthy b64 = false ->
  loop_body env true g p st
  = (Val Continue,
     push_result
       (mk_result p (product_name p) failed
          (Some "No image data returned from OpenAI"))
       (log_prompt (prompt_for g p) st))
  /\ forall rest,
       for_products env true g (p :: rest) st
       = for_products env true g rest
           (push_result (failed_result p no_image_data)
              (log_prompt (prompt_for g p) st)).
Proof.
  intros Hf Hres Hfalsy.
  pose proof (generate_no_data env g (product_name p)
                (product_description p) st b64 Hres Hfalsy) as Hg.
  pose proof (batch_item_generate_throws env g p st _ _ Hf Hg) as Hbody.
  split; [exact Hbody|].
  intros rest. rewrite (for_products_cons env _ _ _ _ _ _ _ Hbody).
  reflexivity.
Qed.

(** X23.  Interactive mode: declining a product costs nothing.  When
    the answer to the first question for a product is not [q] and is not
    one that starts work ([y], and [r] when a preview exists), the product
    is recorded as skipped and nothing else happens: no image is
    requested, no file is written and nothing is sent to the catalog. *)
Theorem declined_product_costs_nothing g p st a :
  answer env (length (questions st)) = a ->
  a <> "q" -> a <> "y" ->
  (has_preview env st p = true -> a <> "r") ->
  loop_body env false g p st
  = (Val Continue,
     push_result (skipped_result p)
       (log_question (first_question env st p) st)).
Proof.
  intros Ha Hq Hy Hr.
  apply eqb_false_of_neq in Hq, Hy.
  rewrite loop_body_eq. unfold try_catch, item_try, first_question.
  cbn [try_block].
  destruct (has_preview env st p).
  - specialize (Hr eq_refl). apply eqb_false_of_neq in Hr.
    mval (ask_eq env q_image_exists st). rewrite Ha, Hq, Hr, Hy.
    reflexivity.
  - mval (ask_eq env q_generate st). rewrite Ha, Hq, Hy. reflexivity.
Qed.



(** X26.  What [ask] returns is the operator's line trimmed and in lower
    case: it has no white space at either end and no letter A-Z, so
    [" Q "] quits like [q]; and the question is logged. *)
Theorem ask_normalises_answer q st :
  exists a,
    ask env q st = (Val a, log_question q st)
    /\ starts_with_space a = false
    /\ ends_with_space a = false
    /\ has_upper a = false
    /\ a = Js.toLowerCase (Js.trim (operator env (length (questions st)))).
Proof.
  eexists. split; [reflexivity|].
  rewrite StringFacts.toLowerCase_start, StringFacts.toLowerCase_end,
    StringFacts.toLowerCase_no_upper.
  unfold Js.trim.
  rewrite JsFacts.trim_end_start by apply JsFacts.trim_start_start.
  rewrite JsFacts.trim_end_end. auto.
Qed.
End DialogueExtras.
(** ** Instances on the sample worlds *)

(** A catalog of 26 products: two pages, requested in order. *)
Lemma fetchAllProducts_pages_in_order_witness :
  exists n,
    1 <= n <= 5
    /\ snd (fetchAllProducts Sample.big_shop_world 5 "channel-1"
              (Sample.start ∅))
       = log_requests
           (search_requests (bearer (Some "token-1")) "channel-1" 1 n)
           (Sample.start ∅)
    /\ 25 * (n - 1) <= 26.
Proof.
  assert (H : fetchAllProducts Sample.big_shop_world 5 "channel-1"
                (Sample.start ∅)
              = (Val (26, Sample.many 26),
                 snd (fetchAllProducts Sample.big_shop_world 5 "channel-1"
                        (Sample.start ∅)))).
  { vm_compute. reflexivity. }
  destruct (fetchAllProducts_pages_in_order Sample.big_shop_world
              "channel-1" 5 (Sample.start ∅) _ _ _ H)
    as (n & Hn & Hst & _ & Htotal & _).
  exists n. split; [exact Hn|]. split; [exact Hst|exact Htotal].
Defined.

(** The search is down: the first request fails and the error carries
    the status and the body. *)
Lemma fetchAllProducts_failure_is_fatal_witness :
  exists m,
    snd (fetchAllProducts Scenario.search_down_world 3 "channel-1"
           (Sample.start ∅))
    = log_requests
        (search_requests (bearer (Some "token-1")) "channel-1" 1 (S m))
        (Sample.start ∅).
Proof.
  assert (H : fetchAllProducts Scenario.search_down_world 3 "channel-1"
                (Sample.start ∅)
              = (Thrown (JsError "Failed to fetch products (503): maintenance"),
                 snd (fetchAllProducts Scenario.search_down_world 3
                        "channel-1" (Sample.start ∅)))).
  { vm_compute. reflexivity. }
  destruct (fetchAllProducts_failure_is_fatal Scenario.search_down_world
              "channel-1" 3 (Sample.start ∅) _ _ H)
    as [(_ & Hfalse & _) | (m & Hst & _)].
  - vm_compute in Hfalse. discriminate Hfalse.
  - exists m. exact Hst.
Defined.

(** A catalog of 26 products reports the total 26: two rounds of fuel
    are enough. *)
Lemma fetchAllProducts_terminates_witness :
  fst (fetchAllProducts Sample.big_shop_world 2 "channel-1" (Sample.start ∅))
  <> OutOfFuel.
Proof.
  refine (proj1 (proj1 (fetchAllProducts_terminates Sample.big_shop_world 26
                          "channel-1" (Sample.start ∅) _) 2 _ _)).
  - intros k req r H _ _.
    destruct req; injection H as <-; vm_compute; discriminate.
  - lia.
  - lia.
Defined.

(** Before [authenticate], an upload throws and sends nothing. *)
Lemma unauthenticated_sends_nothing_witness :
  uploadMedia Sample.ok_world Sample.png "ai-product-0" Sample.fresh
  = (Thrown not_authenticated, next_uuid Sample.fresh).
Proof.
  apply (unauthenticated_sends_nothing Sample.ok_world Sample.fresh eq_refl).
Defined.

(** The creation is refused with status 400. *)
Lemma create_failure_stops_upload_witness :
  uploadMedia Scenario.create_refused_world Sample.png
    (upload_name Sample.p0) (Sample.start ∅)
  = (Thrown (JsError "Failed to create media entity (400): bad id"),
     log_requests [create_media_request Scenario.create_refused_world
                     (Sample.start ∅)]
       (next_uuid (Sample.start ∅))).
Proof.
  assert (Hauth : authenticated (Sample.start ∅)) by reflexivity.
  assert (Hreq : http Scenario.create_refused_world
                   (length (requests (Sample.start ∅)))
                   (create_media_request Scenario.create_refused_world
                      (Sample.start ∅))
                 = Resolved (Sample.response false 400 "bad id" None [] 0%Z))
    by reflexivity.
  exact (proj1 (create_failure_stops_upload Scenario.create_refused_world
                  Sample.p0 Sample.png (Sample.start ∅) _ Hauth Hreq
                  eq_refl)).
Defined.

(** The id returned is the uuid drawn, without its dash. *)
Lemma uploadMedia_returns_its_id_witness :
  has_dash "0a1b0" = false
  /\ uuids (snd (uploadMedia Sample.ok_world Sample.png "ai-product-0"
                   (Sample.start ∅))) = 1.
Proof.
  assert (H : uploadMedia Sample.ok_world Sample.png "ai-product-0"
                (Sample.start ∅)
              = (Val "0a1b0",
                 snd (uploadMedia Sample.ok_world Sample.png "ai-product-0"
                        (Sample.start ∅)))).
  { vm_compute. reflexivity. }
  destruct (uploadMedia_returns_its_id Sample.ok_world _ _ _ _ _ H)
    as (_ & Hdash & _ & _ & Huuids).
  split; [exact Hdash|exact Huuids].
Defined.

(** The cover patch is refused with status 403. *)
Lemma cover_failure_keeps_association_witness :
  fst (assignMediaToProduct Scenario.cover_refused_world "0" "0a1b0"
         (Sample.start ∅))
  = Thrown (JsError "Failed to set cover image (403): forbidden").
Proof.
  assert (Hauth : authenticated (Sample.start ∅)) by reflexivity.
  assert (H1 : http Scenario.cover_refused_world
                 (length (requests (Sample.start ∅)))
                 (association_request (Sample.start ∅) "0" "0a1b0")
               = Resolved
                   (Sample.response true 200 ""
                      (Some "https://shop.test/api/product-media/pm1")
                      [] 0%Z))
    by reflexivity.
  assert (Hseg : Js.last_segment "https://shop.test/api/product-media/pm1"
                 <> "").
  { vm_compute. discriminate. }
  assert (H2 : http Scenario.cover_refused_world
                 (S (length (requests (Sample.start ∅))))
                 (cover_request (Sample.start ∅) "0"
                    (Js.last_segment
                       "https://shop.test/api/product-media/pm1"))
               = Resolved
                   (Sample.response false 403 "forbidden" None [] 0%Z))
    by reflexivity.
  rewrite (cover_failure_keeps_association Scenario.cover_refused_world
             "0" "0a1b0" (Sample.start ∅) _ _ _ Hauth H1 eq_refl eq_refl
             Hseg H2 eq_refl).
  reflexivity.
Defined.

(** Nothing fails: four requests and one record. *)
Lemma uploaded_means_cover_set_witness :
  results (snd (upload_step Sample.ok_world Sample.p0
                  (product_name Sample.p0) Sample.png (Sample.start ∅)))
  = [uploaded_result Sample.p0].
Proof.
  assert (H : upload_step Sample.ok_world Sample.p0 (product_name Sample.p0)
                Sample.png (Sample.start ∅)
              = (Val Continue,
                 snd (upload_step Sample.ok_world Sample.p0
                        (product_name Sample.p0) Sample.png
                        (Sample.start ∅)))).
  { vm_compute. reflexivity. }
  exact (proj1 (proj2 (uploaded_means_cover_set Sample.ok_world _ _ _ _ _ H))).
Defined.

(** A batch run over a catalog with two products without cover: two
    uploads, no failure. *)
Lemma main_summary_counts_witness :
  2 + 0 + 0
  = length (results (snd (main Sample.mixed_shop_world 5 false true
                            Sample.config Sample.fresh))).
Proof.
  assert (H : main Sample.mixed_shop_world 5 false true Sample.config
                Sample.fresh
              = (Val (Summary 2 0 0 []),
                 snd (main Sample.mixed_shop_world 5 false true
                        Sample.config Sample.fresh))).
  { vm_compute. reflexivity. }
  exact (proj1 (main_summary_counts Sample.mixed_shop_world _ _ _ _ _ _ _ _ _
                  _ H)).
Defined.

Lemma batch_summary_complete_witness :
  exists listing,
    fst (fetchAllProducts Sample.mixed_shop_world 5 "channel-1"
           (snd (authenticate Sample.mixed_shop_world Sample.config
                   Sample.fresh)))
    = Val listing
    /\ 2 + 0 = length (snd listing).
Proof.
  assert (H : main Sample.mixed_shop_world 5 false true Sample.config
                Sample.fresh
              = (Val (Summary 2 0 0 []),
                 snd (main Sample.mixed_shop_world 5 false true
                        Sample.config Sample.fresh))).
  { vm_compute. reflexivity. }
  destruct (batch_summary_complete Sample.mixed_shop_world _ _ _ _ _ _ _ _ H)
    as (st1 & listing & st2 & Ha & Hl & _ & Hlen & _).
  exists listing. rewrite Ha. cbn [snd].
  change (salesChannelId Sample.config) with "channel-1" in Hl.
  rewrite Hl. split; [reflexivity|exact Hlen].
Defined.

(** The preview of product 1 is still there after a batch run over the
    products 0 and 1. *)
Lemma batch_keeps_existing_previews_witness :
  files (snd (for_products Sample.ok_world true Sample.generator
                [Sample.p0; Sample.p1] (Sample.start Sample.one_preview)))
    !! "/work/temp/1.png"
  = Some Sample.png.
Proof.
  apply batch_keeps_existing_previews. vm_compute. reflexivity.
Defined.

(** The image API answers without data. *)
Lemma batch_no_image_data_fails_witness :
  loop_body Sample.no_image_world true Sample.generator Sample.p0
    (Sample.start ∅)
  = (Val Continue,
     push_result
       (mk_result Sample.p0 (product_name Sample.p0) failed
          (Some "No image data returned from OpenAI"))
       (log_prompt (prompt_for Sample.generator Sample.p0)
          (Sample.start ∅))).
Proof.
  assert (Hf : files (Sample.start ∅)
                 !! previewPath Sample.no_image_world Sample.p0 = None).
  { vm_compute. reflexivity. }
  exact (proj1 (batch_no_image_data_fails Sample.no_image_world
                  Sample.generator Sample.p0 (Sample.start ∅) None Hf
                  eq_refl eq_refl)).
Defined.

(** The operator answers [n]. *)
Lemma declined_product_costs_nothing_witness :
  loop_body Sample.skip_then_quit_world false Sample.generator Sample.p0
    (Sample.start ∅)
  = (Val Continue,
     push_result (skipped_result Sample.p0)
       (log_question
          (first_question Sample.skip_then_quit_world (Sample.start ∅)
             Sample.p0)
          (Sample.start ∅))).
Proof.
  apply (declined_product_costs_nothing Sample.skip_then_quit_world
           Sample.generator Sample.p0 (Sample.start ∅) "n").
  - vm_compute. reflexivity.
  - discriminate.
  - discriminate.
  - intros H. vm_compute in H. discriminate H.
Defined.



(** A dry run over a catalog with two products without cover lists them
    and has only read from the catalog. *)
Lemma main_without_summary_is_read_only_witness :
  read_only_run Sample.fresh
    (snd (main Sample.mixed_shop_world 5 true false Sample.config
            Sample.fresh)).
Proof.
  assert (H : main Sample.mixed_shop_world 5 true false Sample.config
                Sample.fresh
              = (Val (DryRunListing
                        [Sample.product "a" None;
                         Sample.product "c" (Some "")]),
                 snd (main Sample.mixed_shop_world 5 true false
                        Sample.config Sample.fresh))).
  { vm_compute. reflexivity. }
  exact (proj1 (main_without_summary_is_read_only Sample.mixed_shop_world
                  5 true false Sample.config Sample.fresh) _ _ H).
Defined.

(** ** Answers whose body is not JSON *)

Example authenticate_empty_body :
  authenticate Scenario.empty_bodies_world Sample.config Sample.fresh
  = (Thrown (JsError "Unexpected end of JSON input"),
     log_request (token_request Sample.config) Sample.fresh).
Proof. reflexivity. Qed.

Example fetchAllProducts_empty_body :
  fetchAllProducts Scenario.empty_bodies_world 3 "channel-1" (Sample.start ∅)
  = (Thrown (JsError "Unexpected end of JSON input"),
     log_requests (search_requests "Bearer token-1" "channel-1" 1 1)
       (Sample.start ∅)).
Proof. reflexivity. Qed.

Example words_of_a_line :
  words "  a mug,  blue " = ["a"; "mug,"; "blue"]
  /\ unwords ["a"; "mug,"; "blue"] = "a mug, blue".
Proof. split; reflexivity. Qed.
